(** * sws-todo: folder sharing, optimistic mutations, realtime merge, ordering

    A shallow embedding of the hooks of the application
    (src/hooks/useFolders.ts, useTodos.ts, useBulkActions.ts,
    useTodoOrder.ts, useDragAndDrop.ts) and of the sort of
    src/pages/TodoList.tsx, with the properties of the permission cascade,
    of the optimistic pipeline, of the realtime merge and of the manual
    ordering.

    The hooks are asynchronous functions that read and write three things:
    the rows held by the backend, the React state of the hooks, and the
    toasts shown to the user. They are written here in a state monad with
    exceptions over one [World] record holding all three.

    What the embedding takes from the platform: a request either fails,
    leaving the tables as they are, or applies to every row its filter
    selects (the row-level access rules are not modelled), and which of the
    two is not up to the client: the world carries the verdicts to come. A
    hook runs from its call to its end without another handler in between;
    the debounce of the preference writer is left out, [saveTodoOrder] is
    the function it fires. The store of the world holds the rows by value;
    where the code tells two equal rows apart, by the object that holds
    them ([handleDrop]) or puts an object without fields into the store
    (the subscription, on a deletion), the definition says so. *)

From stdpp Require Import base strings list gmap sorting.

Local Open Scope Z_scope.

(** ** Rows (src/types: Database['public']['Tables'][...]['Row']) *)

(** A column declared [string[] | null] is an [option (list string)];
    a column declared [string | null] is an [option string]. *)

Module Todo.
Record t := mk {
  id : string;
  created_at : string;
  title : string;
  description : option string;
  is_complete : bool;
  user_id : string;
  folder_id : option string;
  shared_with : option (list string);
  can_edit : option (list string)
}.

(** [{ ...t, is_complete: b }] *)
Definition with_is_complete (b : bool) (r : t) : t :=
  mk (id r) (created_at r) (title r) (description r) b (user_id r)
     (folder_id r) (shared_with r) (can_edit r).

(** [{ ...t, folder_id: f }] *)
Definition with_folder_id (f : option string) (r : t) : t :=
  mk (id r) (created_at r) (title r) (description r) (is_complete r)
     (user_id r) f (shared_with r) (can_edit r).
End Todo.

Module Folder.
Record t := mk {
  id : string;
  created_at : string;
  name : string;
  description : option string;
  user_id : string;
  shared_with : option (list string);
  can_edit : option (list string)
}.

(** [{ ...f, shared_with: s, can_edit: c }] *)
Definition with_sharing (s c : option (list string)) (r : t) : t :=
  mk (id r) (created_at r) (name r) (description r) (user_id r) s c.
End Folder.

(** [Permission = 'view' | 'edit' | 'manage'] (src/types/folder.ts) *)
Inductive Permission := view | edit | manage.

(** ** Partial rows: the values of an [update] call

    A field is [None] when the object passed to [update] has no such key or
    holds [undefined] there: the request body is JSON, which drops such
    keys, and the column is left as it is. [Some v] writes [v] (which for a
    nullable column may itself be [None], that is [null]). *)

Module TodoUpdate.
Record t := mk {
  title : option string;
  description : option (option string);
  is_complete : option bool;
  folder_id : option (option string);
  shared_with : option (option (list string));
  can_edit : option (option (list string))
}.

Definition apply (p : t) (r : Todo.t) : Todo.t :=
  Todo.mk (Todo.id r) (Todo.created_at r)
    (default (Todo.title r) (title p))
    (default (Todo.description r) (description p))
    (default (Todo.is_complete r) (is_complete p))
    (Todo.user_id r)
    (default (Todo.folder_id r) (folder_id p))
    (default (Todo.shared_with r) (shared_with p))
    (default (Todo.can_edit r) (can_edit p)).
End TodoUpdate.

Module FolderUpdate.
Record t := mk {
  name : option string;
  description : option (option string);
  shared_with : option (option (list string));
  can_edit : option (option (list string))
}.

Definition apply (p : t) (r : Folder.t) : Folder.t :=
  Folder.mk (Folder.id r) (Folder.created_at r)
    (default (Folder.name r) (name p))
    (default (Folder.description r) (description p))
    (Folder.user_id r)
    (default (Folder.shared_with r) (shared_with p))
    (default (Folder.can_edit r) (can_edit p)).
End FolderUpdate.

(** ** The preference document ([Json] of the generated database types) *)

#[local] Unset Elimination Schemes.
Inductive Json :=
  | JNull
  | JBool (b : bool)
  | JNumber (n : Z)
  | JString (s : string)
  | JArray (items : list Json)
  | JObject (fields : gmap string Json).
#[local] Set Elimination Schemes.

(** The order map [Record<string | 'root', string[]>] as a JSON value. *)
Definition json_of_order (order : gmap string (list string)) : Json :=
  JObject ((λ ids, JArray (JString <$> ids)) <$> order).

(** ** Requests sent to the row store *)

(** The filters the hooks use: [.eq('id', x)], [.eq('folder_id', x)] and
    [.in('id', xs)]. *)
Inductive TodoFilter :=
  | eq_id (x : string)
  | eq_folder_id (x : string)
  | in_id (xs : list string).

Definition todo_matches (f : TodoFilter) (r : Todo.t) : bool :=
  match f with
  | eq_id x => bool_decide (Todo.id r = x)
  | eq_folder_id x => bool_decide (Todo.folder_id r = Some x)
  | in_id xs => bool_decide (Todo.id r ∈ xs)
  end.

Inductive Request :=
  | update_todos (values : TodoUpdate.t) (f : TodoFilter)
  | delete_todos (f : TodoFilter)
  | update_todo_folders (values : FolderUpdate.t) (id : string)
  | delete_todo_folders (id : string)
  | upsert_todo_user_preferences (user_id : string)
                                 (preferences : gmap string Json).

Inductive Toast :=
  | toast_success_msg (msg : string)
  | toast_error_msg (msg : string).

(** ** The world the hooks run in *)

Record World := mkWorld {
  (** the backend: tables [todos], [todo_folders] and, per user id, the
      [preferences] column of [todo_user_preferences] *)
  db_todos : list Todo.t;
  db_folders : list Folder.t;
  db_preferences : gmap string (gmap string Json);
  (** the verdicts of the backend on the coming requests, one per request:
      [true] makes the request fail; none left means the request succeeds *)
  faults : list bool;
  (** the requests issued so far, oldest first, each with its verdict *)
  requests : list (Request * bool);
  (** [useAuth().user], by its id *)
  user : option string;
  (** the state of [useTodos], [useFolders] and [useBulkActions] *)
  todos : list Todo.t;
  folders : list Folder.t;
  selectedTodos : gset string;
  (** the notifications emitted so far, oldest first *)
  toasts : list Toast
}.

(** What a successful request does to the tables. [update] rewrites every
    row the filter selects, [delete] removes them, [upsert] replaces the row
    of the user (or creates it) with the columns given. *)
Definition perform (r : Request) (w : World) : World :=
  match r with
  | update_todos values f =>
      mkWorld
        (map (λ row, if todo_matches f row
                     then TodoUpdate.apply values row else row) (db_todos w))
        (db_folders w) (db_preferences w) (faults w) (requests w) (user w)
        (todos w) (folders w) (selectedTodos w) (toasts w)
  | delete_todos f =>
      mkWorld
        (filter (λ row, todo_matches f row = false) (db_todos w))
        (db_folders w) (db_preferences w) (faults w) (requests w) (user w)
        (todos w) (folders w) (selectedTodos w) (toasts w)
  | update_todo_folders values i =>
      mkWorld (db_todos w)
        (map (λ row, if bool_decide (Folder.id row = i)
                     then FolderUpdate.apply values row else row)
             (db_folders w))
        (db_preferences w) (faults w) (requests w) (user w)
        (todos w) (folders w) (selectedTodos w) (toasts w)
  | delete_todo_folders i =>
      mkWorld (db_todos w)
        (filter (λ row, Folder.id row ≠ i) (db_folders w))
        (db_preferences w) (faults w) (requests w) (user w)
        (todos w) (folders w) (selectedTodos w) (toasts w)
  | upsert_todo_user_preferences u prefs =>
      mkWorld (db_todos w) (db_folders w)
        (<[u := prefs]> (db_preferences w))
        (faults w) (requests w) (user w)
        (todos w) (folders w) (selectedTodos w) (toasts w)
  end.

(** ** The monad of the hooks: state over [World], with [throw] *)

Inductive PostgrestError := postgrest_error (r : Request).

Inductive Completion (A : Type) :=
  | Normal (a : A)
  | Thrown (e : PostgrestError).
Arguments Normal {A} a.
Arguments Thrown {A} e.

Definition Hook (A : Type) : Type := World → Completion A * World.

#[global] Instance hook_ret : MRet Hook := λ A a w, (Normal a, w).
#[global] Instance hook_bind : MBind Hook := λ A B k m w,
  match m w with
  | (Normal a, w') => k a w'
  | (Thrown e, w') => (Thrown e, w')
  end.

Definition throw {A} (e : PostgrestError) : Hook A := λ w, (Thrown e, w).

(** [try { body } catch (error) { handler }] *)
Definition try_catch {A} (body : Hook A) (handler : PostgrestError → Hook A)
  : Hook A := λ w,
  match body w with
  | (Normal a, w') => (Normal a, w')
  | (Thrown e, w') => handler e w'
  end.

(** [await supabase.from(..)...]: the [error] of the response. *)
Definition supabase (r : Request) : Hook (option PostgrestError) := λ w,
  let fails := match faults w with b :: _ => b | [] => false end in
  let w1 := mkWorld (db_todos w) (db_folders w) (db_preferences w)
                    (tail (faults w)) (requests w ++ [(r, fails)]) (user w)
                    (todos w) (folders w) (selectedTodos w) (toasts w) in
  if fails then (Normal (Some (postgrest_error r)), w1)
  else (Normal None, perform r w1).

Definition useAuth_user : Hook (option string) := λ w, (Normal (user w), w).

Definition setTodos (f : list Todo.t → list Todo.t) : Hook unit := λ w,
  (Normal tt,
   mkWorld (db_todos w) (db_folders w) (db_preferences w) (faults w)
           (requests w) (user w) (f (todos w)) (folders w)
           (selectedTodos w) (toasts w)).

Definition setFolders (f : list Folder.t → list Folder.t) : Hook unit := λ w,
  (Normal tt,
   mkWorld (db_todos w) (db_folders w) (db_preferences w) (faults w)
           (requests w) (user w) (todos w) (f (folders w))
           (selectedTodos w) (toasts w)).

Definition setSelectedTodos (s : gset string) : Hook unit := λ w,
  (Normal tt,
   mkWorld (db_todos w) (db_folders w) (db_preferences w) (faults w)
           (requests w) (user w) (todos w) (folders w) s (toasts w)).

Definition get_selectedTodos : Hook (gset string) := λ w,
  (Normal (selectedTodos w), w).

Definition toast (t : Toast) : Hook unit := λ w,
  (Normal tt,
   mkWorld (db_todos w) (db_folders w) (db_preferences w) (faults w)
           (requests w) (user w) (todos w) (folders w) (selectedTodos w)
           (toasts w ++ [t])).

Definition toast_success (msg : string) : Hook unit :=
  toast (toast_success_msg msg).
Definition toast_error (msg : string) : Hook unit :=
  toast (toast_error_msg msg).

(** ** JavaScript helpers *)

(** [new Set(xs)]: the elements are kept in the order of their first
    insertion; [Array.from] lists them in that order. *)
Fixpoint set_add_all (seen xs : list string) : list string :=
  match xs with
  | [] => seen
  | x :: xs' =>
      set_add_all (if bool_decide (x ∈ seen) then seen else seen ++ [x]) xs'
  end.

Definition Array_from_Set (xs : list string) : list string :=
  set_add_all [] xs.

(** [a || []] on a nullable array: an array, even an empty one, is truthy. *)
Definition or_empty (a : option (list string)) : list string := default [] a.

(** ** useFolders.shareFolder *)

Definition grants_edit (permission : Permission) : bool :=
  match permission with view => false | edit | manage => true end.

(** The [updates] object built at the start of [shareFolder]: [can_edit] is
    set only for 'edit' and 'manage'. *)
Definition share_updates (folder : Folder.t) (userId : string)
    (permission : Permission) : FolderUpdate.t :=
  FolderUpdate.mk None None
    (Some (Some (Array_from_Set (or_empty (Folder.shared_with folder) ++ [userId]))))
    (if grants_edit permission
     then Some (Some (Array_from_Set (or_empty (Folder.can_edit folder) ++ [userId])))
     else None).

(** The local update of [shareFolder], on one folder of the state. *)
Definition share_local (folder : Folder.t) (userId : string)
    (permission : Permission) (f : Folder.t) : Folder.t :=
  if bool_decide (Folder.id f = Folder.id folder)
  then Folder.with_sharing
         (Some (Array_from_Set (or_empty (Folder.shared_with f) ++ [userId])))
         (if grants_edit permission
          then Some (Array_from_Set (or_empty (Folder.can_edit f) ++ [userId]))
          else Folder.can_edit f)
         f
  else f.

Definition shareFolder (folder : Folder.t) (userId : string)
    (permission : Permission) : Hook unit :=
  u ← useAuth_user;
  match u with
  | None => mret tt
  | Some _ =>
      try_catch
        (let updates := share_updates folder userId permission in
         error ← supabase (update_todo_folders updates (Folder.id folder));
         match error with
         | Some e => throw e
         | None =>
             todosError ← supabase
               (update_todos
                  (TodoUpdate.mk None None None None
                     (FolderUpdate.shared_with updates)
                     (FolderUpdate.can_edit updates))
                  (eq_folder_id (Folder.id folder)));
             match todosError with
             | Some e => throw e
             | None =>
                 setFolders (map (share_local folder userId permission));;
                 toast_success "Folder shared successfully!"
             end
         end)
        (λ error, toast_error "Failed to share folder";; throw error)
  end.

(** ** useFolders.deleteFolder *)

Definition detach_todos (folder : Folder.t) : Request :=
  update_todos (TodoUpdate.mk None None None (Some None) None None)
               (eq_folder_id (Folder.id folder)).

Definition deleteFolder (folder : Folder.t) : Hook unit :=
  u ← useAuth_user;
  match u with
  | None => mret tt
  | Some _ =>
      try_catch
        (updateError ← supabase (detach_todos folder);
         match updateError with
         | Some e => throw e
         | None =>
             deleteError ← supabase (delete_todo_folders (Folder.id folder));
             match deleteError with
             | Some e => throw e
             | None =>
                 setFolders (filter (λ f, Folder.id f ≠ Folder.id folder));;
                 toast_success "Folder deleted successfully!"
             end
         end)
        (λ _, toast_error "Failed to delete folder")
  end.


(** ** useTodos: the optimistic mutations and the delete *)

(** The state updaters of [toggleTodo]: the optimistic update and the
    rollback. *)
Definition toggle_optimistic (todo : Todo.t) (current : list Todo.t)
  : list Todo.t :=
  map (λ t, if bool_decide (Todo.id t = Todo.id todo)
            then Todo.with_is_complete (negb (Todo.is_complete t)) t else t)
      current.

Definition toggle_rollback (todo : Todo.t) (current : list Todo.t)
  : list Todo.t :=
  map (λ t, if bool_decide (Todo.id t = Todo.id todo)
            then Todo.with_is_complete (Todo.is_complete todo) t else t)
      current.

Definition toggleTodo (todo : Todo.t) : Hook unit :=
  (* Optimistic update *)
  setTodos (toggle_optimistic todo);;
  try_catch
    (error ← supabase
       (update_todos
          (TodoUpdate.mk None None (Some (negb (Todo.is_complete todo)))
                         None None None)
          (eq_id (Todo.id todo)));
     match error with
     | Some e =>
         (* Rollback on error *)
         setTodos (toggle_rollback todo);;
         throw e
     | None => mret tt
     end)
    (λ _, toast_error "Failed to update todo").

Definition deleteTodo (id : string) : Hook unit :=
  try_catch
    (error ← supabase (delete_todos (eq_id id));
     match error with
     | Some e => throw e
     | None =>
         setTodos (filter (λ todo, Todo.id todo ≠ id));;
         toast_success "Todo deleted successfully!"
     end)
    (λ _, toast_error "Failed to delete todo").

(** The state updaters of [updateTodo]. *)
Definition update_optimistic (todo : Todo.t) (current : list Todo.t)
  : list Todo.t :=
  map (λ t, if bool_decide (Todo.id t = Todo.id todo) then todo else t)
      current.

Definition update_rollback (todo : Todo.t) (current : list Todo.t)
  : list Todo.t :=
  map (λ t, if bool_decide (Todo.id t = Todo.id todo)
            then Todo.with_folder_id (Todo.folder_id t) t else t)
      current.

Definition updateTodo (todo : Todo.t) : Hook unit :=
  (* Optimistic update *)
  setTodos (update_optimistic todo);;
  try_catch
    (error ← supabase
       (update_todos
          (TodoUpdate.mk (Some (Todo.title todo))
                         (Some (Todo.description todo)) None
                         (Some (Todo.folder_id todo)) None None)
          (eq_id (Todo.id todo)));
     match error with
     | Some e =>
         (* Rollback on error *)
         setTodos (update_rollback todo);;
         throw e
     | None => toast_success "Todo updated successfully!"
     end)
    (λ _, toast_error "Failed to update todo").

(** ** useBulkActions *)

(** The state updaters of [handleBulkMove]. *)
Definition bulk_move_optimistic (selected : gset string)
    (folderId : option string) (current : list Todo.t) : list Todo.t :=
  map (λ todo, if bool_decide (Todo.id todo ∈ selected)
               then Todo.with_folder_id folderId todo else todo)
      current.

Definition bulk_move_rollback (selected : gset string)
    (current : list Todo.t) : list Todo.t :=
  map (λ todo, if bool_decide (Todo.id todo ∈ selected)
               then Todo.with_folder_id (Todo.folder_id todo) todo else todo)
      current.

Definition handleBulkMove (folderId : option string) : Hook unit :=
  selected ← get_selectedTodos;
  try_catch
    ((* Optimistically update UI *)
     setTodos (bulk_move_optimistic selected folderId);;
     error ← supabase
       (update_todos
          (TodoUpdate.mk None None None (Some folderId) None None)
          (in_id (elements selected)));
     match error with
     | Some e =>
         (* Rollback on error *)
         setTodos (bulk_move_rollback selected);;
         throw e
     | None =>
         toast_success "Todos moved successfully!";;
         setSelectedTodos ∅
     end)
    (λ _, toast_error "Failed to move todos").

Definition handleBulkDelete : Hook unit :=
  selected ← get_selectedTodos;
  try_catch
    (error ← supabase (delete_todos (in_id (elements selected)));
     match error with
     | Some e => throw e
     | None =>
         toast_success "Todos deleted successfully!";;
         setSelectedTodos ∅
     end)
    (λ _, toast_error "Failed to delete todos").

(** The state updaters of [handleBulkToggleComplete]. *)
Definition bulk_complete_optimistic (selected : gset string)
    (complete : bool) (current : list Todo.t) : list Todo.t :=
  map (λ todo, if bool_decide (Todo.id todo ∈ selected)
               then Todo.with_is_complete complete todo else todo)
      current.

Definition bulk_complete_rollback (selected : gset string)
    (complete : bool) (current : list Todo.t) : list Todo.t :=
  map (λ todo, if bool_decide (Todo.id todo ∈ selected)
               then Todo.with_is_complete (negb complete) todo else todo)
      current.

Definition handleBulkToggleComplete (complete : bool) : Hook unit :=
  selected ← get_selectedTodos;
  try_catch
    ((* Optimistically update UI *)
     setTodos (bulk_complete_optimistic selected complete);;
     error ← supabase
       (update_todos
          (TodoUpdate.mk None None (Some complete) None None None)
          (in_id (elements selected)));
     match error with
     | Some e =>
         (* Rollback on error *)
         setTodos (bulk_complete_rollback selected complete);;
         throw e
     | None =>
         toast_success "Todos updated successfully!";;
         setSelectedTodos ∅
     end)
    (λ _, toast_error "Failed to update todos").

(** ** The realtime subscription of useTodos *)

Inductive EventType := INSERT | UPDATE | DELETE.

(** The payload of a [postgres_changes] event that carries a row, that of
    an insert or of an update: [new] is the new row ([None] stands for a
    falsy [new], which the handler skips). The payload of a deletion, whose
    [new] is an object without fields, is [Change] below. *)
Record Payload := mkPayload {
  eventType : EventType;
  new : option Todo.t;
  old_id : option string
}.

(** The state update of the handler, for a payload with a new row. *)
Definition merge_row (payload_new : Todo.t) (current : list Todo.t)
  : list Todo.t :=
  match find (λ todo, bool_decide (Todo.id todo = Todo.id payload_new))
             current with
  | Some _ =>
      map (λ todo, if bool_decide (Todo.id todo = Todo.id payload_new)
                   then payload_new else todo) current
  | None => current ++ [payload_new]
  end.

Definition on_postgres_changes (payload : Payload) : Hook unit :=
  match new payload with
  | Some payload_new => setTodos (merge_row payload_new)
  | None => mret tt
  end.

(** ** The realtime subscription on a deletion

    The realtime client builds the payload of every event with [new] and
    [old] set to the empty object [{}], and fills in [new] for an insert
    and an update only: the [new] of a deletion is [{}], which is truthy.
    The handler puts [payload.new] into the store as it comes, so that an
    entry of the store is a row or the empty object. The store of the
    world, which holds rows, is [entry_row <$> todos w] here. *)
Inductive Entry :=
  | entry_row (row : Todo.t)
  | entry_empty.

(** [entry.id]: [undefined] on the empty object. *)
Definition entry_id (entry : Entry) : option string :=
  match entry with
  | entry_row row => Some (Todo.id row)
  | entry_empty => None
  end.

(** The payload as the client hands it over; [old_row_id] is the
    identifier in [old], which the handler does not read. *)
Record Change := mkChange {
  change_type : EventType;
  change_new : option Entry;
  old_row_id : option string
}.

(** The state update of the handler on such a store: [===] holds between
    two identifiers that are [undefined]. *)
Definition merge_entry (payload_new : Entry) (current : list Entry)
  : list Entry :=
  match find (λ todo, bool_decide (entry_id todo = entry_id payload_new))
             current with
  | Some _ =>
      map (λ todo, if bool_decide (entry_id todo = entry_id payload_new)
                   then payload_new else todo) current
  | None => current ++ [payload_new]
  end.

(** The handler, as the function from the store to the store it passes to
    [setTodos] (the identity when [payload.new] is falsy). *)
Definition subscription_handler (payload : Change) (current : list Entry)
  : list Entry :=
  match change_new payload with
  | Some payload_new => merge_entry payload_new current
  | None => current
  end.

(** The payload of the deletion of the row [id]. *)
Definition deletion_event (id : string) : Change :=
  mkChange DELETE (Some entry_empty) (Some id).

(** The payload of an insert or update as a [Change]. *)
Definition row_change (payload : Payload) : Change :=
  mkChange (eventType payload) (entry_row <$> new payload) (old_id payload).

(** ** useTodoOrder.saveTodoOrder (the function the debounce fires) *)

Definition saveTodoOrder (newOrder : gmap string (list string)) : Hook unit :=
  u ← useAuth_user;
  match u with
  | None => mret tt
  | Some uid =>
      try_catch
        (error ← supabase
           (upsert_todo_user_preferences uid
              {[ "todoOrder" := json_of_order newOrder ]});
         match error with
         | Some e => throw e
         | None => mret tt
         end)
        (λ _, mret tt)
  end.

(** ** TodoList: filter and sort of the rendered todos *)

Inductive Filter := all | active | completed.

Definition passes (filter : Filter) (todo : Todo.t) : bool :=
  match filter with
  | active => negb (Todo.is_complete todo)
  | completed => Todo.is_complete todo
  | all => true
  end.

(** [xs.indexOf(x)]: the first index at which [x] occurs, or -1. *)
Fixpoint indexOf_from (i : Z) (xs : list string) (x : string) : Z :=
  match xs with
  | [] => -1
  | y :: ys => if bool_decide (y = x) then i else indexOf_from (i + 1) ys x
  end.

Definition indexOf (xs : list string) (x : string) : Z := indexOf_from 0 xs x.

(** [selectedFolderId || 'root']: null and the empty string are falsy. *)
Definition scope_key (selectedFolderId : option string) : string :=
  match selectedFolderId with
  | Some s => if bool_decide (s = "") then "root" else s
  | None => "root"
  end.

(** The comparator passed to [sort]. *)
Definition compare_todos (todoOrder : gmap string (list string))
    (selectedFolderId : option string) (a b : Todo.t) : Z :=
  let folderId := scope_key selectedFolderId in
  let order := default [] (todoOrder !! folderId) in
  let indexA := indexOf order (Todo.id a) in
  let indexB := indexOf order (Todo.id b) in
  if bool_decide (indexA = -1) && bool_decide (indexB = -1) then 0
  else if bool_decide (indexA = -1) then 1
  else if bool_decide (indexB = -1) then -1
  else indexA - indexB.

(** [Array.prototype.sort]: the language fixes the result for a consistent
    comparator (sorted, and stable since ES2019) and leaves the algorithm
    open; this is the stable insertion sort. An element goes in front of
    the first one it does not have to follow. *)
Fixpoint sort_insert {A} (comparefn : A → A → Z) (x : A) (sorted : list A)
  : list A :=
  match sorted with
  | [] => [x]
  | y :: ys =>
      if bool_decide (comparefn x y ≤ 0) then x :: y :: ys
      else y :: sort_insert comparefn x ys
  end.

Definition Array_sort {A} (comparefn : A → A → Z) (xs : list A) : list A :=
  foldr (sort_insert comparefn) [] xs.

(** The two [filter] calls: the todos of the selected folder (all of them
    when none is selected) that pass the completion filter. *)
Definition shown_todos (todos : list Todo.t)
    (selectedFolderId : option string) (filter_ : Filter) : list Todo.t :=
  filter (λ todo, passes filter_ todo = true)
    (filter (λ todo, selectedFolderId = None
                     ∨ Todo.folder_id todo = selectedFolderId) todos).

Definition filteredTodos (todos : list Todo.t)
    (selectedFolderId : option string) (filter_ : Filter)
    (todoOrder : gmap string (list string)) : list Todo.t :=
  Array_sort (compare_todos todoOrder selectedFolderId)
    (shown_todos todos selectedFolderId filter_).

(** The order list of the scope, and the position a todo has in it. *)
Definition scope_order (todoOrder : gmap string (list string))
    (selectedFolderId : option string) : list string :=
  default [] (todoOrder !! scope_key selectedFolderId).

Definition order_index (todoOrder : gmap string (list string))
    (selectedFolderId : option string) (t : Todo.t) : Z :=
  indexOf (scope_order todoOrder selectedFolderId) (Todo.id t).

(** An open todo at the root, named by its identifier. *)
Definition todo_named (id : string) : Todo.t :=
  Todo.mk id "2025-02-06" id None false "u1" None (Some []) (Some []).


(** ** Outcomes of a hook call *)

(** The call returned normally and its success notification is the last
    thing it emitted. *)
Definition succeeds (m : Hook unit) (msg : string) (w w' : World) : Prop :=
  m w = (Normal tt, w') ∧ toasts w' = toasts w ++ [toast_success_msg msg].

(** The backend rejects the next request. *)
Definition next_request_fails (w : World) : Prop :=
  ∃ fs, faults w = true :: fs.

(** The backend accepts the next request. *)
Definition next_request_passes (w : World) : Prop :=
  faults w = [] ∨ ∃ fs, faults w = false :: fs.

(** What [shareFolder] writes to the rows of the folder and to its todos. *)
Definition share_folder_row (folder : Folder.t) (userId : string)
    (permission : Permission) (row : Folder.t) : Folder.t :=
  if bool_decide (Folder.id row = Folder.id folder)
  then FolderUpdate.apply (share_updates folder userId permission) row
  else row.

Definition share_todo_row (folder : Folder.t) (userId : string)
    (permission : Permission) (row : Todo.t) : Todo.t :=
  if todo_matches (eq_folder_id (Folder.id folder)) row
  then TodoUpdate.apply
         (TodoUpdate.mk None None None None
            (FolderUpdate.shared_with (share_updates folder userId permission))
            (FolderUpdate.can_edit (share_updates folder userId permission)))
         row
  else row.


(** What the cascade is said to establish: each todo filed under the
    folder carries the sharing arrays of the folder's row. *)
Definition todos_mirror_folder (fid : string) (w : World) : Prop :=
  ∀ T F, T ∈ db_todos w → F ∈ db_folders w →
    Todo.folder_id T = Some fid → Folder.id F = fid →
    Todo.shared_with T = Folder.shared_with F
    ∧ Todo.can_edit T = Folder.can_edit F.

(** ** A session used in the examples

    User u1 owns the folder Groceries, never shared, with the todo Milk in
    it and the todo Taxes at the root. *)

Definition groceries : Folder.t :=
  Folder.mk "f1" "2025-02-06" "Groceries" None "u1" (Some []) (Some []).

Definition milk : Todo.t :=
  Todo.mk "t1" "2025-02-06" "Milk" None false "u1" (Some "f1")
          (Some []) (Some []).

Definition taxes : Todo.t :=
  Todo.mk "t2" "2025-02-07" "Taxes" None true "u1" None (Some []) (Some []).

(** Milk, after its owner let u9 edit it, on its own. *)
Definition milk_u9 : Todo.t :=
  Todo.mk "t1" "2025-02-06" "Milk" None false "u1" (Some "f1")
          (Some ["u9"]) (Some ["u9"]).

Definition session (db : list Todo.t) (verdicts : list bool)
    (selected : gset string) : World :=
  mkWorld db [groceries] ∅ verdicts [] (Some "u1") db [groceries] selected [].

(** How many entries of a collection carry the identifier [i]. *)
Definition count_id (i : string) (l : list Todo.t) : nat :=
  length (filter (λ t, Todo.id t = i) l).

(** A session of u1 whose preference document holds a theme besides the
    order of the todos. *)
Definition session_with_theme : World :=
  mkWorld [] []
    {[ "u1" := {[ "theme" := JString "dark";
                  "todoOrder" := json_of_order {[ "root" := ["a"; "b"] ]} ]} ]}
    [] [] (Some "u1") [] [] ∅ [].


(** * The rest of the hooks *)

(** ** Reads and inserts

    The answer [{ data, error }] of a read or of an insert: the data, or an
    error. Such a request takes the next verdict of the backend like any
    other; the log of [requests] keeps updates, deletes and upserts only. *)

Inductive Response (A : Type) :=
  | data_of (data : A)
  | error_of.
Arguments data_of {A} data.
Arguments error_of {A}.

(** The world once the backend has answered one more request. *)
Definition answered (w : World) : World :=
  mkWorld (db_todos w) (db_folders w) (db_preferences w) (tail (faults w))
          (requests w) (user w) (todos w) (folders w) (selectedTodos w)
          (toasts w).

Definition next_fails (w : World) : bool :=
  match faults w with b :: _ => b | [] => false end.

(** [await supabase.from(..).select(..)...] *)
Definition supabase_select {A} (query : World → A) : Hook (Response A) := λ w,
  if next_fails w then (Normal error_of, answered w)
  else (Normal (data_of (query w)), answered w).

(** [.single()]: the row when the filter selects exactly one; otherwise the
    data is null. *)
Definition single {A} (rows : list A) : option A :=
  match rows with
  | [row] => Some row
  | _ => None
  end.

(** [Tables['todos']['Insert']]: an absent key leaves the column to its
    default in the table. *)
Module TodoInsert.
Record t := mk {
  id : option string;
  created_at : option string;
  title : string;
  description : option (option string);
  is_complete : option bool;
  user_id : string;
  folder_id : option (option string);
  shared_with : option (option (list string));
  can_edit : option (option (list string))
}.

(** The row the table stores: the identifier and the timestamp are the
    ones the backend assigns when the client gives none; the other defaults
    are those of the migration. *)
Definition row (assigned_id assigned_at : string) (i : t) : Todo.t :=
  Todo.mk (default assigned_id (id i)) (default assigned_at (created_at i))
    (title i) (default None (description i)) (default false (is_complete i))
    (user_id i) (default None (folder_id i))
    (default (Some []) (shared_with i)) (default (Some []) (can_edit i)).
End TodoInsert.

Module FolderInsert.
Record t := mk {
  id : option string;
  created_at : option string;
  name : string;
  description : option (option string);
  user_id : string;
  shared_with : option (option (list string));
  can_edit : option (option (list string))
}.

Definition row (assigned_id assigned_at : string) (i : t) : Folder.t :=
  Folder.mk (default assigned_id (id i)) (default assigned_at (created_at i))
    (name i) (default None (description i)) (user_id i)
    (default (Some []) (shared_with i)) (default (Some []) (can_edit i)).
End FolderInsert.

(** [await supabase.from('todos').insert(values).select()] *)
Definition supabase_insert_todo (row : Todo.t) : Hook (Response (list Todo.t))
  := λ w,
  if next_fails w then (Normal error_of, answered w)
  else (Normal (data_of [row]),
        mkWorld (db_todos w ++ [row]) (db_folders w) (db_preferences w)
                (tail (faults w)) (requests w) (user w) (todos w) (folders w)
                (selectedTodos w) (toasts w)).

Definition supabase_insert_folder (row : Folder.t)
  : Hook (Response (list Folder.t)) := λ w,
  if next_fails w then (Normal error_of, answered w)
  else (Normal (data_of [row]),
        mkWorld (db_todos w) (db_folders w ++ [row]) (db_preferences w)
                (tail (faults w)) (requests w) (user w) (todos w) (folders w)
                (selectedTodos w) (toasts w)).

(** ** JavaScript helpers, continued *)

(** [xs.findIndex(p)]: the first index whose element passes, or -1. *)
Fixpoint findIndex_from {A} (i : Z) (p : A → bool) (xs : list A) : Z :=
  match xs with
  | [] => -1
  | x :: xs' => if p x then i else findIndex_from (i + 1) p xs'
  end.

Definition findIndex {A} (p : A → bool) (xs : list A) : Z :=
  findIndex_from 0 p xs.

(** [xs.filter((x, index) => keep(index, x))] *)
Fixpoint filter_from {A} (index : Z) (keep : Z → A → bool) (xs : list A)
  : list A :=
  match xs with
  | [] => []
  | x :: xs' =>
      if keep index x then x :: filter_from (index + 1) keep xs'
      else filter_from (index + 1) keep xs'
  end.

(** [self.filter((x, index) => index === self.findIndex(f => f.id === x.id))],
    the removal of duplicates of [fetchTodos] and [fetchFolders]. *)
Definition unique_by_id {A} (id : A → string) (self : list A) : list A :=
  filter_from 0
    (λ index x,
       bool_decide (index = findIndex (λ f, bool_decide (id f = id x)) self))
    self.

(** ** useTodos: the initial fetch *)

Definition owned_todos (uid : string) (w : World) : list Todo.t :=
  filter (λ t, Todo.user_id t = uid) (db_todos w).

Definition shared_todos (uid : string) (w : World) : list Todo.t :=
  filter (λ t, uid ∈ or_empty (Todo.shared_with t)) (db_todos w).

(** [fetchTodos], as the effect runs it once a user is known. The
    [loading] flag it clears at the end is not part of the world. *)
Definition fetchTodos : Hook unit :=
  u ← useAuth_user;
  match u with
  | None => mret tt
  | Some uid =>
      owned ← supabase_select (owned_todos uid);
      match owned with
      | error_of => toast_error "Failed to fetch todos"
      | data_of data =>
          shared ← supabase_select (shared_todos uid);
          match shared with
          | error_of => toast_error "Failed to fetch shared todos"
          | data_of sharedTodos =>
              setTodos (λ _, unique_by_id Todo.id (data ++ sharedTodos))
          end
      end
  end.

(** ** useFolders: the update and the creation *)

Definition updateFolder (folder : Folder.t) : Hook unit :=
  u ← useAuth_user;
  match u with
  | None => mret tt
  | Some _ =>
      try_catch
        (error ← supabase
           (update_todo_folders
              (FolderUpdate.mk (Some (Folder.name folder))
                               (Some (Folder.description folder)) None None)
              (Folder.id folder));
         match error with
         | Some e => throw e
         | None =>
             setFolders (map (λ f,
               if bool_decide (Folder.id f = Folder.id folder)
               then folder else f));;
             toast_success "Folder updated successfully!"
         end)
        (λ _, toast_error "Failed to update folder")
  end.

(** [Omit<FolderInsert, 'user_id'>] *)
Module FolderData.
Record t := mk {
  id : option string;
  created_at : option string;
  name : string;
  description : option (option string);
  shared_with : option (option (list string));
  can_edit : option (option (list string))
}.
End FolderData.

(** [createFolder]. A failed insert is thrown inside the [try] and caught
    by the handler of the function, which reports it. The data of an
    accepted insert is the list of the one row inserted, and [data[0]] is
    that row. *)
Definition createFolder (assigned_id assigned_at : string)
    (folderData : FolderData.t) : Hook unit :=
  u ← useAuth_user;
  match u with
  | None => mret tt
  | Some uid =>
      inserted ← supabase_insert_folder
        (FolderInsert.row assigned_id assigned_at
           (FolderInsert.mk (FolderData.id folderData)
              (FolderData.created_at folderData) (FolderData.name folderData)
              (FolderData.description folderData) uid
              (FolderData.shared_with folderData)
              (FolderData.can_edit folderData)));
      match inserted with
      | error_of => toast_error "Failed to create folder"
      | data_of data =>
          setFolders (λ current, current ++ take 1 data);;
          toast_success "Folder created successfully!"
      end
  end.


(** ** useTodos.addTodo *)

(** [Omit<TodoInsert, 'user_id'>] *)
Module TodoData.
Record t := mk {
  id : option string;
  created_at : option string;
  title : string;
  description : option (option string);
  is_complete : option bool;
  folder_id : option (option string);
  shared_with : option (option (list string));
  can_edit : option (option (list string))
}.
End TodoData.

(** [if (todoData.folder_id)]: the folder to inherit from; absent, null
    and the empty string are falsy. *)
Definition truthy_folder_id (folder_id : option (option string))
  : option string :=
  match folder_id with
  | Some (Some s) => if bool_decide (s = "") then None else Some s
  | _ => None
  end.

(** The sharing arrays of the folder a new todo is filed under: those of
    its row, an absent array counting as empty; empty when the todo has no
    folder, when the read fails or when no single row answers. *)
Definition inherited_sharing (todoData : TodoData.t)
  : Hook (list string * list string) :=
  match truthy_folder_id (TodoData.folder_id todoData) with
  | None => mret ([], [])
  | Some fid =>
      read ← supabase_select (λ w,
        single (filter (λ f, Folder.id f = fid) (db_folders w)));
      match read with
      | data_of (Some folder) =>
          mret (or_empty (Folder.shared_with folder),
                or_empty (Folder.can_edit folder))
      | _ => mret ([], [])
      end
  end.

(** [{ ...todoData, user_id, shared_with: sharedWith, can_edit: canEdit }] *)
Definition new_todo (todoData : TodoData.t) (uid : string)
    (sharedWith canEdit : list string) : TodoInsert.t :=
  TodoInsert.mk (TodoData.id todoData) (TodoData.created_at todoData)
    (TodoData.title todoData) (TodoData.description todoData)
    (TodoData.is_complete todoData) uid (TodoData.folder_id todoData)
    (Some (Some sharedWith)) (Some (Some canEdit)).

(** [addTodo] up to the answer of the insert, and from the answer on. A
    failed insert is thrown inside the [try] and caught by the handler of
    the function, which reports it. *)
Definition addTodo_request (assigned_id assigned_at : string)
    (todoData : TodoData.t) (uid : string) : Hook (Response (list Todo.t)) :=
  sharing ← inherited_sharing todoData;
  supabase_insert_todo
    (TodoInsert.row assigned_id assigned_at
       (new_todo todoData uid sharing.1 sharing.2)).

Definition addTodo_settle (inserted : Response (list Todo.t)) : Hook unit :=
  match inserted with
  | error_of => toast_error "Failed to add todo"
  | data_of data =>
      setTodos (λ current, current ++ take 1 data);;
      toast_success "Todo added successfully!"
  end.

Definition addTodo (assigned_id assigned_at : string)
    (todoData : TodoData.t) : Hook unit :=
  u ← useAuth_user;
  match u with
  | None => mret tt
  | Some uid =>
      inserted ← addTodo_request assigned_id assigned_at todoData uid;
      addTodo_settle inserted
  end.

(** The realtime event of the insertion of a row. *)
Definition insertion_event (row : Todo.t) : Payload :=
  mkPayload INSERT (Some row) None.

(** ** EditTodoModal.handleSubmit: the todo handed to [onSave] *)

(** [description] starts as [todo.description || '']: a null description
    is the empty string in the form. *)
Definition form_description (todo : Todo.t) : string :=
  match Todo.description todo with
  | Some s => s
  | None => ""
  end.

Definition edited_todo (todo : Todo.t) (title description : string)
    (folderId : option string) : Todo.t :=
  Todo.mk (Todo.id todo) (Todo.created_at todo) title (Some description)
          (Todo.is_complete todo) (Todo.user_id todo) folderId
          (Todo.shared_with todo) (Todo.can_edit todo).

(** ** TodoList: the selection, and the target of the bulk toggle *)

(** The updater of [onSelect]: the identifier leaves the selection when it
    is in it and enters it otherwise. *)
Definition toggle_selection (id : string) (prev : gset string) : gset string :=
  if bool_decide (id ∈ prev) then prev ∖ {[ id ]} else {[ id ]} ∪ prev.

(** [todos.find(t => t.id === id)?.is_complete], as a condition. *)
Definition found_complete (todos : list Todo.t) (id : string) : bool :=
  match find (λ t, bool_decide (Todo.id t = id)) todos with
  | Some t => Todo.is_complete t
  | None => false
  end.

(** BulkActionsBar: the argument the button passes to [onToggleComplete],
    [!Array.from(selectedTodos).every(..)]. *)
Definition bulk_toggle_target (todos : list Todo.t) (selected : gset string)
  : bool :=
  negb (forallb (found_complete todos) (elements selected)).

Definition press_bulk_toggle : Hook unit := λ w,
  handleBulkToggleComplete (bulk_toggle_target (todos w) (selectedTodos w)) w.

(** ** useDragAndDrop.handleDrop *)

(** [xs.splice(start, 0, item)] for a start that is not negative: past the
    end, the item is appended. *)
Definition splice_in {A} (start : Z) (item : A) (xs : list A) : list A :=
  take (Z.to_nat start) xs ++ [item] ++ drop (Z.to_nat start) xs.

(** [t.folder_id || 'root'] *)
Definition folder_scope (t : Todo.t) : string :=
  scope_key (Todo.folder_id t).

(** The list after the move: the dragged todo taken out and put back at
    the index the target had. *)
Definition moved_todos (currentTodos : list Todo.t) (draggedTodo : Todo.t)
    (targetIndex : Z) : list Todo.t :=
  splice_in targetIndex draggedTodo
    (filter (λ t, Todo.id t ≠ Todo.id draggedTodo) currentTodos).

(** The identifiers written for the scope of the target. *)
Definition dropped_order (newTodos : list Todo.t) (folderId : string)
  : list string :=
  Todo.id <$> filter (λ t, folder_scope t = folderId) newTodos.

#[global] Instance todo_eq_dec : EqDecision Todo.t.
Proof. solve_decision. Defined.

(** [handleDrop], returning the order map [setTodoOrder] leaves (the one
    given when it is not called). The assignment to
    [draggedTodo.folder_id] writes to the one object the drag captured,
    whoever holds it. The store holds objects, and whether an entry is
    that object is not told by its value: [held] lists the positions of
    the store whose entry is the captured object (none, once the store has
    put a fresh row in its place). *)
Definition handleDrop (held : list nat) (draggedTodo : option Todo.t)
    (filteredTodos : list Todo.t) (targetTodo : Todo.t)
    (todoOrder : gmap string (list string))
  : Hook (gmap string (list string)) :=
  match draggedTodo with
  | None => mret todoOrder
  | Some dragged =>
      if bool_decide (Todo.id dragged = Todo.id targetTodo) then mret todoOrder
      else
        try_catch
          (let currentTodos := filteredTodos in
           let draggedIndex :=
             findIndex (λ t, bool_decide (Todo.id t = Todo.id dragged))
                       currentTodos in
           let targetIndex :=
             findIndex (λ t, bool_decide (Todo.id t = Todo.id targetTodo))
                       currentTodos in
           if bool_decide (draggedIndex = -1) || bool_decide (targetIndex = -1)
           then mret todoOrder
           else
             moved ←
               (if bool_decide (Todo.folder_id dragged
                                ≠ Todo.folder_id targetTodo)
                then
                  error ← supabase
                    (update_todos
                       (TodoUpdate.mk None None None
                          (Some (Todo.folder_id targetTodo)) None None)
                       (eq_id (Todo.id dragged)));
                  match error with
                  | Some e => throw e
                  | None =>
                      let moved :=
                        Todo.with_folder_id (Todo.folder_id targetTodo)
                                            dragged in
                      setTodos (imap (λ k t,
                        if bool_decide (k ∈ held)
                        then Todo.with_folder_id (Todo.folder_id targetTodo) t
                        else t));;
                      mret moved
                  end
                else mret dragged);
             let newTodos := moved_todos currentTodos moved targetIndex in
             let folderId := folder_scope targetTodo in
             let newOrder := dropped_order newTodos folderId in
             toast_success "Todo moved successfully!";;
             mret (<[folderId := newOrder]> todoOrder))
          (λ _, toast_error "Failed to move todo";; mret todoOrder)
  end.

(** ** useTodoOrder: loading the preferences *)

(** Whether a JSON value is truthy. *)
Definition truthy (j : Json) : bool :=
  match j with
  | JNull => false
  | JBool b => b
  | JNumber n => negb (bool_decide (n = 0))
  | JString s => negb (bool_decide (s = ""))
  | JArray _ | JObject _ => true
  end.

(** [loadPreferences], returning the value handed to [setTodoOrder], if
    any. The row of the user is read with [single]: no row is the error
    PGRST116, which is let through, and leaves the data null. *)
Definition loadPreferences : Hook (option Json) :=
  u ← useAuth_user;
  match u with
  | None => mret None
  | Some uid =>
      read ← supabase_select (λ w, db_preferences w !! uid);
      match read with
      | error_of => mret None
      | data_of None => mret None
      | data_of (Some preferences) =>
          match preferences !! "todoOrder" with
          | Some order => if truthy order then mret (Some order) else mret None
          | None => mret None
          end
      end
  end.


(** The elements whose identifier was not seen before them, in order. *)
Fixpoint keep_first {A} (id : A → string) (seen : list string) (xs : list A)
  : list A :=
  match xs with
  | [] => []
  | x :: xs' =>
      if bool_decide (id x ∈ seen) then keep_first id (id x :: seen) xs'
      else x :: keep_first id (id x :: seen) xs'
  end.


(** The backend accepts the next [n] requests. *)
Definition requests_pass (n : nat) (w : World) : Prop :=
  Forall (λ b, b = false) (take n (faults w)).

(** The store of todos holds what the backend holds. *)
Definition in_sync (w : World) : Prop := todos w = db_todos w.


(** What a form that asks for a title and a folder hands to [addTodo]. *)
Definition todo_form (title : string) (folder_id : option string)
  : TodoData.t :=
  TodoData.mk None None title None None (Some folder_id) None None.

(** Groceries once u2 may edit it, and the session of u1 with it. *)
Definition groceries_u2 : Folder.t :=
  Folder.mk "f1" "2025-02-06" "Groceries" None "u1" (Some ["u2"]) (Some ["u2"]).

Definition shared_session (verdicts : list bool) : World :=
  mkWorld [milk] [groceries_u2] ∅ verdicts [] (Some "u1") [milk]
          [groceries_u2] ∅ [].


(** ** What a step of the pipeline may change *)

(** [t'] is [t] but for its completion flag. *)
Definition same_but_is_complete (t t' : Todo.t) : Prop :=
  Todo.id t' = Todo.id t ∧ Todo.created_at t' = Todo.created_at t
  ∧ Todo.title t' = Todo.title t ∧ Todo.description t' = Todo.description t
  ∧ Todo.user_id t' = Todo.user_id t ∧ Todo.folder_id t' = Todo.folder_id t
  ∧ Todo.shared_with t' = Todo.shared_with t
  ∧ Todo.can_edit t' = Todo.can_edit t.

(** [t'] is [t] but for its folder. *)
Definition same_but_folder_id (t t' : Todo.t) : Prop :=
  Todo.id t' = Todo.id t ∧ Todo.created_at t' = Todo.created_at t
  ∧ Todo.title t' = Todo.title t ∧ Todo.description t' = Todo.description t
  ∧ Todo.is_complete t' = Todo.is_complete t
  ∧ Todo.user_id t' = Todo.user_id t
  ∧ Todo.shared_with t' = Todo.shared_with t
  ∧ Todo.can_edit t' = Todo.can_edit t.

(** [after] is [current] changed at the targeted entries only: it has an
    entry for each entry of [current], at the same position and with the
    same identifier; an entry that is not targeted is the one it was, and
    a targeted one is related to the one it was by [change]. *)
Definition changed_only_at (targeted : Todo.t → Prop)
    (change : Todo.t → Todo.t → Prop) (current after : list Todo.t) : Prop :=
  length after = length current
  ∧ ∀ k t, current !! k = Some t →
      ∃ t', after !! k = Some t' ∧ Todo.id t' = Todo.id t
            ∧ (¬ targeted t → t' = t) ∧ (targeted t → change t t').


(** An open todo filed under a folder, named by its identifier. *)
Definition todo_filed (folder id : string) : Todo.t :=
  Todo.mk id "2025-02-06" id None false "u1" (Some folder) (Some []) (Some []).

(* ================================================================== *)
(** * Properties *)

(** ** Facts on [Array_from_Set] *)

#[local] Arguments Array_from_Set : simpl never.

Lemma set_add_all_elem (xs seen : list string) (x : string) :
  x ∈ set_add_all seen xs ↔ x ∈ seen ∨ x ∈ xs.
Proof.
  revert seen. induction xs as [|y xs IH]; intros seen; simpl.
  - rewrite elem_of_nil. tauto.
  - rewrite IH, elem_of_cons. case_bool_decide as Hy.
    + split; [tauto|]. intros [?|[->|?]]; auto.
    + rewrite elem_of_app, list_elem_of_singleton. tauto.
Qed.

Lemma set_add_all_NoDup (xs seen : list string) :
  NoDup seen → NoDup (set_add_all seen xs).
Proof.
  revert seen. induction xs as [|y xs IH]; intros seen Hs; simpl; [done|].
  apply IH. case_bool_decide as Hy; [done|].
  apply NoDup_app. split_and!; [done| |apply NoDup_singleton].
  intros z Hz Hz'. apply list_elem_of_singleton in Hz'. by subst.
Qed.

Lemma set_add_all_app (xs ys seen : list string) :
  set_add_all seen (xs ++ ys) = set_add_all (set_add_all seen xs) ys.
Proof. revert seen. induction xs as [|x xs IH]; intros seen; simpl; auto. Qed.

Lemma set_add_all_fresh (xs seen : list string) :
  NoDup (seen ++ xs) → set_add_all seen xs = seen ++ xs.
Proof.
  revert seen. induction xs as [|x xs IH]; intros seen Hnd; simpl.
  - by rewrite app_nil_r.
  - assert (x ∉ seen) as Hx.
    { apply NoDup_app in Hnd as (_ & Hd & _). intros Hin.
      apply (Hd x Hin). left. }
    rewrite bool_decide_eq_false_2 by done.
    rewrite IH.
    + by rewrite <- app_assoc.
    + rewrite <- app_assoc. exact Hnd.
Qed.

Lemma Array_from_Set_elem (xs : list string) (x : string) :
  x ∈ Array_from_Set xs ↔ x ∈ xs.
Proof.
  unfold Array_from_Set. rewrite set_add_all_elem, elem_of_nil. tauto.
Qed.

Lemma Array_from_Set_NoDup (xs : list string) : NoDup (Array_from_Set xs).
Proof. apply set_add_all_NoDup, NoDup_nil_2. Qed.

Lemma Array_from_Set_id (xs : list string) :
  NoDup xs → Array_from_Set xs = xs.
Proof. intros H. unfold Array_from_Set. by rewrite set_add_all_fresh. Qed.

(** Adding a member again changes nothing: the array of a set to which one
    of its elements is added is the array of the set. *)
Lemma Array_from_Set_readd (xs : list string) (u : string) :
  NoDup xs → u ∈ xs → Array_from_Set (xs ++ [u]) = xs.
Proof.
  intros Hnd Hu. unfold Array_from_Set.
  rewrite set_add_all_app, (set_add_all_fresh xs []) by exact Hnd. simpl.
  by rewrite bool_decide_eq_true_2.
Qed.

Lemma Array_from_Set_add_elem (xs : list string) (u : string) :
  u ∈ Array_from_Set (xs ++ [u]).
Proof. apply Array_from_Set_elem, elem_of_app. right. left. Qed.

Lemma Array_from_Set_add_twice (xs : list string) (u : string) :
  Array_from_Set (Array_from_Set (xs ++ [u]) ++ [u])
  = Array_from_Set (xs ++ [u]).
Proof.
  apply Array_from_Set_readd.
  - apply Array_from_Set_NoDup.
  - apply Array_from_Set_add_elem.
Qed.

(** ** Running a hook *)

Ltac run_hook :=
  unfold mbind, hook_bind, mret, hook_ret, try_catch, supabase, throw,
    useAuth_user, get_selectedTodos, setTodos, setFolders, setSelectedTodos,
    toast_success, toast_error, toast; simpl.

Lemma app_singleton_neq {A} (l : list A) (x : A) : l ≠ l ++ [x].
Proof.
  intros H. apply (f_equal length) in H. rewrite length_app in H.
  simpl in H. lia.
Qed.

(** ** useFolders.shareFolder *)

(** [permission === 'edit' || permission === 'manage'] *)
Lemma grants_edit_true (permission : Permission) :
  permission = edit ∨ permission = manage → grants_edit permission = true.
Proof. by intros [->| ->]. Qed.

Lemma grants_edit_view (permission : Permission) :
  permission = view → grants_edit permission = false.
Proof. by intros ->. Qed.

Lemma shareFolder_succeeds_inv folder userId permission w w' :
  succeeds (shareFolder folder userId permission)
           "Folder shared successfully!" w w' →
  db_folders w' = map (share_folder_row folder userId permission) (db_folders w)
  ∧ db_todos w' = map (share_todo_row folder userId permission) (db_todos w)
  ∧ folders w' = map (share_local folder userId permission) (folders w)
  ∧ todos w' = todos w
  ∧ faults w' = drop 2 (faults w)
  ∧ user w' = user w.
Proof.
  intros [Hrun Htoast]. revert Hrun Htoast. unfold shareFolder. run_hook.
  destruct (user w) as [u|] eqn:Hu.
  - destruct (faults w) as [|[] [|[] fs]] eqn:Hf; simpl;
      intros Hrun Htoast; inversion Hrun; subst w'; clear Hrun;
      simpl in *; rewrite ?Hf; simpl; try done.
  - intros Hrun Htoast. inversion Hrun; subst w'.
    by apply app_singleton_neq in Htoast.
Qed.

Lemma share_todo_row_folder_id folder userId permission row :
  Todo.folder_id (share_todo_row folder userId permission row)
  = Todo.folder_id row.
Proof. unfold share_todo_row. by destruct (todo_matches _ row). Qed.

Lemma share_todo_row_member folder userId permission row :
  Todo.folder_id row = Some (Folder.id folder) →
  Todo.shared_with (share_todo_row folder userId permission row)
  = Some (Array_from_Set (or_empty (Folder.shared_with folder) ++ [userId]))
  ∧ Todo.can_edit (share_todo_row folder userId permission row)
    = if grants_edit permission
      then Some (Array_from_Set (or_empty (Folder.can_edit folder) ++ [userId]))
      else Todo.can_edit row.
Proof.
  intros Hf. unfold share_todo_row. simpl.
  rewrite bool_decide_eq_true_2 by done. simpl.
  by destruct (grants_edit permission).
Qed.

Lemma share_folder_row_member folder userId permission row :
  Folder.id row = Folder.id folder →
  Folder.shared_with (share_folder_row folder userId permission row)
  = Some (Array_from_Set (or_empty (Folder.shared_with folder) ++ [userId]))
  ∧ Folder.can_edit (share_folder_row folder userId permission row)
    = if grants_edit permission
      then Some (Array_from_Set (or_empty (Folder.can_edit folder) ++ [userId]))
      else Folder.can_edit row.
Proof.
  intros Hf. unfold share_folder_row.
  rewrite bool_decide_eq_true_2 by done. simpl.
  by destruct (grants_edit permission).
Qed.

Lemma share_folder_row_id folder userId permission row :
  Folder.id (share_folder_row folder userId permission row) = Folder.id row.
Proof. unfold share_folder_row. by case_bool_decide. Qed.

Lemma share_local_id folder userId permission f :
  Folder.id (share_local folder userId permission f) = Folder.id f.
Proof. unfold share_local. by case_bool_decide. Qed.

Lemma share_local_member folder userId permission f :
  Folder.id f = Folder.id folder →
  Folder.shared_with (share_local folder userId permission f)
  = Some (Array_from_Set (or_empty (Folder.shared_with f) ++ [userId]))
  ∧ Folder.can_edit (share_local folder userId permission f)
    = if grants_edit permission
      then Some (Array_from_Set (or_empty (Folder.can_edit f) ++ [userId]))
      else Folder.can_edit f.
Proof.
  intros Hf. unfold share_local. by rewrite bool_decide_eq_true_2.
Qed.

(** Each of the three row updates of a share is idempotent. *)
Lemma share_todo_row_twice folder userId permission row :
  share_todo_row folder userId permission
    (share_todo_row folder userId permission row)
  = share_todo_row folder userId permission row.
Proof.
  unfold share_todo_row at 1.
  destruct (todo_matches _ (share_todo_row _ _ _ row)) eqn:Hm; [|done].
  simpl in Hm. apply bool_decide_eq_true_1 in Hm.
  rewrite share_todo_row_folder_id in Hm.
  unfold share_todo_row. simpl. rewrite bool_decide_eq_true_2 by done.
  unfold TodoUpdate.apply. simpl. by destruct (grants_edit permission).
Qed.

Lemma share_folder_row_twice folder userId permission row :
  share_folder_row folder userId permission
    (share_folder_row folder userId permission row)
  = share_folder_row folder userId permission row.
Proof.
  unfold share_folder_row.
  destruct (decide (Folder.id row = Folder.id folder)) as [Hid|Hid].
  - rewrite (bool_decide_eq_true_2 _ Hid). simpl.
    rewrite (bool_decide_eq_true_2 _ Hid).
    unfold FolderUpdate.apply. simpl. by destruct (grants_edit permission).
  - by rewrite !(bool_decide_eq_false_2 _ Hid).
Qed.

Lemma share_local_twice folder userId permission f :
  share_local folder userId permission (share_local folder userId permission f)
  = share_local folder userId permission f.
Proof.
  unfold share_local.
  destruct (decide (Folder.id f = Folder.id folder)) as [Hid|Hid].
  - rewrite (bool_decide_eq_true_2 _ Hid). simpl.
    rewrite (bool_decide_eq_true_2 _ Hid).
    unfold Folder.with_sharing. simpl.
    rewrite Array_from_Set_add_twice.
    destruct (grants_edit permission); simpl; [|done].
    by rewrite Array_from_Set_add_twice.
  - by rewrite !(bool_decide_eq_false_2 _ Hid).
Qed.

Lemma map_idempotent {A} (f : A → A) (l : list A) :
  (∀ x, f (f x) = f x) → map f (map f l) = map f l.
Proof. intros Hf. rewrite map_map. apply map_ext. auto. Qed.

(** A call with the folder as the first call left it (the entry of the
    state, or the row of the backend) is the call with the folder as it
    was: the updates are the same. *)
Lemma shareFolder_refreshed folder userId permission :
  let refreshed :=
    FolderUpdate.apply (share_updates folder userId permission) folder in
  shareFolder refreshed userId permission
  = shareFolder folder userId permission.
Proof.
  intros refreshed.
  assert (share_updates refreshed userId permission
          = share_updates folder userId permission) as Hupd.
  { unfold refreshed, share_updates. simpl.
    rewrite Array_from_Set_add_twice.
    destruct (grants_edit permission); simpl; [|done].
    by rewrite Array_from_Set_add_twice. }
  unfold shareFolder. rewrite Hupd.
  change (Folder.id refreshed) with (Folder.id folder).
  replace (share_local refreshed userId permission)
    with (share_local folder userId permission); [done|].
  unfold share_local.
  by change (Folder.id refreshed) with (Folder.id folder).
Qed.

(** C1. After a successful [shareFolder(F, U, perm)]: every todo of the
    backend filed under F has U in [shared_with], and in [can_edit] when
    perm is 'edit' or 'manage'; so has the folder, both its row in the
    backend and its entry in the state of the hook. The arrays written are
    sets: they hold no duplicate, their members are those F listed and U,
    and when F already lists U (without duplicates) the array written is
    the one F had. A second successful call, with F as it was or as the
    first call left it, changes neither the todos nor the folders, in the
    backend or in the state. *)
Theorem shareFolder_cascade (folder : Folder.t) (userId : string)
    (permission : Permission) (w w' : World) :
  succeeds (shareFolder folder userId permission)
           "Folder shared successfully!" w w' →
  (∀ T, T ∈ db_todos w' → Todo.folder_id T = Some (Folder.id folder) →
     userId ∈ or_empty (Todo.shared_with T)
     ∧ (permission = edit ∨ permission = manage →
        userId ∈ or_empty (Todo.can_edit T)))
  ∧ (∀ F, F ∈ db_folders w' ∨ F ∈ folders w' →
     Folder.id F = Folder.id folder →
     userId ∈ or_empty (Folder.shared_with F)
     ∧ NoDup (or_empty (Folder.shared_with F))
     ∧ (permission = edit ∨ permission = manage →
        userId ∈ or_empty (Folder.can_edit F)
        ∧ NoDup (or_empty (Folder.can_edit F))))
  ∧ (∀ F, F ∈ db_folders w' → Folder.id F = Folder.id folder →
     (∀ x, x ∈ or_empty (Folder.shared_with F)
           ↔ x ∈ or_empty (Folder.shared_with folder) ∨ x = userId)
     ∧ (userId ∈ or_empty (Folder.shared_with folder) →
        NoDup (or_empty (Folder.shared_with folder)) →
        or_empty (Folder.shared_with F) = or_empty (Folder.shared_with folder))
     ∧ (permission = edit ∨ permission = manage →
        (∀ x, x ∈ or_empty (Folder.can_edit F)
              ↔ x ∈ or_empty (Folder.can_edit folder) ∨ x = userId)
        ∧ (userId ∈ or_empty (Folder.can_edit folder) →
           NoDup (or_empty (Folder.can_edit folder)) →
           or_empty (Folder.can_edit F) = or_empty (Folder.can_edit folder))))
  ∧ (∀ again w'',
       again = folder
       ∨ again = FolderUpdate.apply (share_updates folder userId permission)
                                    folder →
       succeeds (shareFolder again userId permission)
                "Folder shared successfully!" w' w'' →
       db_todos w'' = db_todos w'
       ∧ db_folders w'' = db_folders w'
       ∧ folders w'' = folders w').
Proof.
  intros Hs.
  destruct (shareFolder_succeeds_inv _ _ _ _ _ Hs)
    as (Hdbf & Hdbt & Hloc & _).
  assert (∀ xs x, x ∈ Array_from_Set (xs ++ [userId])
                  ↔ x ∈ xs ∨ x = userId) as Hmem.
  { intros xs x.
    by rewrite Array_from_Set_elem, elem_of_app, list_elem_of_singleton. }
  split_and!.
  - intros T HT Hfid. rewrite Hdbt in HT.
    apply list_elem_of_fmap in HT as (row & -> & _).
    rewrite share_todo_row_folder_id in Hfid.
    destruct (share_todo_row_member folder userId permission row Hfid)
      as [Hsw Hce].
    rewrite Hsw. split; [apply Array_from_Set_add_elem|].
    intros Hg. rewrite Hce, (grants_edit_true _ Hg).
    apply Array_from_Set_add_elem.
  - intros F [HF|HF] Hid.
    + rewrite Hdbf in HF. apply list_elem_of_fmap in HF as (row & -> & _).
      rewrite share_folder_row_id in Hid.
      destruct (share_folder_row_member folder userId permission row Hid)
        as [Hsw Hce].
      rewrite Hsw. simpl.
      split_and!; [apply Array_from_Set_add_elem|apply Array_from_Set_NoDup|].
      intros Hg. rewrite Hce, (grants_edit_true _ Hg). simpl.
      split; [apply Array_from_Set_add_elem|apply Array_from_Set_NoDup].
    + rewrite Hloc in HF. apply list_elem_of_fmap in HF as (row & -> & _).
      rewrite share_local_id in Hid.
      destruct (share_local_member folder userId permission row Hid)
        as [Hsw Hce].
      rewrite Hsw. simpl.
      split_and!; [apply Array_from_Set_add_elem|apply Array_from_Set_NoDup|].
      intros Hg. rewrite Hce, (grants_edit_true _ Hg). simpl.
      split; [apply Array_from_Set_add_elem|apply Array_from_Set_NoDup].
  - intros F HF Hid. rewrite Hdbf in HF.
    apply list_elem_of_fmap in HF as (row & -> & _).
    rewrite share_folder_row_id in Hid.
    destruct (share_folder_row_member folder userId permission row Hid)
      as [Hsw Hce].
    split_and!.
    + intros x. rewrite Hsw. simpl. apply Hmem.
    + intros Hin Hnd. rewrite Hsw. simpl. by apply Array_from_Set_readd.
    + intros Hg. rewrite Hce, (grants_edit_true _ Hg). simpl.
      split; [intros x; apply Hmem|].
      intros Hin Hnd. by apply Array_from_Set_readd.
  - intros again w'' Hagain Hs2.
    assert (succeeds (shareFolder folder userId permission)
                     "Folder shared successfully!" w' w'') as Hs2'.
    { destruct Hagain as [->| ->]; [done|].
      by rewrite shareFolder_refreshed in Hs2. }
    destruct (shareFolder_succeeds_inv _ _ _ _ _ Hs2')
      as (Hdbf2 & Hdbt2 & Hloc2 & _).
    rewrite Hdbf2, Hdbt2, Hloc2, Hdbf, Hdbt, Hloc.
    split_and!; apply map_idempotent; intros x.
    + apply share_todo_row_twice.
    + apply share_folder_row_twice.
    + apply share_local_twice.
Qed.

Lemma shareFolder_cascade_witness :
  let w := session [milk; taxes] [] ∅ in
  let w' := (shareFolder groceries "u2" edit w).2 in
  let wm := (shareFolder groceries "u3" manage w).2 in
  (succeeds (shareFolder groceries "u2" edit)
            "Folder shared successfully!" w w'
   ∧ succeeds (shareFolder groceries "u3" manage)
              "Folder shared successfully!" w wm)
  ∧ Todo.shared_with <$> db_todos w' = [Some ["u2"]; Some []]
  ∧ Todo.can_edit <$> db_todos w' = [Some ["u2"]; Some []]
  ∧ Folder.can_edit <$> db_folders w' = [Some ["u2"]]
  ∧ Todo.can_edit <$> db_todos wm = [Some ["u3"]; Some []]
  ∧ (∀ T, T ∈ db_todos w' → Todo.folder_id T = Some "f1" →
       "u2" ∈ or_empty (Todo.shared_with T)
       ∧ "u2" ∈ or_empty (Todo.can_edit T))
  ∧ (∀ T, T ∈ db_todos wm → Todo.folder_id T = Some "f1" →
       "u3" ∈ or_empty (Todo.shared_with T)
       ∧ "u3" ∈ or_empty (Todo.can_edit T)).
Proof.
  intros w w' wm.
  assert (succeeds (shareFolder groceries "u2" edit)
                   "Folder shared successfully!" w w') as Hs
    by (split; vm_compute; reflexivity).
  assert (succeeds (shareFolder groceries "u3" manage)
                   "Folder shared successfully!" w wm) as Hm
    by (split; vm_compute; reflexivity).
  pose proof (proj1 (shareFolder_cascade groceries "u2" edit w w' Hs)) as He.
  pose proof (proj1 (shareFolder_cascade groceries "u3" manage w wm Hm)) as Hg.
  split_and!; [exact Hs|exact Hm|vm_compute; reflexivity..| |].
  - intros T HT Hf. destruct (He T HT Hf) as [Hsw Hce].
    split; [exact Hsw|]. apply Hce. by left.
  - intros T HT Hf. destruct (Hg T HT Hf) as [Hsw Hce].
    split; [exact Hsw|]. apply Hce. by right.
Defined.

(** ** What the cascade overwrites *)

(** C2, at an input: Milk, filed under Groceries, lets u9 edit it; after
    Groceries is shared with u2 to view, Milk is shared with u2 only but
    still has u9 as editor, while the folder has no editor. *)
Lemma shareFolder_view_keeps_can_edit_counterexample :
  let w := session [milk_u9] [] ∅ in
  let w' := (shareFolder groceries "u2" view w).2 in
  succeeds (shareFolder groceries "u2" view) "Folder shared successfully!" w w'
  ∧ db_todos w' = [Todo.mk "t1" "2025-02-06" "Milk" None false "u1"
                     (Some "f1") (Some ["u2"]) (Some ["u9"])]
  ∧ Folder.can_edit <$> db_folders w' = [Some []]
  ∧ ¬ todos_mirror_folder (Folder.id groceries) w'.
Proof.
  intros w w'. split_and!.
  - split; vm_compute; reflexivity.
  - vm_compute; reflexivity.
  - vm_compute; reflexivity.
  - intros Hm.
    destruct (Hm (Todo.mk "t1" "2025-02-06" "Milk" None false "u1"
                    (Some "f1") (Some ["u2"]) (Some ["u9"]))
                 (Folder.mk "f1" "2025-02-06" "Groceries" None "u1"
                    (Some ["u2"]) (Some [])))
      as [_ Hce]; try (vm_compute; reflexivity).
    + vm_compute. left.
    + vm_compute. left.
    + discriminate Hce.
Qed.

(** C2, amended. After a successful [shareFolder(F, U, perm)] every todo
    of the backend filed under F holds in [shared_with] the array written
    to the folder, whatever it held before, and so does every row of F;
    when perm is 'edit' or 'manage' the same goes for [can_edit]; when
    perm is 'view', [can_edit] is not written: every todo and every folder
    row keeps the [can_edit] it had. *)
Theorem shareFolder_overwrites (folder : Folder.t) (userId : string)
    (permission : Permission) (w w' : World) :
  succeeds (shareFolder folder userId permission)
           "Folder shared successfully!" w w' →
  let shared :=
    Some (Array_from_Set (or_empty (Folder.shared_with folder) ++ [userId])) in
  let editors :=
    Some (Array_from_Set (or_empty (Folder.can_edit folder) ++ [userId])) in
  (∀ T, T ∈ db_todos w' → Todo.folder_id T = Some (Folder.id folder) →
     Todo.shared_with T = shared
     ∧ (permission = edit ∨ permission = manage → Todo.can_edit T = editors))
  ∧ (∀ F, F ∈ db_folders w' → Folder.id F = Folder.id folder →
     Folder.shared_with F = shared
     ∧ (permission = edit ∨ permission = manage → Folder.can_edit F = editors))
  ∧ (permission = view →
     Todo.can_edit <$> db_todos w' = Todo.can_edit <$> db_todos w
     ∧ Folder.can_edit <$> db_folders w' = Folder.can_edit <$> db_folders w).
Proof.
  intros Hs shared editors.
  destruct (shareFolder_succeeds_inv _ _ _ _ _ Hs) as (Hdbf & Hdbt & _).
  split_and!.
  - intros T HT Hfid. rewrite Hdbt in HT.
    apply list_elem_of_fmap in HT as (row & -> & _).
    rewrite share_todo_row_folder_id in Hfid.
    destruct (share_todo_row_member folder userId permission row Hfid)
      as [Hsw Hce].
    split; [done|]. intros Hg. by rewrite Hce, (grants_edit_true _ Hg).
  - intros F HF Hid. rewrite Hdbf in HF.
    apply list_elem_of_fmap in HF as (row & -> & _).
    rewrite share_folder_row_id in Hid.
    destruct (share_folder_row_member folder userId permission row Hid)
      as [Hsw Hce].
    split; [done|]. intros Hg. by rewrite Hce, (grants_edit_true _ Hg).
  - intros Hg%grants_edit_view.
    rewrite Hdbf, Hdbt, <- !list_fmap_compose. split.
    + apply list_fmap_ext. intros _ row _. simpl.
      unfold share_todo_row, share_updates. rewrite Hg.
      by destruct (todo_matches _ row).
    + apply list_fmap_ext. intros _ row _. simpl.
      unfold share_folder_row, share_updates. rewrite Hg.
      by case_bool_decide.
Qed.

Lemma shareFolder_overwrites_witness :
  let w := session [milk_u9] [] ∅ in
  let w' := (shareFolder groceries "u2" view w).2 in
  let we := (shareFolder groceries "u2" edit w).2 in
  (succeeds (shareFolder groceries "u2" view)
            "Folder shared successfully!" w w'
   ∧ succeeds (shareFolder groceries "u2" edit)
              "Folder shared successfully!" w we)
  ∧ (∀ T, T ∈ db_todos w' → Todo.folder_id T = Some "f1" →
       Todo.shared_with T = Some ["u2"])
  ∧ Todo.can_edit <$> db_todos w' = [Some ["u9"]]
  ∧ (∀ T, T ∈ db_todos we → Todo.folder_id T = Some "f1" →
       Todo.shared_with T = Some ["u2"] ∧ Todo.can_edit T = Some ["u2"])
  ∧ (∀ F, F ∈ db_folders we → Folder.id F = "f1" →
       Folder.shared_with F = Some ["u2"] ∧ Folder.can_edit F = Some ["u2"])
  ∧ Todo.can_edit <$> db_todos we = [Some ["u2"]].
Proof.
  intros w w' we.
  assert (succeeds (shareFolder groceries "u2" view)
                   "Folder shared successfully!" w w') as Hs
    by (split; vm_compute; reflexivity).
  assert (succeeds (shareFolder groceries "u2" edit)
                   "Folder shared successfully!" w we) as He
    by (split; vm_compute; reflexivity).
  destruct (shareFolder_overwrites groceries "u2" view w w' Hs)
    as (Ht & _ & Hview).
  destruct (shareFolder_overwrites groceries "u2" edit w we He)
    as (Hte & Hfe & _).
  split_and!; [exact Hs|exact He| | | | |vm_compute; reflexivity].
  - intros T HT Hf. exact (proj1 (Ht T HT Hf)).
  - exact (proj1 (Hview eq_refl)).
  - intros T HT Hf. destruct (Hte T HT Hf) as [Hsw Hce].
    split; [exact Hsw|]. apply Hce. by left.
  - intros F HF Hf. destruct (Hfe F HF Hf) as [Hsw Hce].
    split; [exact Hsw|]. apply Hce. by left.
Defined.

(** ** The optimistic pipeline: useTodos and useBulkActions *)

Lemma with_is_complete_same (t : Todo.t) :
  Todo.with_is_complete (Todo.is_complete t) t = t.
Proof. by destruct t. Qed.

Lemma with_folder_id_same (t : Todo.t) :
  Todo.with_folder_id (Todo.folder_id t) t = t.
Proof. by destruct t. Qed.

(** The rollbacks of [updateTodo] and of [handleBulkMove] write to each
    entry the [folder_id] it already has: they change nothing. *)
Lemma update_rollback_noop (todo : Todo.t) (current : list Todo.t) :
  update_rollback todo current = current.
Proof.
  unfold update_rollback. rewrite <- (map_id current) at 2.
  apply map_ext. intros t. rewrite with_folder_id_same. by case_bool_decide.
Qed.

Lemma bulk_move_rollback_noop (selected : gset string)
    (current : list Todo.t) :
  bulk_move_rollback selected current = current.
Proof.
  unfold bulk_move_rollback. rewrite <- (map_id current) at 2.
  apply map_ext. intros t. rewrite with_folder_id_same. by case_bool_decide.
Qed.

(** What each hook leaves in the store when the backend rejects its write. *)
Lemma toggleTodo_failure todo w :
  next_request_fails w →
  todos (toggleTodo todo w).2
  = toggle_rollback todo (toggle_optimistic todo (todos w))
  ∧ toasts (toggleTodo todo w).2
    = toasts w ++ [toast_error_msg "Failed to update todo"].
Proof.
  intros [fs Hf]. unfold toggleTodo. run_hook. by rewrite Hf.
Qed.

Lemma updateTodo_failure todo w :
  next_request_fails w →
  todos (updateTodo todo w).2 = update_optimistic todo (todos w)
  ∧ toasts (updateTodo todo w).2
    = toasts w ++ [toast_error_msg "Failed to update todo"].
Proof.
  intros [fs Hf]. unfold updateTodo. run_hook. rewrite Hf. simpl.
  by rewrite update_rollback_noop.
Qed.

Lemma handleBulkMove_failure folderId w :
  next_request_fails w →
  todos (handleBulkMove folderId w).2
  = bulk_move_optimistic (selectedTodos w) folderId (todos w)
  ∧ toasts (handleBulkMove folderId w).2
    = toasts w ++ [toast_error_msg "Failed to move todos"].
Proof.
  intros [fs Hf]. unfold handleBulkMove. run_hook. rewrite Hf. simpl.
  by rewrite bulk_move_rollback_noop.
Qed.

Lemma handleBulkToggleComplete_failure complete w :
  next_request_fails w →
  todos (handleBulkToggleComplete complete w).2
  = bulk_complete_rollback (selectedTodos w) complete
      (bulk_complete_optimistic (selectedTodos w) complete (todos w))
  ∧ toasts (handleBulkToggleComplete complete w).2
    = toasts w ++ [toast_error_msg "Failed to update todos"].
Proof.
  intros [fs Hf]. unfold handleBulkToggleComplete. run_hook. by rewrite Hf.
Qed.

(** [toggleTodo] does restore the store, provided the todo it was called
    with carries the completion flag the store holds for that id. *)
Lemma toggleTodo_rollback_restores todo w :
  next_request_fails w →
  (∀ t, t ∈ todos w → Todo.id t = Todo.id todo →
        Todo.is_complete t = Todo.is_complete todo) →
  todos (toggleTodo todo w).2 = todos w.
Proof.
  intros Hf Hsame. rewrite (proj1 (toggleTodo_failure todo w Hf)).
  unfold toggle_rollback, toggle_optimistic. rewrite map_map.
  rewrite <- (map_id (todos w)) at 2.
  apply map_ext_in. intros t Ht. apply list_elem_of_In in Ht.
  destruct (decide (Todo.id t = Todo.id todo)) as [Hid|Hid].
  - rewrite (bool_decide_eq_true_2 _ Hid). simpl.
    rewrite (bool_decide_eq_true_2 _ Hid).
    rewrite <- (Hsame t Ht Hid). by destruct t.
  - by rewrite !(bool_decide_eq_false_2 _ Hid).
Qed.

(** C3. The rollback does not restore the captured values. With the
    backend rejecting the write: [updateTodo] leaves the edited title and
    folder in the store; [handleBulkMove] leaves the todos in the target
    folder; [handleBulkToggleComplete] on todos that differed sets all of
    them to the negation of the target, so the one that already had the
    target value ends up changed. Each emits its failure notification. *)
Theorem optimistic_rollback_diverges :
  (let w := session [milk; taxes] [true] ∅ in
   let edited := Todo.mk "t1" "2025-02-06" "Oat milk" None false "u1" None
                         (Some []) (Some []) in
   let w' := (updateTodo edited w).2 in
   todos w = [milk; taxes] ∧ db_todos w' = [milk; taxes]
   ∧ todos w' = [edited; taxes]
   ∧ toasts w' = [toast_error_msg "Failed to update todo"])
  ∧ (let w := session [milk; taxes] [true] {["t1"]} in
     let w' := (handleBulkMove None w).2 in
     Todo.folder_id <$> todos w = [Some "f1"; None]
     ∧ Todo.folder_id <$> db_todos w' = [Some "f1"; None]
     ∧ Todo.folder_id <$> todos w' = [None; None]
     ∧ toasts w' = [toast_error_msg "Failed to move todos"])
  ∧ (let w := session [milk; taxes] [true] {["t1"; "t2"]} in
     let w' := (handleBulkToggleComplete true w).2 in
     Todo.is_complete <$> todos w = [false; true]
     ∧ Todo.is_complete <$> db_todos w' = [false; true]
     ∧ Todo.is_complete <$> todos w' = [false; false]
     ∧ toasts w' = [toast_error_msg "Failed to update todos"]).
Proof. cbv zeta. split_and!; vm_compute; reflexivity. Qed.

Lemma map_keeps_ids (f : Todo.t → Todo.t) (l : list Todo.t) :
  (∀ t, Todo.id (f t) = Todo.id t) → Todo.id <$> map f l = Todo.id <$> l.
Proof.
  intros Hf. rewrite <- list_fmap_compose.
  apply list_fmap_ext. intros _ t _. apply Hf.
Qed.

Lemma toggle_optimistic_ids todo l :
  Todo.id <$> toggle_optimistic todo l = Todo.id <$> l.
Proof. apply map_keeps_ids. intros t. by case_bool_decide. Qed.

Lemma toggle_rollback_ids todo l :
  Todo.id <$> toggle_rollback todo l = Todo.id <$> l.
Proof. apply map_keeps_ids. intros t. by case_bool_decide. Qed.

Lemma update_optimistic_ids todo l :
  Todo.id <$> update_optimistic todo l = Todo.id <$> l.
Proof. apply map_keeps_ids. intros t. by case_bool_decide. Qed.

Lemma update_rollback_ids todo l :
  Todo.id <$> update_rollback todo l = Todo.id <$> l.
Proof. apply map_keeps_ids. intros t. by case_bool_decide. Qed.

Lemma bulk_move_optimistic_ids selected folderId l :
  Todo.id <$> bulk_move_optimistic selected folderId l = Todo.id <$> l.
Proof. apply map_keeps_ids. intros t. by case_bool_decide. Qed.

Lemma bulk_move_rollback_ids selected l :
  Todo.id <$> bulk_move_rollback selected l = Todo.id <$> l.
Proof. apply map_keeps_ids. intros t. by case_bool_decide. Qed.

Lemma bulk_complete_optimistic_ids selected complete l :
  Todo.id <$> bulk_complete_optimistic selected complete l = Todo.id <$> l.
Proof. apply map_keeps_ids. intros t. by case_bool_decide. Qed.

Lemma bulk_complete_rollback_ids selected complete l :
  Todo.id <$> bulk_complete_rollback selected complete l = Todo.id <$> l.
Proof. apply map_keeps_ids. intros t. by case_bool_decide. Qed.

Lemma map_changed_only_at (targeted : Todo.t → Prop)
    (change : Todo.t → Todo.t → Prop) (f : Todo.t → Todo.t)
    (current : list Todo.t) :
  (∀ t, Todo.id (f t) = Todo.id t) →
  (∀ t, ¬ targeted t → f t = t) →
  (∀ t, targeted t → change t (f t)) →
  changed_only_at targeted change current (map f current).
Proof.
  intros Hid Hout Hin. split; [apply length_map|].
  intros k t Hk. exists (f t).
  change (map f current) with (f <$> current).
  rewrite list_lookup_fmap, Hk. split_and!; [done|apply Hid|..]; auto.
Qed.

Lemma map_keeps_others (targeted : Todo.t → Prop) (f : Todo.t → Todo.t)
    (current : list Todo.t) (k : nat) (t : Todo.t) :
  (∀ t, ¬ targeted t → f t = t) →
  current !! k = Some t → ¬ targeted t → map f current !! k = Some t.
Proof.
  intros Hout Hk Ht. change (map f current) with (f <$> current).
  rewrite list_lookup_fmap, Hk. simpl. by rewrite (Hout t Ht).
Qed.

(** C10. Every state updater of the optimistic pipeline, the optimistic
    one and the rollback of each of the four hooks, keeps the sequence of
    identifiers of the store: nothing is inserted, removed, duplicated or
    moved. It changes the targeted entries only, those with the identifier
    of the todo passed or with a selected identifier: every other entry is
    what it was, at the position it had, and a targeted entry changes in
    the one field of the step, the completion flag or the folder (the
    optimistic update of [updateTodo] puts the todo passed in its place,
    the rollbacks of [updateTodo] and [handleBulkMove] change nothing).
    Hence each hook as a whole, whatever the backend answers, keeps the
    identifiers of the store and every entry that is not targeted. *)
Theorem optimistic_steps_keep_ids (todo : Todo.t) (selected : gset string)
    (folderId : option string) (complete : bool) (current : list Todo.t) :
  let is_todo := λ t, Todo.id t = Todo.id todo in
  let is_selected := λ t, Todo.id t ∈ selected in
  (Todo.id <$> toggle_optimistic todo current = Todo.id <$> current
   ∧ Todo.id <$> toggle_rollback todo current = Todo.id <$> current
   ∧ Todo.id <$> update_optimistic todo current = Todo.id <$> current
   ∧ Todo.id <$> update_rollback todo current = Todo.id <$> current
   ∧ Todo.id <$> bulk_move_optimistic selected folderId current
     = Todo.id <$> current
   ∧ Todo.id <$> bulk_move_rollback selected current = Todo.id <$> current
   ∧ Todo.id <$> bulk_complete_optimistic selected complete current
     = Todo.id <$> current
   ∧ Todo.id <$> bulk_complete_rollback selected complete current
     = Todo.id <$> current)
  ∧ (changed_only_at is_todo
       (λ t t', same_but_is_complete t t'
                ∧ Todo.is_complete t' = negb (Todo.is_complete t))
       current (toggle_optimistic todo current)
     ∧ changed_only_at is_todo
         (λ t t', same_but_is_complete t t'
                  ∧ Todo.is_complete t' = Todo.is_complete todo)
         current (toggle_rollback todo current)
     ∧ changed_only_at is_todo (λ t t', t' = todo)
         current (update_optimistic todo current)
     ∧ changed_only_at is_todo (λ t t', t' = t)
         current (update_rollback todo current)
     ∧ changed_only_at is_selected
         (λ t t', same_but_folder_id t t' ∧ Todo.folder_id t' = folderId)
         current (bulk_move_optimistic selected folderId current)
     ∧ changed_only_at is_selected (λ t t', t' = t)
         current (bulk_move_rollback selected current)
     ∧ changed_only_at is_selected
         (λ t t', same_but_is_complete t t' ∧ Todo.is_complete t' = complete)
         current (bulk_complete_optimistic selected complete current)
     ∧ changed_only_at is_selected
         (λ t t', same_but_is_complete t t'
                  ∧ Todo.is_complete t' = negb complete)
         current (bulk_complete_rollback selected complete current))
  ∧ (∀ w, Todo.id <$> todos (toggleTodo todo w).2 = Todo.id <$> todos w
          ∧ Todo.id <$> todos (updateTodo todo w).2 = Todo.id <$> todos w
          ∧ Todo.id <$> todos (handleBulkMove folderId w).2
            = Todo.id <$> todos w
          ∧ Todo.id <$> todos (handleBulkToggleComplete complete w).2
            = Todo.id <$> todos w)
  ∧ (∀ w k t, todos w !! k = Some t →
       (Todo.id t ≠ Todo.id todo →
          todos (toggleTodo todo w).2 !! k = Some t
          ∧ todos (updateTodo todo w).2 !! k = Some t)
       ∧ (Todo.id t ∉ selectedTodos w →
            todos (handleBulkMove folderId w).2 !! k = Some t
            ∧ todos (handleBulkToggleComplete complete w).2 !! k = Some t)).
Proof.
  intros is_todo is_selected. subst is_todo is_selected.
  split; [|split; [|split]].
  - split_and!.
    + apply toggle_optimistic_ids.
    + apply toggle_rollback_ids.
    + apply update_optimistic_ids.
    + apply update_rollback_ids.
    + apply bulk_move_optimistic_ids.
    + apply bulk_move_rollback_ids.
    + apply bulk_complete_optimistic_ids.
    + apply bulk_complete_rollback_ids.
  - split_and!; apply map_changed_only_at; intros t; simpl.
    all: try (by case_bool_decide).
    all: try (intros Ht; by rewrite (bool_decide_eq_false_2 _ Ht)).
    all: intros Ht; rewrite (bool_decide_eq_true_2 _ Ht); try done.
    all: by destruct t.
  - intros w. split_and!.
    + unfold toggleTodo. run_hook.
      destruct (faults w) as [|[] fs]; simpl;
        by rewrite ?toggle_rollback_ids, toggle_optimistic_ids.
    + unfold updateTodo. run_hook.
      destruct (faults w) as [|[] fs]; simpl;
        by rewrite ?update_rollback_ids, update_optimistic_ids.
    + unfold handleBulkMove. run_hook.
      destruct (faults w) as [|[] fs]; simpl;
        by rewrite ?bulk_move_rollback_ids, bulk_move_optimistic_ids.
    + unfold handleBulkToggleComplete. run_hook.
      destruct (faults w) as [|[] fs]; simpl;
        by rewrite ?bulk_complete_rollback_ids, bulk_complete_optimistic_ids.
  - intros w k t Hk.
    assert (∀ f, (∀ x, Todo.id x ≠ Todo.id todo → f x = x) →
              Todo.id t ≠ Todo.id todo →
              ∀ l, l !! k = Some t → map f l !! k = Some t) as Hone.
    { intros f Hf Ht l Hl.
      by apply (map_keeps_others (λ x, Todo.id x = Todo.id todo)). }
    assert (∀ f, (∀ x, Todo.id x ∉ selectedTodos w → f x = x) →
              Todo.id t ∉ selectedTodos w →
              ∀ l, l !! k = Some t → map f l !! k = Some t) as Hsel.
    { intros f Hf Ht l Hl.
      by apply (map_keeps_others (λ x, Todo.id x ∈ selectedTodos w)). }
    split; intros Ht; split.
    + unfold toggleTodo. run_hook.
      destruct (faults w) as [|[] fs]; simpl;
        repeat (apply Hone; [intros x Hx;
                               by rewrite (bool_decide_eq_false_2 _ Hx)
                            |done|]); done.
    + unfold updateTodo. run_hook.
      destruct (faults w) as [|[] fs]; simpl;
        repeat (apply Hone; [intros x Hx;
                               by rewrite (bool_decide_eq_false_2 _ Hx)
                            |done|]); done.
    + unfold handleBulkMove. run_hook.
      destruct (faults w) as [|[] fs]; simpl;
        repeat (apply Hsel; [intros x Hx;
                               by rewrite (bool_decide_eq_false_2 _ Hx)
                            |done|]); done.
    + unfold handleBulkToggleComplete. run_hook.
      destruct (faults w) as [|[] fs]; simpl;
        repeat (apply Hsel; [intros x Hx;
                               by rewrite (bool_decide_eq_false_2 _ Hx)
                            |done|]); done.
Qed.

Lemma optimistic_steps_keep_ids_witness :
  let current := [milk; taxes] in
  let selected : gset string := {[ "t1" ]} in
  let w := session current [true] selected in
  (current !! 1%nat = Some taxes ∧ Todo.id taxes ∉ selected)
  ∧ bulk_complete_rollback selected true current
    = [Todo.with_is_complete false milk; taxes]
  ∧ todos (handleBulkToggleComplete true w).2
    = [Todo.with_is_complete false milk; taxes]
  ∧ (∃ t', bulk_complete_rollback selected true current !! 1%nat = Some t'
           ∧ t' = taxes)
  ∧ todos (handleBulkToggleComplete true w).2 !! 1%nat = Some taxes.
Proof.
  intros current selected w.
  assert (current !! 1%nat = Some taxes) as Hk by reflexivity.
  assert (Todo.id taxes ∉ selected) as Hout by (vm_compute; set_solver).
  destruct (optimistic_steps_keep_ids milk selected None true current)
    as (_ & Hsteps & _ & Hhooks).
  destruct Hsteps as (_ & _ & _ & _ & _ & _ & _ & [_ Hrb]).
  destruct (Hrb 1%nat taxes Hk) as (t' & Hat & _ & Hsame & _).
  split_and!; [exact Hk|exact Hout|reflexivity|reflexivity| |].
  - exists t'. split; [exact Hat|]. by apply Hsame.
  - exact (proj2 (proj2 (Hhooks w 1%nat taxes Hk) Hout)).
Defined.

(** ** Deleting todos *)

Lemma deleteTodo_failure id w :
  next_request_fails w →
  todos (deleteTodo id w).2 = todos w
  ∧ db_todos (deleteTodo id w).2 = db_todos w
  ∧ toasts (deleteTodo id w).2
    = toasts w ++ [toast_error_msg "Failed to delete todo"].
Proof. intros [fs Hf]. unfold deleteTodo. run_hook. by rewrite Hf. Qed.

Lemma deleteTodo_success id w :
  next_request_passes w →
  todos (deleteTodo id w).2 = filter (λ todo, Todo.id todo ≠ id) (todos w)
  ∧ (∀ T, T ∈ db_todos (deleteTodo id w).2 → Todo.id T ≠ id)
  ∧ toasts (deleteTodo id w).2
    = toasts w ++ [toast_success_msg "Todo deleted successfully!"].
Proof.
  intros Hp. unfold deleteTodo. run_hook.
  assert (∀ T, T ∈ filter (λ row, bool_decide (Todo.id row = id) = false)
                          (db_todos w) → Todo.id T ≠ id) as Hdb.
  { intros T HT. apply list_elem_of_filter in HT as [HT _].
    by apply bool_decide_eq_false_1 in HT. }
  destruct Hp as [Hf|[fs Hf]]; rewrite Hf; simpl; done.
Qed.

Lemma handleBulkDelete_failure w :
  next_request_fails w →
  todos (handleBulkDelete w).2 = todos w
  ∧ db_todos (handleBulkDelete w).2 = db_todos w
  ∧ selectedTodos (handleBulkDelete w).2 = selectedTodos w
  ∧ toasts (handleBulkDelete w).2
    = toasts w ++ [toast_error_msg "Failed to delete todos"].
Proof. intros [fs Hf]. unfold handleBulkDelete. run_hook. by rewrite Hf. Qed.

(** [handleBulkDelete] never writes the store of todos, not even once the
    backend has deleted the rows. *)
Lemma handleBulkDelete_store_untouched w :
  todos (handleBulkDelete w).2 = todos w.
Proof.
  unfold handleBulkDelete. run_hook. by destruct (faults w) as [|[] fs].
Qed.

Lemma handleBulkDelete_success w :
  next_request_passes w →
  (∀ T, T ∈ db_todos (handleBulkDelete w).2 → Todo.id T ∉ selectedTodos w)
  ∧ selectedTodos (handleBulkDelete w).2 = ∅
  ∧ toasts (handleBulkDelete w).2
    = toasts w ++ [toast_success_msg "Todos deleted successfully!"].
Proof.
  intros Hp. unfold handleBulkDelete. run_hook.
  assert (∀ T, T ∈ filter (λ row, bool_decide
                             (Todo.id row ∈ elements (selectedTodos w)) = false)
                          (db_todos w) → Todo.id T ∉ selectedTodos w) as Hdb.
  { intros T HT. apply list_elem_of_filter in HT as [HT _].
    apply bool_decide_eq_false_1 in HT. by rewrite elem_of_elements in HT. }
  destruct Hp as [Hf|[fs Hf]]; rewrite Hf; simpl; done.
Qed.

(** C7. A bulk delete the backend has confirmed leaves the deleted todos
    in the store of the client: with Milk selected, the row of Milk is gone
    from the backend, the success notification is shown, and the store
    still lists Milk. (The single delete does remove its todo then.) *)
Theorem bulk_delete_keeps_deleted_todos :
  let w := session [milk; taxes] [] {["t1"]} in
  let w' := (handleBulkDelete w).2 in
  db_todos w' = [taxes]
  ∧ toasts w' = [toast_success_msg "Todos deleted successfully!"]
  ∧ todos w' = [milk; taxes]
  ∧ todos (deleteTodo "t1" w).2 = [taxes].
Proof. cbv zeta. split_and!; vm_compute; reflexivity. Qed.

(** ** The realtime subscription *)

Lemma merge_row_present (p : Todo.t) (current : list Todo.t) :
  (∃ t, t ∈ current ∧ Todo.id t = Todo.id p) →
  merge_row p current
  = map (λ todo, if bool_decide (Todo.id todo = Todo.id p) then p else todo)
        current.
Proof.
  intros (t & Ht & Hid). unfold merge_row.
  destruct (find _ current) as [t'|] eqn:Hfind; [done|].
  apply list_elem_of_In in Ht.
  pose proof (find_none _ _ Hfind t Ht) as Hnone. simpl in Hnone.
  by rewrite (bool_decide_eq_true_2 _ Hid) in Hnone.
Qed.

Lemma merge_row_absent (p : Todo.t) (current : list Todo.t) :
  (∀ t, t ∈ current → Todo.id t ≠ Todo.id p) →
  merge_row p current = current ++ [p].
Proof.
  intros Habs. unfold merge_row.
  destruct (find _ current) as [t'|] eqn:Hfind; [|done].
  apply find_some in Hfind as [Hin Hid].
  apply list_elem_of_In in Hin. apply bool_decide_eq_true_1 in Hid.
  by destruct (Habs t' Hin).
Qed.

Lemma merge_row_cases (p : Todo.t) (current : list Todo.t) :
  (∃ t, t ∈ current ∧ Todo.id t = Todo.id p)
  ∨ (∀ t, t ∈ current → Todo.id t ≠ Todo.id p).
Proof.
  induction current as [|t l IH].
  - right. intros t Ht. by apply elem_of_nil in Ht.
  - destruct (decide (Todo.id t = Todo.id p)) as [Hid|Hid].
    + left. exists t. split; [left|done].
    + destruct IH as [(t' & Ht' & Hid')|IH].
      * left. exists t'. split; [by right|done].
      * right. intros t' Ht'. apply elem_of_cons in Ht' as [->|Ht']; auto.
Qed.

Lemma count_id_app i l1 l2 :
  count_id i (l1 ++ l2) = (count_id i l1 + count_id i l2)%nat.
Proof. unfold count_id. by rewrite filter_app, length_app. Qed.

Lemma count_id_ids i l1 l2 :
  Todo.id <$> l1 = Todo.id <$> l2 → count_id i l1 = count_id i l2.
Proof.
  unfold count_id. revert l2.
  induction l1 as [|a l1 IH]; intros [|b l2] Heq; simpl in *; try done.
  inversion Heq as [[Hab Hl]].
  rewrite !filter_cons, Hab.
  destruct (decide (Todo.id b = i)); simpl; by rewrite (IH l2 Hl).
Qed.

Lemma count_id_zero i l :
  (∀ t, t ∈ l → Todo.id t ≠ i) → count_id i l = 0%nat.
Proof.
  unfold count_id. induction l as [|a l IH]; intros Habs; [done|].
  rewrite filter_cons.
  destruct (decide (Todo.id a = i)) as [Hid|Hid].
  - destruct (Habs a); [left|done].
  - apply IH. intros t Ht. apply Habs. by right.
Qed.

Lemma count_id_pos i l :
  (∃ t, t ∈ l ∧ Todo.id t = i) → (1 ≤ count_id i l)%nat.
Proof.
  unfold count_id. intros (t & Ht & Hid).
  assert (t ∈ filter (λ t, Todo.id t = i) l) as Hin
    by (by apply list_elem_of_filter).
  destruct (filter _ l); [by apply elem_of_nil in Hin|simpl; lia].
Qed.

Lemma replace_same_id (p t : Todo.t) :
  Todo.id (if bool_decide (Todo.id t = Todo.id p) then p else t) = Todo.id t.
Proof. by case_bool_decide. Qed.

Lemma merge_row_twice (p : Todo.t) (current : list Todo.t) :
  merge_row p (merge_row p current) = merge_row p current.
Proof.
  destruct (merge_row_cases p current) as [Hpre|Habs].
  - rewrite (merge_row_present p current Hpre).
    rewrite merge_row_present.
    + apply map_idempotent. intros t.
      destruct (decide (Todo.id t = Todo.id p)) as [Hid|Hid].
      * rewrite (bool_decide_eq_true_2 _ Hid).
        by rewrite bool_decide_eq_true_2.
      * by rewrite !(bool_decide_eq_false_2 _ Hid).
    + destruct Hpre as (t & Ht & Hid). exists p. split; [|done].
      apply list_elem_of_fmap. exists t.
      by rewrite (bool_decide_eq_true_2 _ Hid).
  - rewrite (merge_row_absent p current Habs).
    rewrite merge_row_present.
    + rewrite map_app. simpl. rewrite bool_decide_eq_true_2 by done.
      f_equal. rewrite <- (map_id current) at 2.
      apply map_ext_in. intros t Ht. apply list_elem_of_In in Ht.
      by rewrite (bool_decide_eq_false_2 _ (Habs t Ht)).
    + exists p. split; [|done]. apply elem_of_app. right. left.
Qed.

Lemma merge_row_holds_payload (p : Todo.t) (current : list Todo.t) (t : Todo.t) :
  t ∈ merge_row p current → Todo.id t = Todo.id p → t = p.
Proof.
  intros Ht Hid. destruct (merge_row_cases p current) as [Hpre|Habs].
  - rewrite (merge_row_present p current Hpre) in Ht.
    apply list_elem_of_fmap in Ht as (t0 & -> & _).
    revert Hid. by case_bool_decide.
  - rewrite (merge_row_absent p current Habs) in Ht.
    apply elem_of_app in Ht as [Ht|Ht].
    + by destruct (Habs t Ht).
    + by apply list_elem_of_singleton in Ht.
Qed.

Lemma merge_row_count (p : Todo.t) (current : list Todo.t) :
  count_id (Todo.id p) (merge_row p current)
  = Nat.max 1 (count_id (Todo.id p) current).
Proof.
  destruct (merge_row_cases p current) as [Hpre|Habs].
  - rewrite (merge_row_present p current Hpre).
    rewrite (count_id_ids _ _ current).
    + pose proof (count_id_pos _ _ Hpre). lia.
    + apply map_keeps_ids. intros t. apply replace_same_id.
  - rewrite (merge_row_absent p current Habs), count_id_app.
    rewrite (count_id_zero _ _ Habs). unfold count_id.
    rewrite filter_cons. by rewrite decide_True.
Qed.

(** C5, at an input: a store that holds an identifier twice. [addTodo]
    inserts Eggs; the insert event of the row is handled before [addTodo]
    appends it, and the store holds Eggs twice. The update event of Eggs,
    applied twice, leaves two entries with its identifier, not one. *)
Lemma realtime_merge_keeps_duplicates_counterexample :
  let w := shared_session [] in
  let eggs := Todo.mk "t3" "2025-02-09" "Eggs" None false "u1" (Some "f1")
                      (Some ["u2"]) (Some ["u2"]) in
  let bought := Todo.with_is_complete true eggs in
  let w1 := (addTodo_request "t3" "2025-02-09" (todo_form "Eggs" (Some "f1"))
               "u1" w).2 in
  let w2 := (addTodo_settle (data_of [eggs])
               (on_postgres_changes (insertion_event eggs) w1).2).2 in
  let event := mkPayload UPDATE (Some bought) (Some "t3") in
  let w3 := (on_postgres_changes event (on_postgres_changes event w2).2).2 in
  addTodo_request "t3" "2025-02-09" (todo_form "Eggs" (Some "f1")) "u1" w
  = (Normal (data_of [eggs]), w1)
  ∧ todos w2 = [milk; eggs; eggs]
  ∧ todos w3 = [milk; bought; bought]
  ∧ todos w3 = merge_row bought (merge_row bought (todos w2))
  ∧ count_id "t3" (todos w3) = 2%nat
  ∧ count_id "t3" (todos w3) ≠ 1%nat.
Proof. cbv zeta. split_and!; vm_compute; (reflexivity || discriminate). Qed.

(** C5, amended. The merge of an insert-or-update event into the store.
    If an entry carries the identifier of the payload, it is replaced in
    place: the store keeps its length and the sequence of its identifiers,
    and the entry at each position is the payload where the identifier
    matched and the old entry elsewhere. If none does, the payload is
    appended. The merge is idempotent; after it every entry with that
    identifier is the payload, and there are as many of them as before, or
    one if there was none: so a store that held the identifier at most once
    holds it exactly once after the event is applied twice, while a store
    that held it several times keeps that many entries. The handler of the
    subscription applies this merge to the store. *)
Theorem realtime_merge (payload_new : Todo.t) (current : list Todo.t) :
  let i := Todo.id payload_new in
  let merged := merge_row payload_new current in
  ((∃ t, t ∈ current ∧ Todo.id t = i) →
     length merged = length current
     ∧ Todo.id <$> merged = Todo.id <$> current
     ∧ ∀ k t, current !! k = Some t →
         merged !! k
         = Some (if bool_decide (Todo.id t = i) then payload_new else t))
  ∧ ((∀ t, t ∈ current → Todo.id t ≠ i) → merged = current ++ [payload_new])
  ∧ merge_row payload_new merged = merged
  ∧ (∀ t, t ∈ merged → Todo.id t = i → t = payload_new)
  ∧ count_id i merged = Nat.max 1 (count_id i current)
  ∧ count_id i (merge_row payload_new merged)
    = Nat.max 1 (count_id i current)
  ∧ ((count_id i current ≤ 1)%nat →
     count_id i (merge_row payload_new merged) = 1%nat)
  ∧ (∀ payload w, new payload = Some payload_new →
       todos (on_postgres_changes payload w).2
       = merge_row payload_new (todos w)).
Proof.
  intros i merged. subst i merged. split_and!.
  - intros Hpre. rewrite (merge_row_present _ _ Hpre). split_and!.
    + apply length_map.
    + apply map_keeps_ids. intros t. apply replace_same_id.
    + intros k t Hk.
      change (map ?f current) with (f <$> current).
      by rewrite list_lookup_fmap, Hk.
  - apply merge_row_absent.
  - apply merge_row_twice.
  - apply merge_row_holds_payload.
  - apply merge_row_count.
  - by rewrite merge_row_twice, merge_row_count.
  - intros Hle. rewrite merge_row_twice, merge_row_count. lia.
  - intros payload w Hnew. unfold on_postgres_changes. by rewrite Hnew.
Qed.

Lemma realtime_merge_witness :
  let updated := Todo.mk "t1" "2025-02-06" "Milk" None true "u1" (Some "f1")
                         (Some []) (Some []) in
  ((∃ t, t ∈ [milk; taxes] ∧ Todo.id t = "t1")
   ∧ merge_row updated [milk; taxes] = [updated; taxes]
   ∧ merge_row updated (merge_row updated [milk; taxes]) = [updated; taxes])
  ∧ ((∀ t, t ∈ [taxes] → Todo.id t ≠ "t1")
     ∧ merge_row updated [taxes] = [taxes; updated])
  ∧ ((count_id "t1" [milk; taxes] ≤ 1)%nat
     ∧ count_id "t1" (merge_row updated (merge_row updated [milk; taxes]))
       = 1%nat)
  ∧ count_id "t1" (merge_row updated (merge_row updated [milk; milk; taxes]))
    = 2%nat.
Proof.
  intros updated.
  pose proof (realtime_merge updated [milk; taxes])
    as (_ & _ & _ & _ & _ & _ & Hone & _).
  pose proof (realtime_merge updated [taxes]) as (_ & Habs & _).
  pose proof (realtime_merge updated [milk; milk; taxes])
    as (_ & _ & _ & _ & _ & Htwo & _).
  assert (∀ t, t ∈ [taxes] → Todo.id t ≠ "t1") as Hno.
  { intros t Ht. apply list_elem_of_singleton in Ht. by subst t. }
  assert (count_id "t1" [milk; taxes] ≤ 1)%nat as Hle
    by (vm_compute; lia).
  split_and!.
  - exists milk. split; [left|reflexivity].
  - reflexivity.
  - reflexivity.
  - exact Hno.
  - exact (Habs Hno).
  - exact Hle.
  - exact (Hone Hle).
  - exact Htwo.
Defined.

Lemma merge_entry_rows (p : Todo.t) (l : list Todo.t) :
  merge_entry (entry_row p) (entry_row <$> l) = entry_row <$> merge_row p l.
Proof.
  unfold merge_entry, merge_row.
  assert (find (λ todo, bool_decide (entry_id todo = entry_id (entry_row p)))
               (entry_row <$> l)
          = entry_row <$> find (λ todo, bool_decide (Todo.id todo = Todo.id p))
                               l) as ->.
  { induction l as [|t l IH]; [done|]. simpl.
    destruct (decide (Todo.id t = Todo.id p)) as [Hid|Hid].
    - rewrite (bool_decide_eq_true_2 _ Hid).
      by rewrite bool_decide_eq_true_2 by (by rewrite Hid).
    - rewrite (bool_decide_eq_false_2 _ Hid).
      by rewrite bool_decide_eq_false_2 by (by intros [= ?]). }
  destruct (find _ l) as [found|]; simpl.
  - change (map ?f ?x) with (f <$> x). rewrite <- !list_fmap_compose.
    apply list_fmap_ext. intros _ t _. simpl.
    destruct (decide (Todo.id t = Todo.id p)) as [Hid|Hid].
    + rewrite (bool_decide_eq_true_2 _ Hid).
      by rewrite bool_decide_eq_true_2 by (by rewrite Hid).
    + rewrite (bool_decide_eq_false_2 _ Hid).
      by rewrite bool_decide_eq_false_2 by (by intros [= ?]).
  - by rewrite fmap_app.
Qed.

Lemma merge_entry_cases (p : Entry) (current : list Entry) :
  (∃ e, e ∈ current ∧ entry_id e = entry_id p)
  ∨ (∀ e, e ∈ current → entry_id e ≠ entry_id p).
Proof.
  induction current as [|t l IH].
  - right. intros e He. by apply elem_of_nil in He.
  - destruct (decide (entry_id t = entry_id p)) as [Hid|Hid].
    + left. exists t. split; [left|done].
    + destruct IH as [(t' & Ht' & Hid')|IH].
      * left. exists t'. split; [by right|done].
      * right. intros t' Ht'. apply elem_of_cons in Ht' as [->|Ht']; auto.
Qed.

Lemma merge_entry_present (p : Entry) (current : list Entry) :
  (∃ e, e ∈ current ∧ entry_id e = entry_id p) →
  merge_entry p current
  = map (λ todo, if bool_decide (entry_id todo = entry_id p) then p else todo)
        current.
Proof.
  intros (t & Ht & Hid). unfold merge_entry.
  destruct (find _ current) as [t'|] eqn:Hfind; [done|].
  apply list_elem_of_In in Ht.
  pose proof (find_none _ _ Hfind t Ht) as Hnone. simpl in Hnone.
  by rewrite (bool_decide_eq_true_2 _ Hid) in Hnone.
Qed.

Lemma merge_entry_absent (p : Entry) (current : list Entry) :
  (∀ e, e ∈ current → entry_id e ≠ entry_id p) →
  merge_entry p current = current ++ [p].
Proof.
  intros Habs. unfold merge_entry.
  destruct (find _ current) as [t'|] eqn:Hfind; [|done].
  apply find_some in Hfind as [Hin Hid].
  apply list_elem_of_In in Hin. apply bool_decide_eq_true_1 in Hid.
  by destruct (Habs t' Hin).
Qed.

Lemma entry_id_empty (e : Entry) : entry_id e = None ↔ e = entry_empty.
Proof. by destruct e. Qed.

(** The empty object merged into a store: the store, with the empty object
    appended when it held none. *)
Lemma merge_entry_empty (current : list Entry) :
  (entry_empty ∈ current → merge_entry entry_empty current = current)
  ∧ (entry_empty ∉ current
     → merge_entry entry_empty current = current ++ [entry_empty]).
Proof.
  split.
  - intros Hin. rewrite merge_entry_present by (by exists entry_empty).
    rewrite <- (map_id current) at 2. apply map_ext. intros e. simpl.
    case_bool_decide as He; [|done]. by apply entry_id_empty in He.
  - intros Hout. apply merge_entry_absent. intros e He Hid.
    apply entry_id_empty in Hid. by subst e.
Qed.




(** ** useFolders.deleteFolder *)

(** C4. [deleteFolder] sends the detaching update of the todos first and
    the deletion of the folder second: in every run the requests it issues
    are none (no user), the update alone when the backend rejects it, or
    the accepted update followed by the deletion. After a successful call
    the two accepted requests are on the log in that order; no todo of the
    backend is filed under the folder; the todos that were now have no
    folder and every todo has the rest of its row, [shared_with] and
    [can_edit] included, as before; and no row of the backend nor entry of
    the state of the hook carries the identifier of the folder. *)
Theorem deleteFolder_detaches_then_deletes (folder : Folder.t) (w : World) :
  (∃ issued, requests (deleteFolder folder w).2 = requests w ++ issued
     ∧ (issued = []
        ∨ issued = [(detach_todos folder, true)]
        ∨ ∃ verdict, issued = [(detach_todos folder, false);
                               (delete_todo_folders (Folder.id folder),
                                verdict)]))
  ∧ (∀ w', succeeds (deleteFolder folder) "Folder deleted successfully!" w w' →
       requests w' = requests w
                     ++ [(detach_todos folder, false);
                         (delete_todo_folders (Folder.id folder), false)]
       ∧ (∀ T, T ∈ db_todos w' →
            Todo.folder_id T ≠ Some (Folder.id folder))
       ∧ db_todos w'
         = map (λ T, if bool_decide (Todo.folder_id T
                                     = Some (Folder.id folder))
                     then Todo.with_folder_id None T else T) (db_todos w)
       ∧ Todo.shared_with <$> db_todos w' = Todo.shared_with <$> db_todos w
       ∧ Todo.can_edit <$> db_todos w' = Todo.can_edit <$> db_todos w
       ∧ (∀ F, F ∈ db_folders w' ∨ F ∈ folders w' →
            Folder.id F ≠ Folder.id folder)).
Proof.
  split.
  - unfold deleteFolder. run_hook.
    destruct (user w) as [u|]; simpl.
    + destruct (faults w) as [|[] [|[] fs]]; simpl; eexists;
        (split; [try rewrite <- app_assoc; reflexivity|]); eauto.
    + exists []. by rewrite app_nil_r; auto.
  - intros w' [Hrun Htoast]. revert Hrun Htoast.
    unfold deleteFolder. run_hook.
    destruct (user w) as [u|] eqn:Hu.
    + destruct (faults w) as [|[] [|[] fs]] eqn:Hf; simpl;
        intros Hrun Htoast; inversion Hrun; subst w'; clear Hrun;
        simpl in *; try (by apply app_inj_tail in Htoast as [_ ?]).
      all: rewrite <- app_assoc; simpl.
      all: split_and!; try done.
      all: try (intros T HT; apply list_elem_of_fmap in HT as (row & -> & _);
                destruct (decide (Todo.folder_id row
                                  = Some (Folder.id folder))) as [Hid|Hid];
                [by rewrite (bool_decide_eq_true_2 _ Hid)
                |by rewrite (bool_decide_eq_false_2 _ Hid)]).
      all: try (rewrite <- list_fmap_compose; apply list_fmap_ext;
                intros _ row _; simpl; by case_bool_decide).
      all: intros F [HF|HF]; apply list_elem_of_filter in HF as [HF _];
        done.
    + intros Hrun Htoast. inversion Hrun; subst w'.
      by apply app_singleton_neq in Htoast.
Qed.

Lemma deleteFolder_detaches_then_deletes_witness :
  let w := session [milk; taxes] [] ∅ in
  let w' := (deleteFolder groceries w).2 in
  succeeds (deleteFolder groceries) "Folder deleted successfully!" w w'
  ∧ db_todos w' = [Todo.with_folder_id None milk; taxes]
  ∧ db_folders w' = [] ∧ folders w' = []
  ∧ ∀ T, T ∈ db_todos w' → Todo.folder_id T ≠ Some "f1".
Proof.
  intros w w'.
  assert (succeeds (deleteFolder groceries)
                   "Folder deleted successfully!" w w') as Hs
    by (split; vm_compute; reflexivity).
  split_and!; [exact Hs|vm_compute; reflexivity..|].
  exact (proj1 (proj2 (proj2 (deleteFolder_detaches_then_deletes groceries w)
                        w' Hs))).
Defined.

(** ** useTodoOrder.saveTodoOrder *)

(** C9, at an input: saving an order drops the theme from the document. *)
Lemma saveTodoOrder_drops_other_keys_counterexample :
  let w := session_with_theme in
  let w' := (saveTodoOrder {[ "root" := ["b"; "a"] ]} w).2 in
  (db_preferences w !! "u1") ≫= (.!! "theme") = Some (JString "dark")
  ∧ (db_preferences w' !! "u1") ≫= (.!! "todoOrder")
    = Some (json_of_order {[ "root" := ["b"; "a"] ]})
  ∧ (db_preferences w' !! "u1") ≫= (.!! "theme") = None.
Proof. cbv zeta. split_and!; vm_compute; reflexivity. Qed.

(** C9, amended. When a user is signed in and the backend accepts the
    write, [saveTodoOrder] replaces the preference document of that user by
    the document whose only key is [todoOrder], bound to the new map: every
    other key the document had is gone. The documents of the other users
    are left as they were. *)
Theorem saveTodoOrder_replaces_document
    (newOrder : gmap string (list string)) (uid : string) (w : World) :
  user w = Some uid →
  next_request_passes w →
  let w' := (saveTodoOrder newOrder w).2 in
  db_preferences w' !! uid = Some {[ "todoOrder" := json_of_order newOrder ]}
  ∧ (db_preferences w' !! uid) ≫= (.!! "todoOrder")
    = Some (json_of_order newOrder)
  ∧ (∀ key, key ≠ "todoOrder" →
       (db_preferences w' !! uid) ≫= (.!! key) = None)
  ∧ (∀ other, other ≠ uid →
       db_preferences w' !! other = db_preferences w !! other).
Proof.
  intros Hu Hp w'. subst w'. unfold saveTodoOrder. run_hook. rewrite Hu.
  assert (∀ key, key ≠ "todoOrder" →
            ({[ "todoOrder" := json_of_order newOrder ]} : gmap string Json)
              !! key = None) as Hkeys.
  { intros key Hk. by apply lookup_singleton_ne. }
  destruct Hp as [Hf|[fs Hf]]; rewrite Hf; simpl.
  all: rewrite lookup_insert_eq; simpl.
  all: split_and!; [done|apply lookup_singleton_eq|exact Hkeys|].
  all: intros other Ho; by apply lookup_insert_ne.
Qed.

Lemma saveTodoOrder_replaces_document_witness :
  let w := session_with_theme in
  let w' := (saveTodoOrder {[ "root" := ["b"; "a"] ]} w).2 in
  user w = Some "u1" ∧ next_request_passes w
  ∧ db_preferences w' !! "u1"
    = Some {[ "todoOrder" := json_of_order {[ "root" := ["b"; "a"] ]} ]}.
Proof.
  intros w w'.
  assert (user w = Some "u1") as Hu by reflexivity.
  assert (next_request_passes w) as Hp by (left; reflexivity).
  split_and!; [exact Hu|exact Hp|].
  exact (proj1 (saveTodoOrder_replaces_document _ "u1" w Hu Hp)).
Defined.

(** ** The sort of the rendered todos *)

Section StableSort.
Context {A : Type} (comparefn : A → A → Z) (key : A → Z).
Hypothesis comparefn_key : ∀ a b, comparefn a b ≤ 0 ↔ key a ≤ key b.

Let R (a b : A) : Prop := key a ≤ key b.

Lemma sort_insert_perm (x : A) (l : list A) :
  sort_insert comparefn x l ≡ₚ x :: l.
Proof.
  induction l as [|y l IH]; simpl; [done|].
  case_bool_decide; [done|]. rewrite IH. apply Permutation_swap.
Qed.

Lemma Array_sort_perm (l : list A) : Array_sort comparefn l ≡ₚ l.
Proof.
  induction l as [|x l IH]; simpl; [done|].
  by rewrite sort_insert_perm, IH.
Qed.

Lemma sort_insert_sorted (x : A) (l : list A) :
  StronglySorted R l → StronglySorted R (sort_insert comparefn x l).
Proof.
  induction l as [|y l IH]; simpl; intros Hs.
  - repeat constructor.
  - apply StronglySorted_inv in Hs as [Hl Hy].
    case_bool_decide as Hc.
    + apply comparefn_key in Hc.
      constructor; [by constructor|].
      constructor; [exact Hc|].
      eapply Forall_impl; [exact Hy|]. intros z Hz. unfold R in *. lia.
    + assert (key y < key x) as Hlt.
      { destruct (Z.le_gt_cases (key x) (key y)) as [Hle|Hgt]; [|lia].
        by apply comparefn_key in Hle. }
      constructor; [by apply IH|].
      rewrite sort_insert_perm. constructor; [unfold R; lia|exact Hy].
Qed.

Lemma Array_sort_sorted (l : list A) :
  StronglySorted R (Array_sort comparefn l).
Proof.
  induction l as [|x l IH]; simpl; [constructor|].
  by apply sort_insert_sorted.
Qed.

Lemma StronglySorted_lookup (l : list A) (i j : nat) (a b : A) :
  StronglySorted R l → (i < j)%nat →
  l !! i = Some a → l !! j = Some b → key a ≤ key b.
Proof.
  intros Hs. revert i j. induction Hs as [|x l Hl IH Hx]; intros i j Hij.
  - by rewrite lookup_nil.
  - destruct j as [|j]; [lia|]. destruct i as [|i]; simpl.
    + intros [= ->] Hb.
      rewrite Forall_forall in Hx. apply Hx.
      eapply list_elem_of_lookup_2, Hb.
    + apply IH. lia.
Qed.

(** Stability: the elements of a class that lies within one key keep
    the order they had. *)
Context (P : A → Prop) `{!∀ a, Decision (P a)}.
Hypothesis P_one_key : ∀ a b, P a → P b → key a = key b.

Lemma sort_insert_filter (x : A) (l : list A) :
  filter P (sort_insert comparefn x l) = filter P (x :: l).
Proof.
  induction l as [|y l IH]; simpl; [done|].
  case_bool_decide as Hc; [done|].
  assert (key y < key x) as Hlt.
  { destruct (Z.le_gt_cases (key x) (key y)) as [Hle|Hgt]; [|lia].
    by apply comparefn_key in Hle. }
  rewrite (filter_cons _ y), IH, !(filter_cons _ x), (filter_cons _ y).
  destruct (decide (P x)) as [Hx|Hx]; [|done].
  destruct (decide (P y)) as [Hy|Hy]; [|done].
  pose proof (P_one_key _ _ Hx Hy). lia.
Qed.

Lemma Array_sort_filter (l : list A) :
  filter P (Array_sort comparefn l) = filter P l.
Proof.
  induction l as [|x l IH]; simpl; [done|].
  by rewrite sort_insert_filter, !filter_cons, IH.
Qed.
End StableSort.

(** The sort is determined by what the language asks of it: a list that is
    sorted and in which the elements of each key come in the order of the
    input is the list [Array_sort] returns. *)
Section StableSortUnique.
Context {A : Type} (comparefn : A → A → Z) (key : A → Z).
Hypothesis comparefn_key : ∀ a b, comparefn a b ≤ 0 ↔ key a ≤ key b.

Lemma stable_sorted_unique (l1 l2 : list A) :
  StronglySorted (λ a b, key a ≤ key b) l1 →
  StronglySorted (λ a b, key a ≤ key b) l2 →
  (∀ k, filter (λ a, key a = k) l1 = filter (λ a, key a = k) l2) →
  l1 = l2.
Proof.
  revert l2. induction l1 as [|x l1 IH]; intros l2 H1 H2 Hf.
  - destruct l2 as [|y l2]; [done|]. specialize (Hf (key y)).
    rewrite filter_nil, filter_cons, decide_True in Hf by done.
    discriminate Hf.
  - destruct l2 as [|y l2].
    + specialize (Hf (key x)).
      rewrite filter_nil, filter_cons, decide_True in Hf by done.
      discriminate Hf.
    + apply StronglySorted_inv in H1 as [H1 Hx].
      apply StronglySorted_inv in H2 as [H2 Hy].
      rewrite Forall_forall in Hx, Hy.
      assert (key x = key y) as Hk.
      { destruct (Z.lt_trichotomy (key x) (key y)) as [Hlt|[Heq|Hgt]];
          [|done|].
        - assert (x ∈ filter (λ a, key a = key x) (y :: l2)) as Hin.
          { rewrite <- Hf, filter_cons, decide_True by done. left. }
          apply list_elem_of_filter in Hin as [_ Hin].
          apply elem_of_cons in Hin as [->|Hin]; [lia|].
          specialize (Hy x Hin). simpl in Hy. lia.
        - assert (y ∈ filter (λ a, key a = key y) (x :: l1)) as Hin.
          { rewrite Hf, filter_cons, decide_True by done. left. }
          apply list_elem_of_filter in Hin as [_ Hin].
          apply elem_of_cons in Hin as [->|Hin]; [lia|].
          specialize (Hx y Hin). simpl in Hx. lia. }
      assert (x = y) as ->.
      { specialize (Hf (key x)).
        rewrite !filter_cons, decide_True, decide_True in Hf by done.
        by injection Hf. }
      f_equal. apply IH; [done..|].
      intros k. specialize (Hf k). rewrite !filter_cons in Hf.
      destruct (decide (key y = k)); [by injection Hf|done].
Qed.

Lemma Array_sort_unique (l sorted : list A) :
  StronglySorted (λ a b, key a ≤ key b) sorted →
  (∀ k, filter (λ a, key a = k) sorted = filter (λ a, key a = k) l) →
  sorted = Array_sort comparefn l.
Proof.
  intros Hs Hf. apply stable_sorted_unique; [done| |].
  - by apply Array_sort_sorted.
  - intros k. rewrite Hf. symmetry.
    apply (Array_sort_filter comparefn key comparefn_key).
    intros a b Ha Hb. by rewrite Ha, Hb.
Qed.
End StableSortUnique.

Lemma indexOf_from_range (i : Z) (xs : list string) (x : string) :
  indexOf_from i xs x = -1
  ∨ i ≤ indexOf_from i xs x < i + Z.of_nat (length xs).
Proof.
  revert i. induction xs as [|y xs IH]; intros i; simpl; [by left|].
  case_bool_decide; [right; lia|].
  destruct (IH (i + 1)) as [->|?]; [by left|right; lia].
Qed.

Lemma indexOf_from_absent (i : Z) (xs : list string) (x : string) :
  0 ≤ i → indexOf_from i xs x = -1 ↔ x ∉ xs.
Proof.
  revert i. induction xs as [|y xs IH]; intros i Hi; simpl.
  - split; [intros _; apply not_elem_of_nil|done].
  - rewrite not_elem_of_cons. case_bool_decide as Hy.
    + split; [lia|]. intros [Hne _]. by destruct Hne.
    + rewrite IH by lia. split; [intros ?; split; [congruence|done]|tauto].
Qed.

Lemma indexOf_from_lookup (i : Z) (xs : list string) (x : string) :
  indexOf_from i xs x ≠ -1 →
  xs !! Z.to_nat (indexOf_from i xs x - i) = Some x.
Proof.
  revert i. induction xs as [|y xs IH]; intros i; simpl; [done|].
  case_bool_decide as Hy.
  - intros _. rewrite Z.sub_diag. simpl. by subst y.
  - intros Hne. specialize (IH (i + 1) Hne).
    destruct (indexOf_from_range (i + 1) xs x) as [?|Hr]; [done|].
    replace (indexOf_from (i + 1) xs x - i)
      with (Z.succ (indexOf_from (i + 1) xs x - (i + 1))) by lia.
    rewrite Z2Nat.inj_succ by lia. exact IH.
Qed.

(** The position a todo has for the sort: its index in the order list, or
    the length of the list when it is not in it. *)
Lemma compare_todos_key todoOrder selectedFolderId (a b : Todo.t) :
  let key := λ t : Todo.t,
    if bool_decide (order_index todoOrder selectedFolderId t = -1)
    then Z.of_nat (length (scope_order todoOrder selectedFolderId))
    else order_index todoOrder selectedFolderId t in
  compare_todos todoOrder selectedFolderId a b ≤ 0 ↔ key a ≤ key b.
Proof.
  intros key. subst key. unfold compare_todos, order_index, scope_order.
  set (order := default [] (todoOrder !! scope_key selectedFolderId)).
  simpl. unfold indexOf.
  destruct (indexOf_from_range 0 order (Todo.id a)) as [Ha|Ha];
    destruct (indexOf_from_range 0 order (Todo.id b)) as [Hb|Hb].
  all: repeat case_bool_decide; simpl; lia.
Qed.

(** The comparator is consistent: it is the comparison of the keys, so the
    order [sort] has to produce is fixed by the language. *)
Lemma compare_todos_consistent todoOrder selectedFolderId (a b : Todo.t) :
  let key := λ t : Todo.t,
    if bool_decide (order_index todoOrder selectedFolderId t = -1)
    then Z.of_nat (length (scope_order todoOrder selectedFolderId))
    else order_index todoOrder selectedFolderId t in
  (compare_todos todoOrder selectedFolderId a b < 0 ↔ key a < key b)
  ∧ (compare_todos todoOrder selectedFolderId a b = 0 ↔ key a = key b)
  ∧ (compare_todos todoOrder selectedFolderId a b > 0 ↔ key a > key b).
Proof.
  intros key.
  pose proof (compare_todos_key todoOrder selectedFolderId a b) as Hab.
  pose proof (compare_todos_key todoOrder selectedFolderId b a) as Hba.
  fold key in Hab, Hba. simpl in Hab, Hba.
  assert (compare_todos todoOrder selectedFolderId a b = 0 ↔ key a = key b)
    as Hzero.
  { subst key. unfold compare_todos, order_index, scope_order, indexOf.
    simpl.
    set (order := default [] (todoOrder !! scope_key selectedFolderId)).
    destruct (indexOf_from_range 0 order (Todo.id a)) as [Ha|Ha];
      destruct (indexOf_from_range 0 order (Todo.id b)) as [Hb|Hb].
    all: repeat case_bool_decide; simpl; lia. }
  split_and!; [|exact Hzero|]; lia.
Qed.

(** C6. The order list of the scope is the list the order map holds
    under the identifier of the selected folder, or under "root" when no
    folder is selected (null, or the empty string, which is falsy), and
    the empty list when the map has no such key. The rendered todos are
    the shown todos, permuted so that they go by the index of their
    identifier in that list: whenever one todo is rendered before another,
    if the first is not in the list neither is the second, and if the
    second is in the list so is the first, at an index that is not larger.
    An index of -1 means the identifier is not in the list, any other
    index is a position holding it. The comparator returns 0 on two todos
    that are not in the list, and the todos with one and the same index,
    those not in the list among them, keep the relative order the input
    had. With the order map {root: [a, b, c]} and no folder selected,
    [c, a, b] is rendered as [a, b, c]; d and e, not in the list, come
    after them, d before e as in the input. With the folder f1 selected
    and the order map {root: [a, b, c], f1: [c, b, a]}, the todos a, b, c
    of f1 are rendered as [c, b, a]. *)
Theorem filteredTodos_sorted (todos : list Todo.t)
    (selectedFolderId : option string) (filter_ : Filter)
    (todoOrder : gmap string (list string)) :
  let order := scope_order todoOrder selectedFolderId in
  let index := order_index todoOrder selectedFolderId in
  let shown := shown_todos todos selectedFolderId filter_ in
  let rendered := filteredTodos todos selectedFolderId filter_ todoOrder in
  ((selectedFolderId = None ∨ selectedFolderId = Some "" →
      order = default [] (todoOrder !! "root"))
   ∧ (∀ folder, selectedFolderId = Some folder → folder ≠ "" →
        order = default [] (todoOrder !! folder))
   ∧ (∀ t, index t = indexOf order (Todo.id t)))
  ∧ rendered ≡ₚ shown
  ∧ (∀ i j a b, (i < j)%nat →
       rendered !! i = Some a → rendered !! j = Some b →
       (index a = -1 → index b = -1)
       ∧ (index b ≠ -1 → index a ≠ -1 ∧ index a ≤ index b))
  ∧ (∀ t, (index t = -1 ↔ Todo.id t ∉ order)
          ∧ (index t ≠ -1 → order !! Z.to_nat (index t) = Some (Todo.id t)))
  ∧ (∀ a b, index a = -1 → index b = -1 →
       compare_todos todoOrder selectedFolderId a b = 0)
  ∧ (∀ k, filter (λ t, index t = k) rendered
          = filter (λ t, index t = k) shown)
  ∧ Todo.id <$> filteredTodos (todo_named <$> ["c"; "a"; "b"]) None all
                  {[ "root" := ["a"; "b"; "c"] ]}
    = ["a"; "b"; "c"]
  ∧ Todo.id <$> filteredTodos (todo_named <$> ["d"; "c"; "e"; "a"; "b"])
                  None all {[ "root" := ["a"; "b"; "c"] ]}
    = ["a"; "b"; "c"; "d"; "e"]
  ∧ Todo.id <$> filteredTodos (todo_filed "f1" <$> ["a"; "b"; "c"])
                  (Some "f1") all
                  {[ "root" := ["a"; "b"; "c"]; "f1" := ["c"; "b"; "a"] ]}
    = ["c"; "b"; "a"].
Proof.
  intros order index shown rendered.
  set (key := λ t : Todo.t,
         if bool_decide (index t = -1) then Z.of_nat (length order)
         else index t).
  assert (∀ a b, compare_todos todoOrder selectedFolderId a b ≤ 0
                 ↔ key a ≤ key b) as Hkey
    by apply compare_todos_key.
  assert (∀ t, index t = -1 ∨ 0 ≤ index t < Z.of_nat (length order)) as Hrange.
  { intros t. unfold index, order, order_index, indexOf.
    destruct (indexOf_from_range 0 (scope_order todoOrder selectedFolderId)
                (Todo.id t)) as [H|H]; [by left|right; lia]. }
  split; [|split_and!].
  - split_and!.
    + by intros [->| ->].
    + intros folder -> Hne. unfold order, scope_order. simpl.
      by rewrite (bool_decide_eq_false_2 _ Hne).
    + done.
  - apply Array_sort_perm.
  - intros i j a b Hij Ha Hb.
    pose proof (StronglySorted_lookup key rendered i j a b
                  (Array_sort_sorted _ key Hkey shown) Hij Ha Hb) as Hle.
    unfold key in Hle.
    destruct (Hrange a), (Hrange b); repeat case_bool_decide; lia.
  - intros t. split.
    + apply indexOf_from_absent. lia.
    + intros Hne.
      pose proof (indexOf_from_lookup 0 order (Todo.id t) Hne) as Hl.
      by rewrite Z.sub_0_r in Hl.
  - intros a b Ha Hb. unfold compare_todos.
    fold (scope_order todoOrder selectedFolderId).
    fold (order_index todoOrder selectedFolderId a).
    fold (order_index todoOrder selectedFolderId b).
    fold index. simpl. by rewrite Ha, Hb.
  - intros k. apply (Array_sort_filter _ key Hkey).
    intros a b Ha Hb. unfold key. by rewrite Ha, Hb.
  - vm_compute. reflexivity.
  - vm_compute. reflexivity.
  - vm_compute. reflexivity.
Qed.

Lemma filteredTodos_sorted_witness :
  let order : gmap string (list string) :=
    {[ "root" := ["d"; "c"; "a"]; "f1" := ["a"; "c"] ]} in
  let todos := todo_filed "f1" <$> ["d"; "c"; "a"] in
  let rendered := filteredTodos todos (Some "f1") all order in
  ((1 < 2)%nat
   ∧ rendered !! 1%nat = Some (todo_filed "f1" "c")
   ∧ rendered !! 2%nat = Some (todo_filed "f1" "d")
   ∧ "f1" ≠ "")
  ∧ rendered = todo_filed "f1" <$> ["a"; "c"; "d"]
  ∧ scope_order order (Some "f1") = ["a"; "c"]
  ∧ order_index order (Some "f1") (todo_filed "f1" "c") = 1
  ∧ order_index order (Some "f1") (todo_filed "f1" "d") = -1
  ∧ (order_index order (Some "f1") (todo_filed "f1" "c") = -1 →
     order_index order (Some "f1") (todo_filed "f1" "d") = -1).
Proof.
  intros order todos rendered.
  pose proof (filteredTodos_sorted todos (Some "f1") all order)
    as ((_ & Hscope & _) & _ & Hsorted & _).
  assert (1 < 2)%nat as Hlt by lia.
  assert (rendered !! 1%nat = Some (todo_filed "f1" "c")) as Hc
    by (vm_compute; reflexivity).
  assert (rendered !! 2%nat = Some (todo_filed "f1" "d")) as Hd
    by (vm_compute; reflexivity).
  assert ("f1" ≠ "") as Hne by discriminate.
  split_and!; [exact Hlt|exact Hc|exact Hd|exact Hne| | | | |].
  - vm_compute. reflexivity.
  - rewrite (Hscope "f1" eq_refl Hne). vm_compute. reflexivity.
  - vm_compute. reflexivity.
  - vm_compute. reflexivity.
  - exact (proj1 (Hsorted 1%nat 2%nat _ _ Hlt Hc Hd)).
Defined.

(* ================================================================== *)
(** * Properties of the rest of the hooks *)

#[local] Set Warnings "-clear-no-such-hyp".

(** ** The removal of duplicates of the initial fetch *)

Lemma findIndex_from_range {A} (i : Z) (p : A → bool) (xs : list A) :
  findIndex_from i p xs = -1
  ∨ i ≤ findIndex_from i p xs < i + Z.of_nat (length xs).
Proof.
  revert i. induction xs as [|y xs IH]; intros i; simpl; [by left|].
  destruct (p y); [right; lia|].
  destruct (IH (i + 1)) as [->|?]; [by left|right; lia].
Qed.

Lemma findIndex_from_none {A} (i : Z) (p : A → bool) (xs : list A) :
  0 ≤ i → findIndex_from i p xs = -1 ↔ ∀ x, x ∈ xs → p x = false.
Proof.
  revert i. induction xs as [|y xs IH]; intros i Hi; simpl.
  - split; [|done]. intros _ x Hx. by apply elem_of_nil in Hx.
  - destruct (p y) eqn:Hy.
    + split; [lia|]. intros Hall. rewrite Hall in Hy; [done|left].
    + rewrite IH by lia. split.
      * intros Hall x Hx. apply elem_of_cons in Hx as [->|Hx]; auto.
      * intros Hall x Hx. apply Hall. by right.
Qed.

Lemma findIndex_from_lookup {A} (i : Z) (p : A → bool) (xs : list A) :
  findIndex_from i p xs ≠ -1 →
  ∃ x, xs !! Z.to_nat (findIndex_from i p xs - i) = Some x ∧ p x = true
       ∧ ∀ k y, (k < Z.to_nat (findIndex_from i p xs - i))%nat →
                xs !! k = Some y → p y = false.
Proof.
  revert i. induction xs as [|y xs IH]; intros i; simpl; [done|].
  destruct (p y) eqn:Hy.
  - intros _. rewrite Z.sub_diag. exists y. split_and!; [done..|].
    intros k z Hk. simpl in Hk. lia.
  - intros Hne. destruct (IH (i + 1) Hne) as (x & Hx & Hpx & Hbefore).
    destruct (findIndex_from_range (i + 1) p xs) as [?|Hr]; [done|].
    replace (findIndex_from (i + 1) p xs - i)
      with (Z.succ (findIndex_from (i + 1) p xs - (i + 1))) by lia.
    rewrite Z2Nat.inj_succ by lia. exists x. split_and!; [done..|].
    intros [|k] z Hk Hz; simpl in Hz.
    + by injection Hz as <-.
    + apply (Hbefore k z); [lia|done].
Qed.

Lemma findIndex_from_app {A} (i : Z) (p : A → bool) (pre post : list A) :
  (∀ x, x ∈ pre → p x = false) →
  findIndex_from i p (pre ++ post)
  = findIndex_from (i + Z.of_nat (length pre)) p post.
Proof.
  revert i. induction pre as [|y pre IH]; intros i Hall; simpl.
  - by rewrite Z.add_0_r.
  - rewrite (Hall y) by left. rewrite IH.
    + f_equal. lia.
    + intros x Hx. apply Hall. by right.
Qed.

Section Unique.
Context {A : Type} (id : A → string).

Lemma first_index_keep (pre : list A) (x : A) (post : list A) :
  bool_decide (Z.of_nat (length pre)
               = findIndex (λ f, bool_decide (id f = id x))
                           (pre ++ x :: post))
  = negb (bool_decide (id x ∈ id <$> pre)).
Proof.
  unfold findIndex.
  destruct (decide (id x ∈ id <$> pre)) as [Hin|Hnin].
  - rewrite (bool_decide_eq_true_2 _ Hin). simpl.
    apply bool_decide_eq_false_2.
    apply list_elem_of_fmap in Hin as (y & Hy & Hin).
    apply list_elem_of_lookup in Hin as [k Hk].
    set (p := λ f, bool_decide (id f = id x)).
    destruct (findIndex_from_range 0 p (pre ++ x :: post)) as [Hn|Hr].
    + rewrite Hn. lia.
    + intros Heq.
      destruct (findIndex_from_lookup 0 p (pre ++ x :: post))
        as (z & _ & _ & Hbefore); [lia|].
      rewrite <- Heq, Z.sub_0_r, Nat2Z.id in Hbefore.
      assert (p y = false) as Hpy.
      { apply (Hbefore k y).
        - by apply lookup_lt_Some in Hk.
        - by apply lookup_app_l_Some. }
      unfold p in Hpy. by rewrite bool_decide_eq_true_2 in Hpy.
  - rewrite (bool_decide_eq_false_2 _ Hnin). simpl.
    apply bool_decide_eq_true_2.
    rewrite findIndex_from_app.
    + simpl. rewrite bool_decide_eq_true_2 by done. lia.
    + intros y Hy. apply bool_decide_eq_false_2. intros Heq.
      apply Hnin. rewrite <- Heq. by apply list_elem_of_fmap_2.
Qed.

Lemma filter_from_keep_first (pre xs : list A) :
  filter_from (Z.of_nat (length pre))
    (λ index x,
       bool_decide (index = findIndex (λ f, bool_decide (id f = id x))
                                      (pre ++ xs)))
    xs
  = keep_first id (reverse (id <$> pre)) xs.
Proof.
  revert pre. induction xs as [|x xs IH]; intros pre; simpl; [done|].
  rewrite first_index_keep.
  assert (id x ∈ reverse (id <$> pre) ↔ id x ∈ id <$> pre) as Hrev
    by apply elem_of_reverse.
  specialize (IH (pre ++ [x])).
  rewrite length_app, Nat2Z.inj_add, <- app_assoc in IH.
  change (Z.of_nat (length [x])) with 1 in IH.
  change ([x] ++ xs) with (x :: xs) in IH.
  rewrite fmap_app, reverse_app in IH.
  change (reverse (id <$> [x])) with [id x] in IH.
  change ([id x] ++ reverse (id <$> pre))
    with (id x :: reverse (id <$> pre)) in IH.
  rewrite IH.
  destruct (decide (id x ∈ id <$> pre)) as [Hin|Hnin].
  - rewrite (bool_decide_eq_true_2 _ Hin). simpl.
    by rewrite bool_decide_eq_true_2 by by apply Hrev.
  - rewrite (bool_decide_eq_false_2 _ Hnin). simpl.
    rewrite bool_decide_eq_false_2; [done|]. by rewrite Hrev.
Qed.

Lemma unique_by_id_keep_first (self : list A) :
  unique_by_id id self = keep_first id [] self.
Proof. apply (filter_from_keep_first []). Qed.

Lemma keep_first_sublist (seen : list string) (xs : list A) :
  keep_first id seen xs `sublist_of` xs.
Proof.
  revert seen. induction xs as [|x xs IH]; intros seen; simpl; [done|].
  case_bool_decide; [by apply sublist_cons|by apply sublist_skip].
Qed.

Lemma keep_first_fresh (seen : list string) (xs : list A) (y : A) :
  y ∈ keep_first id seen xs → id y ∉ seen.
Proof.
  revert seen. induction xs as [|x xs IH]; intros seen; simpl.
  - intros Hy. by apply elem_of_nil in Hy.
  - case_bool_decide as Hx.
    + intros Hy Hs. apply (IH _ Hy). by right.
    + intros Hy. apply elem_of_cons in Hy as [->|Hy]; [done|].
      intros Hs. apply (IH _ Hy). by right.
Qed.

Lemma keep_first_NoDup (seen : list string) (xs : list A) :
  NoDup (id <$> keep_first id seen xs).
Proof.
  revert seen. induction xs as [|x xs IH]; intros seen; simpl.
  - constructor.
  - case_bool_decide as Hx; [apply IH|].
    rewrite fmap_cons. constructor; [|apply IH].
    intros Hin. apply list_elem_of_fmap in Hin as (y & Hy & Hin).
    apply keep_first_fresh in Hin. apply Hin. rewrite <- Hy. left.
Qed.

Lemma keep_first_covers (seen : list string) (xs : list A) (x : A) :
  x ∈ xs → id x ∈ seen ∨ ∃ y, y ∈ keep_first id seen xs ∧ id y = id x.
Proof.
  revert seen. induction xs as [|z xs IH]; intros seen Hx; simpl.
  - by apply elem_of_nil in Hx.
  - apply elem_of_cons in Hx as [->|Hx].
    + case_bool_decide as Hz; [by left|].
      right. exists z. split; [left|done].
    + destruct (IH (id z :: seen) Hx) as [Hs|(y & Hy & Heq)].
      * apply elem_of_cons in Hs as [Hs|Hs]; [|by left].
        case_bool_decide as Hz; [left; by rewrite Hs|].
        right. exists z. split; [left|done].
      * right. exists y. split; [|done].
        case_bool_decide; [done|by right].
Qed.

Lemma keep_first_first (seen : list string) (pre : list A) (x : A)
    (post : list A) :
  id x ∉ seen → (∀ y, y ∈ pre → id y ≠ id x) →
  x ∈ keep_first id seen (pre ++ x :: post).
Proof.
  revert seen. induction pre as [|z pre IH]; intros seen Hs Hpre; simpl.
  - rewrite bool_decide_eq_false_2 by done. left.
  - assert (x ∈ keep_first id (id z :: seen) (pre ++ x :: post)) as Hin.
    { apply IH.
      - intros Hin. apply elem_of_cons in Hin as [Heq|Hin]; [|done].
        apply (Hpre z); [left|done].
      - intros y Hy. apply Hpre. by right. }
    case_bool_decide; [done|by right].
Qed.

Lemma keep_first_id (seen : list string) (xs : list A) :
  NoDup (id <$> xs) → (∀ x, x ∈ xs → id x ∉ seen) →
  keep_first id seen xs = xs.
Proof.
  revert seen. induction xs as [|x xs IH]; intros seen Hnd Hs; simpl; [done|].
  rewrite fmap_cons in Hnd. apply NoDup_cons in Hnd as [Hx Hnd].
  rewrite bool_decide_eq_false_2 by (apply Hs; left).
  f_equal. apply IH; [done|].
  intros y Hy Hin. apply elem_of_cons in Hin as [Heq|Hin].
  - apply Hx. rewrite <- Heq. by apply list_elem_of_fmap_2.
  - apply (Hs y); [by right|done].
Qed.

(** X1. The removal of duplicates of the initial fetch keeps, of the rows
    with one identifier, the first: the result is a sublist of the input
    with pairwise distinct identifiers, every identifier of the input is
    still there, a row that no earlier row shares its identifier with is
    kept, and an input without duplicates comes back as it is. *)
Theorem unique_by_id_first_wins (self : list A) :
  unique_by_id id self `sublist_of` self
  ∧ NoDup (id <$> unique_by_id id self)
  ∧ (∀ x, x ∈ self → ∃ y, y ∈ unique_by_id id self ∧ id y = id x)
  ∧ (∀ pre x post, self = pre ++ x :: post →
       (∀ y, y ∈ pre → id y ≠ id x) → x ∈ unique_by_id id self)
  ∧ (NoDup (id <$> self) → unique_by_id id self = self).
Proof.
  rewrite unique_by_id_keep_first. split_and!.
  - apply keep_first_sublist.
  - apply keep_first_NoDup.
  - intros x Hx. destruct (keep_first_covers [] self x Hx) as [Hs|?]; [|done].
    by apply elem_of_nil in Hs.
  - intros pre x post -> Hpre. apply keep_first_first; [|done].
    apply not_elem_of_nil.
  - intros Hnd. apply keep_first_id; [done|].
    intros x _. apply not_elem_of_nil.
Qed.
End Unique.

Lemma unique_by_id_witness :
  unique_by_id Todo.id [milk; taxes; milk_u9] = [milk; taxes]
  ∧ milk ∈ unique_by_id Todo.id [milk; taxes; milk_u9]
  ∧ unique_by_id Todo.id [milk; taxes] = [milk; taxes].
Proof.
  pose proof (unique_by_id_first_wins Todo.id [milk; taxes; milk_u9])
    as (_ & _ & _ & Hfirst & _).
  pose proof (unique_by_id_first_wins Todo.id [milk; taxes])
    as (_ & _ & _ & _ & Hid).
  split_and!.
  - reflexivity.
  - apply (Hfirst [] milk [taxes; milk_u9]); [reflexivity|].
    intros y Hy. by apply elem_of_nil in Hy.
  - apply Hid. apply (bool_decide_unpack (NoDup _)). vm_compute. exact I.
Defined.

(** ** useTodos: the initial fetch *)

Lemma NoDup_fmap_eq {A B} (f : A → B) (l : list A) (x y : A) :
  NoDup (f <$> l) → x ∈ l → y ∈ l → f x = f y → x = y.
Proof.
  induction l as [|z l IH]; intros Hnd Hx Hy Heq.
  - by apply elem_of_nil in Hx.
  - rewrite fmap_cons in Hnd. apply NoDup_cons in Hnd as [Hz Hnd].
    apply elem_of_cons in Hx as [->|Hx]; apply elem_of_cons in Hy as [->|Hy].
    + done.
    + destruct Hz. rewrite Heq. by apply list_elem_of_fmap_2.
    + destruct Hz. rewrite <- Heq. by apply list_elem_of_fmap_2.
    + by apply IH.
Qed.

Lemma keep_first_app {A} (id : A → string) (seen : list string)
    (xs ys : list A) :
  keep_first id seen (xs ++ ys)
  = keep_first id seen xs
    ++ keep_first id (reverse (id <$> xs) ++ seen) ys.
Proof.
  revert seen. induction xs as [|x xs IH]; intros seen; simpl; [done|].
  rewrite IH, reverse_cons, <- app_assoc. simpl.
  by case_bool_decide.
Qed.

Lemma keep_first_filter {A} (id : A → string) (seen : list string)
    (xs : list A) :
  NoDup (id <$> xs) →
  keep_first id seen xs = filter (λ x, id x ∉ seen) xs.
Proof.
  revert seen. induction xs as [|x xs IH]; intros seen Hnd; simpl; [done|].
  rewrite fmap_cons in Hnd. apply NoDup_cons in Hnd as [Hx Hnd].
  rewrite filter_cons, (IH _ Hnd).
  assert (filter (λ y, id y ∉ id x :: seen) xs
          = filter (λ y, id y ∉ seen) xs) as ->.
  { clear IH. induction xs as [|y xs IHxs]; [done|].
    rewrite fmap_cons in Hx, Hnd.
    apply not_elem_of_cons in Hx as [Hxy Hx].
    apply NoDup_cons in Hnd as [_ Hnd].
    rewrite !filter_cons, (IHxs Hx Hnd).
    destruct (decide (id y ∉ seen)) as [Hy|Hy].
    - rewrite decide_True; [done|].
      rewrite not_elem_of_cons. split; [congruence|done].
    - rewrite decide_False; [done|].
      intros Hn. apply Hy. by apply not_elem_of_cons in Hn as [_ ?]. }
  case_bool_decide as Hs.
  - by rewrite decide_False by (intros Hn; by apply Hn).
  - by rewrite decide_True.
Qed.

Lemma list_filter_iff_in {A} (P Q : A → Prop)
    `{!∀ x, Decision (P x), !∀ x, Decision (Q x)} (l : list A) :
  (∀ x, x ∈ l → P x ↔ Q x) → filter P l = filter Q l.
Proof.
  induction l as [|a l IH]; intros Hiff; [done|].
  rewrite !filter_cons, IH by (intros x Hx; apply Hiff; by right).
  destruct (decide (P a)) as [Ha|Ha].
  - by rewrite decide_True by (apply Hiff; [left|done]).
  - rewrite decide_False; [done|]. intros Hq. apply Ha, Hiff; [left|done].
Qed.

Lemma fetchTodos_run (uid : string) (w : World) :
  user w = Some uid →
  requests_pass 2 w →
  todos (fetchTodos w).2
  = unique_by_id Todo.id (owned_todos uid w ++ shared_todos uid w)
  ∧ db_todos (fetchTodos w).2 = db_todos w
  ∧ toasts (fetchTodos w).2 = toasts w.
Proof.
  intros Hu Hp. unfold fetchTodos, supabase_select, next_fails, answered.
  run_hook. rewrite Hu. unfold requests_pass in Hp.
  destruct (faults w) as [|b1 [|b2 fs]]; simpl in *.
  - done.
  - apply Forall_cons in Hp as [-> _]. done.
  - apply Forall_cons in Hp as [-> Hp]. apply Forall_cons in Hp as [-> _].
    done.
Qed.

(** X2. The initial fetch of the todos. When the backend answers both
    reads, the store is replaced, whatever it held, by the rows the user
    owns followed by the rows shared with the user, without the second
    copy of a row that is both: the identifiers of the store are pairwise
    distinct, every entry is a row of the backend the user owns or is
    shared, and every such row has its identifier in the store. When the
    identifiers of the table are distinct the store is the owned rows
    followed by the shared rows of other owners. The tables are not
    written and no notification is shown. *)
Theorem fetchTodos_loads_visible (uid : string) (w : World) :
  user w = Some uid →
  requests_pass 2 w →
  let w' := (fetchTodos w).2 in
  let visible := λ t,
    Todo.user_id t = uid ∨ uid ∈ or_empty (Todo.shared_with t) in
  NoDup (Todo.id <$> todos w')
  ∧ (∀ t, t ∈ todos w' → t ∈ db_todos w ∧ visible t)
  ∧ (∀ t, t ∈ db_todos w → visible t →
       ∃ t', t' ∈ todos w' ∧ Todo.id t' = Todo.id t)
  ∧ (NoDup (Todo.id <$> db_todos w) →
       todos w'
       = owned_todos uid w
         ++ filter (λ t, Todo.user_id t ≠ uid) (shared_todos uid w))
  ∧ db_todos w' = db_todos w
  ∧ toasts w' = toasts w.
Proof.
  intros Hu Hp w' visible. subst w'.
  destruct (fetchTodos_run uid w Hu Hp) as (Hst & Hdb & Ht).
  rewrite Hst, Hdb, Ht.
  assert (unique_by_id Todo.id (owned_todos uid w ++ shared_todos uid w)
          `sublist_of` owned_todos uid w ++ shared_todos uid w) as Hsub.
  { rewrite unique_by_id_keep_first. apply keep_first_sublist. }
  assert (NoDup (Todo.id <$> unique_by_id Todo.id
                   (owned_todos uid w ++ shared_todos uid w))) as Hnd.
  { rewrite unique_by_id_keep_first. apply keep_first_NoDup. }
  assert (∀ x, x ∈ owned_todos uid w ++ shared_todos uid w →
            ∃ y, y ∈ unique_by_id Todo.id
                       (owned_todos uid w ++ shared_todos uid w)
                 ∧ Todo.id y = Todo.id x) as Hcov.
  { intros x Hx. rewrite unique_by_id_keep_first.
    destruct (keep_first_covers Todo.id [] _ x Hx) as [Hs|?]; [|done].
    by apply elem_of_nil in Hs. }
  assert (∀ t, t ∈ owned_todos uid w ++ shared_todos uid w
               ↔ t ∈ db_todos w ∧ visible t) as Hall.
  { intros t. unfold owned_todos, shared_todos, visible.
    rewrite elem_of_app, !list_elem_of_filter. tauto. }
  split_and!; [done| | | |done..].
  - intros t Ht'. apply Hall. by eapply elem_of_sublist.
  - intros t Hin Hvis. apply Hcov, Hall. done.
  - intros Hdbnd. rewrite unique_by_id_keep_first, keep_first_app.
    assert (NoDup (Todo.id <$> owned_todos uid w)) as Hnd1.
    { eapply sublist_NoDup; [exact Hdbnd|].
      apply fmap_sublist, sublist_filter. }
    assert (NoDup (Todo.id <$> shared_todos uid w)) as Hnd2.
    { eapply sublist_NoDup; [exact Hdbnd|].
      apply fmap_sublist, sublist_filter. }
    rewrite (keep_first_id _ _ _ Hnd1)
      by (intros; apply not_elem_of_nil).
    f_equal. rewrite app_nil_r, (keep_first_filter _ _ _ Hnd2).
    apply list_filter_iff_in. intros t Ht'.
    apply list_elem_of_filter in Ht' as [_ Ht'].
    rewrite elem_of_reverse. split.
    + intros Hnin Hown. apply Hnin. apply list_elem_of_fmap_2.
      by apply list_elem_of_filter.
    + intros Hne Hin. apply list_elem_of_fmap in Hin as (o & Hid & Ho).
      apply list_elem_of_filter in Ho as [Hown Ho].
      assert (t = o) by (by eapply (NoDup_fmap_eq Todo.id (db_todos w))).
      by subst o.
Qed.

Lemma fetchTodos_loads_visible_witness :
  let w := mkWorld [milk; taxes; milk_u9] [groceries] ∅ [] [] (Some "u9")
                   [taxes] [] ∅ [] in
  user w = Some "u9" ∧ requests_pass 2 w
  ∧ todos (fetchTodos w).2 = [milk_u9]
  ∧ NoDup (Todo.id <$> todos (fetchTodos w).2).
Proof.
  intros w.
  assert (user w = Some "u9") as Hu by reflexivity.
  assert (requests_pass 2 w) as Hp by constructor.
  split_and!; [exact Hu|exact Hp|reflexivity|].
  exact (proj1 (fetchTodos_loads_visible "u9" w Hu Hp)).
Defined.

(** X3. A failed read of the initial fetch leaves the store as it was and
    shows the notification of that read; after a failed first read the
    second is not sent. *)
Theorem fetchTodos_failure (uid : string) (w : World) :
  user w = Some uid →
  (next_fails w = true →
     todos (fetchTodos w).2 = todos w
     ∧ faults (fetchTodos w).2 = tail (faults w)
     ∧ toasts (fetchTodos w).2
       = toasts w ++ [toast_error_msg "Failed to fetch todos"])
  ∧ (∀ fs, faults w = false :: true :: fs →
       todos (fetchTodos w).2 = todos w
       ∧ faults (fetchTodos w).2 = fs
       ∧ toasts (fetchTodos w).2
         = toasts w ++ [toast_error_msg "Failed to fetch shared todos"]).
Proof.
  intros Hu. unfold fetchTodos, supabase_select, next_fails, answered.
  run_hook. rewrite Hu. split.
  - intros Hf. by rewrite Hf.
  - intros fs Hf. by rewrite Hf.
Qed.

Lemma fetchTodos_failure_witness :
  let w := session [milk; taxes] [false; true] ∅ in
  user w = Some "u1" ∧ faults w = [false; true]
  ∧ todos (fetchTodos w).2 = [milk; taxes]
  ∧ toasts (fetchTodos w).2
    = [toast_error_msg "Failed to fetch shared todos"].
Proof.
  intros w.
  assert (user w = Some "u1") as Hu by reflexivity.
  destruct (proj2 (fetchTodos_failure "u1" w Hu) [] eq_refl) as (Ht & _ & Hm).
  split_and!; [exact Hu|reflexivity|exact Ht|exact Hm].
Defined.

(** ** useFolders.updateFolder and createFolder *)

(** X4. [updateFolder] is not optimistic and writes the name and the
    description only. Whatever the backend answers, no row changes its
    identifier, its owner or its sharing arrays, and no todo changes. When
    the write is rejected the folders of the state are as before and the
    failure is notified. When it is accepted the rows with the identifier
    have the new name and description, and the entries of the state with
    that identifier are the folder that was passed, sharing arrays
    included. *)
Theorem updateFolder_writes_name_only (folder : Folder.t) (w : World) :
  let w' := (updateFolder folder w).2 in
  (Folder.id <$> db_folders w' = Folder.id <$> db_folders w
   ∧ Folder.user_id <$> db_folders w' = Folder.user_id <$> db_folders w
   ∧ Folder.shared_with <$> db_folders w' = Folder.shared_with <$> db_folders w
   ∧ Folder.can_edit <$> db_folders w' = Folder.can_edit <$> db_folders w
   ∧ db_todos w' = db_todos w ∧ todos w' = todos w)
  ∧ (is_Some (user w) → next_fails w = true →
       folders w' = folders w ∧ db_folders w' = db_folders w
       ∧ toasts w' = toasts w ++ [toast_error_msg "Failed to update folder"])
  ∧ (is_Some (user w) → next_fails w = false →
       (∀ F, F ∈ db_folders w' → Folder.id F = Folder.id folder →
          Folder.name F = Folder.name folder
          ∧ Folder.description F = Folder.description folder)
       ∧ (∀ F, F ∈ folders w' → Folder.id F = Folder.id folder → F = folder)
       ∧ length (folders w') = length (folders w)
       ∧ toasts w'
         = toasts w ++ [toast_success_msg "Folder updated successfully!"]).
Proof.
  intros w'. subst w'. unfold updateFolder, next_fails. run_hook.
  assert (∀ (g : Folder.t → option (list string)) l,
            (∀ p r, g (FolderUpdate.apply
                         (FolderUpdate.mk (Some (Folder.name folder)) p None None)
                         r) = g r) →
            g <$> map (λ row, if bool_decide (Folder.id row = Folder.id folder)
                        then FolderUpdate.apply
                               (FolderUpdate.mk (Some (Folder.name folder))
                                  (Some (Folder.description folder)) None None)
                               row
                        else row) l = g <$> l) as Hkeep.
  { intros g l Hg. rewrite <- list_fmap_compose. apply list_fmap_ext.
    intros _ r _. simpl. case_bool_decide; [apply Hg|done]. }
  assert (∀ (g : Folder.t → string) l,
            (∀ p r, g (FolderUpdate.apply
                         (FolderUpdate.mk (Some (Folder.name folder)) p None None)
                         r) = g r) →
            g <$> map (λ row, if bool_decide (Folder.id row = Folder.id folder)
                        then FolderUpdate.apply
                               (FolderUpdate.mk (Some (Folder.name folder))
                                  (Some (Folder.description folder)) None None)
                               row
                        else row) l = g <$> l) as Hkeeps.
  { intros g l Hg. rewrite <- list_fmap_compose. apply list_fmap_ext.
    intros _ r _. simpl. case_bool_decide; [apply Hg|done]. }
  split; [|split].
  - destruct (user w); simpl; [|done].
    destruct (faults w) as [|[] fs]; simpl; split_and!; try done;
      first [by apply Hkeeps | by apply Hkeep].
  - intros [u Hu] Hf. rewrite Hu. simpl.
    destruct (faults w) as [|[] fs]; simpl in *; done.
  - intros [u Hu] Hf. rewrite Hu. simpl.
    assert (∀ l F,
      F ∈ map (λ row, if bool_decide (Folder.id row = Folder.id folder)
                 then FolderUpdate.apply
                        (FolderUpdate.mk (Some (Folder.name folder))
                           (Some (Folder.description folder)) None None) row
                 else row) l →
      Folder.id F = Folder.id folder →
      Folder.name F = Folder.name folder
      ∧ Folder.description F = Folder.description folder) as Hdb.
    { intros l F HF Hid. apply list_elem_of_fmap in HF as (r & -> & _).
      revert Hid. case_bool_decide; [done|]. simpl. done. }
    assert (∀ l F,
      F ∈ map (λ f, if bool_decide (Folder.id f = Folder.id folder)
                    then folder else f) l →
      Folder.id F = Folder.id folder → F = folder) as Hloc.
    { intros l F HF Hid. apply list_elem_of_fmap in HF as (r & -> & _).
      revert Hid. by case_bool_decide. }
    destruct (faults w) as [|[] fs]; simpl in *; try done.
    all: split_and!; [apply Hdb|apply Hloc|apply length_map|done].
Qed.

Lemma updateFolder_writes_name_only_witness :
  let renamed := Folder.mk "f1" "2025-02-06" "Food" None "u1"
                           (Some ["u7"]) (Some []) in
  let w := session [milk] [] ∅ in
  let w' := (updateFolder renamed w).2 in
  is_Some (user w) ∧ next_fails w = false
  ∧ db_folders w' = [Folder.mk "f1" "2025-02-06" "Food" None "u1"
                               (Some []) (Some [])]
  ∧ folders w' = [renamed]
  ∧ ∀ F, F ∈ folders w' → Folder.id F = "f1" → F = renamed.
Proof.
  intros renamed w w'.
  assert (is_Some (user w)) as Hu by (by eexists).
  assert (next_fails w = false) as Hf by reflexivity.
  destruct (updateFolder_writes_name_only renamed w) as (_ & _ & Hok).
  split_and!; [exact Hu|exact Hf|reflexivity|reflexivity|].
  exact (proj1 (proj2 (Hok Hu Hf))).
Defined.

(** X5. [createFolder] adds one folder, owned by the signed-in user: when
    the insert is accepted the new row is appended to the table and to the
    folders of the state, with the name given and with empty sharing
    arrays unless the data carries some; when it is rejected neither
    changes and the failure is notified. *)
Theorem createFolder_adds_own_folder (assigned_id assigned_at : string)
    (folderData : FolderData.t) (uid : string) (w : World) :
  user w = Some uid →
  let w' := (createFolder assigned_id assigned_at folderData w).2 in
  (next_fails w = false →
     ∃ row, db_folders w' = db_folders w ++ [row]
       ∧ folders w' = folders w ++ [row]
       ∧ Folder.user_id row = uid
       ∧ Folder.name row = FolderData.name folderData
       ∧ (FolderData.shared_with folderData = None →
          Folder.shared_with row = Some [])
       ∧ (FolderData.can_edit folderData = None →
          Folder.can_edit row = Some [])
       ∧ toasts w'
         = toasts w ++ [toast_success_msg "Folder created successfully!"])
  ∧ (next_fails w = true →
       db_folders w' = db_folders w ∧ folders w' = folders w
       ∧ toasts w' = toasts w ++ [toast_error_msg "Failed to create folder"]).
Proof.
  intros Hu w'. subst w'.
  unfold createFolder, supabase_insert_folder, answered. run_hook.
  rewrite Hu. split; intros Hf; rewrite Hf; simpl; [|done].
  eexists. split_and!; try reflexivity.
  - intros Hs. simpl. by rewrite Hs.
  - intros Hs. simpl. by rewrite Hs.
Qed.

Lemma createFolder_adds_own_folder_witness :
  let w := session [] [] ∅ in
  let form := FolderData.mk None None "Work" (Some (Some "")) None None in
  let w' := (createFolder "f2" "2025-02-08" form w).2 in
  user w = Some "u1" ∧ next_fails w = false
  ∧ folders w' = [groceries;
                  Folder.mk "f2" "2025-02-08" "Work" (Some "") "u1"
                            (Some []) (Some [])]
  ∧ ∃ row, db_folders w' = db_folders w ++ [row] ∧ Folder.user_id row = "u1".
Proof.
  intros w form w'.
  assert (user w = Some "u1") as Hu by reflexivity.
  assert (next_fails w = false) as Hf by reflexivity.
  destruct (proj1 (createFolder_adds_own_folder "f2" "2025-02-08" form "u1" w
                     Hu) Hf) as (row & Hdb & _ & Hown & _).
  split_and!; [exact Hu|exact Hf|reflexivity|].
  exists row. by split.
Defined.

(** ** useTodos.addTodo *)

Lemma inherited_sharing_run (todoData : TodoData.t) (w : World) :
  inherited_sharing todoData w
  = match truthy_folder_id (TodoData.folder_id todoData) with
    | None => (Normal ([], []), w)
    | Some fid =>
        (Normal
           (if next_fails w then ([], [])
            else match single (filter (λ f, Folder.id f = fid) (db_folders w))
                 with
                 | Some folder => (or_empty (Folder.shared_with folder),
                                   or_empty (Folder.can_edit folder))
                 | None => ([], [])
                 end),
         answered w)
    end.
Proof.
  unfold inherited_sharing, supabase_select.
  destruct (truthy_folder_id _) as [fid|]; [|done]. run_hook.
  destruct (next_fails w); [done|].
  by destruct (single _).
Qed.

(** X6. [addTodo] with the backend accepting its requests appends one row
    to the table and to the store: it is owned by the signed-in user, has
    the title and the folder given, and its sharing arrays are those of the
    row of its folder (an absent array counting as empty), whatever arrays
    the data carried; they are empty when the todo has no folder or when
    the folder has no single row. *)
Theorem addTodo_inherits_sharing (assigned_id assigned_at : string)
    (todoData : TodoData.t) (uid : string) (w : World) :
  user w = Some uid →
  requests_pass 2 w →
  let w' := (addTodo assigned_id assigned_at todoData w).2 in
  ∃ row, db_todos w' = db_todos w ++ [row]
    ∧ todos w' = todos w ++ [row]
    ∧ toasts w' = toasts w ++ [toast_success_msg "Todo added successfully!"]
    ∧ Todo.user_id row = uid
    ∧ Todo.title row = TodoData.title todoData
    ∧ Todo.folder_id row = default None (TodoData.folder_id todoData)
    ∧ (∀ fid folder,
         truthy_folder_id (TodoData.folder_id todoData) = Some fid →
         filter (λ f, Folder.id f = fid) (db_folders w) = [folder] →
         Todo.shared_with row = Some (or_empty (Folder.shared_with folder))
         ∧ Todo.can_edit row = Some (or_empty (Folder.can_edit folder)))
    ∧ (truthy_folder_id (TodoData.folder_id todoData) = None →
         Todo.shared_with row = Some [] ∧ Todo.can_edit row = Some [])
    ∧ (∀ fid,
         truthy_folder_id (TodoData.folder_id todoData) = Some fid →
         single (filter (λ f, Folder.id f = fid) (db_folders w)) = None →
         Todo.shared_with row = Some [] ∧ Todo.can_edit row = Some []).
Proof.
  intros Hu Hp w'. subst w'.
  unfold addTodo, addTodo_request, addTodo_settle. run_hook. rewrite Hu.
  rewrite inherited_sharing_run.
  unfold supabase_insert_todo, next_fails, answered. unfold requests_pass in Hp.
  destruct (truthy_folder_id (TodoData.folder_id todoData)) as [fid|] eqn:Hfid.
  - destruct (faults w) as [|b1 [|b2 fs]]; simpl in *.
    + eexists. split_and!; try reflexivity; try done.
      * intros fid' folder [= <-] Hrow. by rewrite Hrow.
      * intros fid' [= <-] Hrow. by rewrite Hrow.
    + apply Forall_cons in Hp as [-> _]. simpl.
      eexists. split_and!; try reflexivity; try done.
      * intros fid' folder [= <-] Hrow. by rewrite Hrow.
      * intros fid' [= <-] Hrow. by rewrite Hrow.
    + apply Forall_cons in Hp as [-> Hp]. apply Forall_cons in Hp as [-> _].
      simpl. eexists. split_and!; try reflexivity; try done.
      * intros fid' folder [= <-] Hrow. by rewrite Hrow.
      * intros fid' [= <-] Hrow. by rewrite Hrow.
  - destruct (faults w) as [|b1 fs]; simpl in *.
    + eexists. split_and!; try reflexivity; done.
    + apply Forall_cons in Hp as [-> _]. simpl.
      eexists. split_and!; try reflexivity; done.
Qed.

Lemma addTodo_inherits_sharing_witness :
  let w := shared_session [] in
  let w' := (addTodo "t3" "2025-02-09" (todo_form "Eggs" (Some "f1")) w).2 in
  user w = Some "u1" ∧ requests_pass 2 w
  ∧ todos w' = [milk; Todo.mk "t3" "2025-02-09" "Eggs" None false "u1"
                              (Some "f1") (Some ["u2"]) (Some ["u2"])]
  ∧ ∃ row, db_todos w' = db_todos w ++ [row] ∧ Todo.user_id row = "u1".
Proof.
  intros w w'.
  assert (user w = Some "u1") as Hu by reflexivity.
  assert (requests_pass 2 w) as Hp by constructor.
  destruct (addTodo_inherits_sharing "t3" "2025-02-09"
              (todo_form "Eggs" (Some "f1")) "u1" w Hu Hp)
    as (row & Hdb & _ & _ & Hown & _).
  split_and!; [exact Hu|exact Hp|reflexivity|].
  exists row. by split.
Defined.

(** X7. The failures of [addTodo]. The insert is the second request
    when the data names a folder to read, and the first otherwise. When it
    is rejected, the table and the store are as before and the failure is
    notified. When the read of the folder is rejected and the insert
    accepted, the todo is created all the same, filed under the folder but
    with empty sharing arrays, and the success is notified. *)
Theorem addTodo_failures (assigned_id assigned_at : string)
    (todoData : TodoData.t) (uid : string) (w : World) :
  user w = Some uid →
  let w' := (addTodo assigned_id assigned_at todoData w).2 in
  let folder := truthy_folder_id (TodoData.folder_id todoData) in
  let reads := match folder with Some _ => 1%nat | None => 0%nat end in
  (faults w !! reads = Some true →
     db_todos w' = db_todos w ∧ todos w' = todos w
     ∧ toasts w' = toasts w ++ [toast_error_msg "Failed to add todo"])
  ∧ (∀ fid fs, folder = Some fid → faults w = true :: fs →
       head fs ≠ Some true →
       ∃ row, db_todos w' = db_todos w ++ [row]
         ∧ todos w' = todos w ++ [row]
         ∧ Todo.folder_id row = Some fid
         ∧ Todo.shared_with row = Some [] ∧ Todo.can_edit row = Some []
         ∧ toasts w'
           = toasts w ++ [toast_success_msg "Todo added successfully!"]).
Proof.
  intros Hu w' folder reads. subst w' folder reads.
  unfold addTodo, addTodo_request, addTodo_settle. run_hook. rewrite Hu.
  rewrite inherited_sharing_run.
  unfold supabase_insert_todo, next_fails, answered.
  destruct (truthy_folder_id (TodoData.folder_id todoData)) as [fid|] eqn:Hfid.
  - assert (TodoData.folder_id todoData = Some (Some fid)) as Hraw.
    { unfold truthy_folder_id in Hfid.
      destruct (TodoData.folder_id todoData) as [[s|]|]; try done.
      revert Hfid. case_bool_decide; [done|]. by intros [= ->]. }
    split.
    + intros Hf. destruct (faults w) as [|b [|b2 fs]]; try done.
      simpl in Hf. injection Hf as ->. by simpl.
    + intros fid' fs [= <-] Hf Hhead. rewrite Hf. simpl.
      destruct fs as [|[] fs]; simpl in *; try done.
      all: eexists; split_and!; try reflexivity; simpl; by rewrite Hraw.
  - split; [|done].
    intros Hf. destruct (faults w) as [|b fs]; [done|].
    simpl in Hf. injection Hf as ->. by simpl.
Qed.

Lemma addTodo_failures_witness :
  let w := shared_session [true; false] in
  let w' := (addTodo "t3" "2025-02-09" (todo_form "Eggs" (Some "f1")) w).2 in
  let wr := shared_session [false; true] in
  let wn := shared_session [true] in
  (user w = Some "u1" ∧ faults w = [true; false]
   ∧ truthy_folder_id (TodoData.folder_id (todo_form "Eggs" (Some "f1")))
     = Some "f1"
   ∧ truthy_folder_id (TodoData.folder_id (todo_form "Eggs" None)) = None
   ∧ faults wr !! 1%nat = Some true ∧ faults wn !! 0%nat = Some true)
  ∧ todos w' = [milk; Todo.mk "t3" "2025-02-09" "Eggs" None false "u1"
                              (Some "f1") (Some []) (Some [])]
  ∧ (∃ row, db_todos w' = db_todos w ++ [row]
            ∧ Todo.shared_with row = Some [])
  ∧ (db_todos (addTodo "t3" "2025-02-09" (todo_form "Eggs" (Some "f1")) wr).2
     = db_todos wr
     ∧ todos (addTodo "t3" "2025-02-09" (todo_form "Eggs" (Some "f1")) wr).2
       = todos wr)
  ∧ (db_todos (addTodo "t3" "2025-02-09" (todo_form "Eggs" None) wn).2
     = db_todos wn
     ∧ todos (addTodo "t3" "2025-02-09" (todo_form "Eggs" None) wn).2
       = todos wn
     ∧ toasts (addTodo "t3" "2025-02-09" (todo_form "Eggs" None) wn).2
       = [toast_error_msg "Failed to add todo"]).
Proof.
  intros w w' wr wn.
  assert (user w = Some "u1") as Hu by reflexivity.
  assert (head [false] ≠ Some true) as Hhead by discriminate.
  destruct (proj2 (addTodo_failures "t3" "2025-02-09"
                     (todo_form "Eggs" (Some "f1")) "u1" w Hu)
                  "f1" [false] eq_refl eq_refl Hhead)
    as (row & Hdb & _ & _ & Hsw & _).
  destruct (proj1 (addTodo_failures "t3" "2025-02-09"
                     (todo_form "Eggs" (Some "f1")) "u1" wr eq_refl) eq_refl)
    as (Hdbr & Hstr & _).
  destruct (proj1 (addTodo_failures "t3" "2025-02-09"
                     (todo_form "Eggs" None) "u1" wn eq_refl) eq_refl)
    as (Hdbn & Hstn & Htn).
  split_and!; try reflexivity; try assumption.
  exists row. by split.
Defined.

(** X8. [addTodo] and the realtime event of its own insert. When the event
    is handled after [addTodo] has appended the row, the row is replaced in
    place and the store holds it once. When the event is handled between
    the answer of the insert and the append, the handler appends the row
    and [addTodo] appends it again: the store holds it twice. *)
Theorem addTodo_then_insert_event (assigned_id assigned_at : string)
    (todoData : TodoData.t) (uid : string) (w : World) :
  user w = Some uid →
  requests_pass 2 w →
  (∀ t, t ∈ todos w → Todo.id t ≠ default assigned_id (TodoData.id todoData)) →
  ∃ row w1,
    addTodo_request assigned_id assigned_at todoData uid w
    = (Normal (data_of [row]), w1)
    ∧ todos w1 = todos w
    ∧ todos (on_postgres_changes (insertion_event row)
               (addTodo_settle (data_of [row]) w1).2).2
      = todos w ++ [row]
    ∧ todos (addTodo_settle (data_of [row])
               (on_postgres_changes (insertion_event row) w1).2).2
      = todos w ++ [row; row].
Proof.
  intros Hu Hp Hfresh.
  unfold addTodo_request. run_hook. rewrite inherited_sharing_run.
  unfold supabase_insert_todo, next_fails, answered, requests_pass in *.
  set (sharing := λ fid : string,
         match single (filter (λ f, Folder.id f = fid) (db_folders w)) with
         | Some folder => (or_empty (Folder.shared_with folder),
                           or_empty (Folder.can_edit folder))
         | None => ([], [])
         end).
  assert (∀ row l, Todo.id row = default assigned_id (TodoData.id todoData) →
            l = todos w →
            merge_row row (l ++ [row]) = l ++ [row]
            ∧ merge_row row l ++ [row] = l ++ [row; row]) as Hmerge.
  { intros row l Hid ->. split.
    - rewrite merge_row_present.
      + rewrite map_app. simpl. rewrite bool_decide_eq_true_2 by done.
        f_equal. rewrite <- (map_id (todos w)) at 2.
        apply map_ext_in. intros t Ht. apply list_elem_of_In in Ht.
        rewrite bool_decide_eq_false_2; [done|].
        rewrite Hid. by apply Hfresh.
      + exists row. split; [|done]. apply elem_of_app. right. left.
    - rewrite merge_row_absent.
      + by rewrite <- app_assoc.
      + intros t Ht. rewrite Hid. by apply Hfresh. }
  destruct (truthy_folder_id (TodoData.folder_id todoData)) as [fid|].
  - destruct (faults w) as [|b1 [|b2 fs]]; simpl in *.
    + eexists _, _. split; [reflexivity|]. split; [done|].
      unfold addTodo_settle, on_postgres_changes. run_hook.
      by apply Hmerge.
    + apply Forall_cons in Hp as [-> _]. simpl.
      eexists _, _. split; [reflexivity|]. split; [done|].
      unfold addTodo_settle, on_postgres_changes. run_hook.
      by apply Hmerge.
    + apply Forall_cons in Hp as [-> Hp]. apply Forall_cons in Hp as [-> _].
      simpl. eexists _, _. split; [reflexivity|]. split; [done|].
      unfold addTodo_settle, on_postgres_changes. run_hook.
      by apply Hmerge.
  - destruct (faults w) as [|b1 fs]; simpl in *.
    + eexists _, _. split; [reflexivity|]. split; [done|].
      unfold addTodo_settle, on_postgres_changes. run_hook.
      by apply Hmerge.
    + apply Forall_cons in Hp as [-> _]. simpl.
      eexists _, _. split; [reflexivity|]. split; [done|].
      unfold addTodo_settle, on_postgres_changes. run_hook.
      by apply Hmerge.
Qed.

Lemma addTodo_then_insert_event_witness :
  let w := shared_session [] in
  let data := todo_form "Eggs" (Some "f1") in
  let eggs := Todo.mk "t3" "2025-02-09" "Eggs" None false "u1" (Some "f1")
                      (Some ["u2"]) (Some ["u2"]) in
  let w1 := (addTodo_request "t3" "2025-02-09" data "u1" w).2 in
  (user w = Some "u1" ∧ requests_pass 2 w
   ∧ ∀ t, t ∈ todos w → Todo.id t ≠ "t3")
  ∧ todos (addTodo_settle (data_of [eggs])
             (on_postgres_changes (insertion_event eggs) w1).2).2
    = [milk; eggs; eggs]
  ∧ ∃ row w2,
      addTodo_request "t3" "2025-02-09" data "u1" w
      = (Normal (data_of [row]), w2).
Proof.
  intros w data eggs w1.
  assert (user w = Some "u1") as Hu by reflexivity.
  assert (requests_pass 2 w) as Hp by constructor.
  assert (∀ t, t ∈ todos w → Todo.id t ≠ "t3") as Hfresh.
  { intros t Ht. apply list_elem_of_singleton in Ht. by subst t. }
  destruct (addTodo_then_insert_event "t3" "2025-02-09" data "u1" w Hu Hp
              Hfresh) as (row & w2 & Hreq & _).
  split_and!; [exact Hu|exact Hp|exact Hfresh|reflexivity|].
  by exists row, w2.
Defined.

Lemma addTodo_accepted (assigned_id assigned_at : string)
    (todoData : TodoData.t) (uid : string) (w : World) :
  user w = Some uid →
  requests_pass 2 w →
  let w' := (addTodo assigned_id assigned_at todoData w).2 in
  let sharing :=
    match truthy_folder_id (TodoData.folder_id todoData) with
    | None => ([], [])
    | Some fid =>
        match single (filter (λ f, Folder.id f = fid) (db_folders w)) with
        | Some folder => (or_empty (Folder.shared_with folder),
                          or_empty (Folder.can_edit folder))
        | None => ([], [])
        end
    end in
  let row := TodoInsert.row assigned_id assigned_at
               (new_todo todoData uid sharing.1 sharing.2) in
  db_todos w' = db_todos w ++ [row] ∧ todos w' = todos w ++ [row]
  ∧ toasts w' = toasts w ++ [toast_success_msg "Todo added successfully!"].
Proof.
  intros Hu Hp w'. subst w'.
  unfold addTodo, addTodo_request, addTodo_settle. run_hook. rewrite Hu.
  rewrite inherited_sharing_run.
  unfold supabase_insert_todo, next_fails, answered. unfold requests_pass in Hp.
  destruct (truthy_folder_id (TodoData.folder_id todoData)) as [fid|] eqn:Hfid.
  - destruct (faults w) as [|b1 [|b2 fs]]; simpl in *.
    + done.
    + apply Forall_cons in Hp as [-> _]. done.
    + apply Forall_cons in Hp as [-> Hp]. apply Forall_cons in Hp as [-> _].
      done.
  - destruct (faults w) as [|b1 fs]; simpl in *.
    + done.
    + apply Forall_cons in Hp as [-> _]. done.
Qed.

Lemma filter_map_same_id (f : Folder.t → Folder.t) (fid : string)
    (l : list Folder.t) :
  (∀ r, Folder.id (f r) = Folder.id r) →
  filter (λ r, Folder.id r = fid) (map f l)
  = map f (filter (λ r, Folder.id r = fid) l).
Proof.
  intros Hid. induction l as [|r l IH]; [done|]. simpl.
  rewrite !filter_cons, Hid, IH. by destruct (decide (Folder.id r = fid)).
Qed.

(** X9. A todo added to a folder after the folder was shared is shared
    too. After a successful [shareFolder(F, U, perm)] on a table that has
    one row for F, an accepted [addTodo] with the folder F appends a todo
    that has U in [shared_with], and in [can_edit] when perm is 'edit' or
    'manage'. *)
Theorem shared_folder_covers_new_todos (folder : Folder.t) (userId : string)
    (permission : Permission) (assigned_id assigned_at : string)
    (todoData : TodoData.t) (w w' : World) :
  succeeds (shareFolder folder userId permission)
           "Folder shared successfully!" w w' →
  (∃ row, filter (λ f, Folder.id f = Folder.id folder) (db_folders w) = [row]) →
  truthy_folder_id (TodoData.folder_id todoData) = Some (Folder.id folder) →
  requests_pass 2 w' →
  let w'' := (addTodo assigned_id assigned_at todoData w').2 in
  ∃ row, todos w'' = todos w' ++ [row]
    ∧ db_todos w'' = db_todos w' ++ [row]
    ∧ Todo.folder_id row = Some (Folder.id folder)
    ∧ userId ∈ or_empty (Todo.shared_with row)
    ∧ (permission = edit ∨ permission = manage →
       userId ∈ or_empty (Todo.can_edit row)).
Proof.
  intros Hs [row0 Hrow0] Hfid Hp w''. subst w''.
  destruct (shareFolder_succeeds_inv _ _ _ _ _ Hs)
    as (Hdbf & _ & _ & _ & _ & Huser).
  assert (is_Some (user w)) as [uid Hu].
  { destruct Hs as [Hrun Htoast]. revert Hrun Htoast.
    unfold shareFolder. run_hook.
    destruct (user w); [by eexists|].
    intros Hrun Htoast. inversion Hrun; subst w'.
    by apply app_singleton_neq in Htoast. }
  rewrite Hu in Huser.
  destruct (addTodo_accepted assigned_id assigned_at todoData uid w' Huser Hp)
    as (Hdb & Hst & _).
  rewrite Hfid in Hdb, Hst.
  rewrite Hdbf in Hdb, Hst.
  rewrite filter_map_same_id, Hrow0 in Hdb, Hst
    by (intros r; apply share_folder_row_id).
  simpl in Hdb, Hst.
  assert (Folder.id row0 = Folder.id folder) as Hid0.
  { assert (row0 ∈ filter (λ f, Folder.id f = Folder.id folder) (db_folders w))
      as Hin by (rewrite Hrow0; left).
    by apply list_elem_of_filter in Hin as [? _]. }
  destruct (share_folder_row_member folder userId permission row0 Hid0)
    as [Hsw Hce].
  assert (TodoData.folder_id todoData = Some (Some (Folder.id folder))) as Hraw.
  { unfold truthy_folder_id in Hfid.
    destruct (TodoData.folder_id todoData) as [[s|]|]; try done.
    revert Hfid. case_bool_decide; [done|]. by intros [= ->]. }
  eexists. split_and!; [exact Hst|exact Hdb|..].
  - simpl. by rewrite Hraw.
  - simpl. rewrite Hsw. simpl. apply Array_from_Set_add_elem.
  - intros Hg. simpl. rewrite Hce, (grants_edit_true _ Hg). simpl.
    apply Array_from_Set_add_elem.
Qed.

Lemma shared_folder_covers_new_todos_witness :
  let w := session [milk] [] ∅ in
  let eggs := todo_form "Eggs" (Some "f1") in
  let w' := (shareFolder groceries "u2" edit w).2 in
  let w'' := (addTodo "t3" "2025-02-09" eggs w').2 in
  let wm := (shareFolder groceries "u3" manage w).2 in
  let wm' := (addTodo "t3" "2025-02-09" eggs wm).2 in
  (succeeds (shareFolder groceries "u2" edit)
            "Folder shared successfully!" w w'
   ∧ succeeds (shareFolder groceries "u3" manage)
              "Folder shared successfully!" w wm
   ∧ requests_pass 2 w' ∧ requests_pass 2 wm)
  ∧ todos w'' = [milk; Todo.mk "t3" "2025-02-09" "Eggs" None false "u1"
                   (Some "f1") (Some ["u2"]) (Some ["u2"])]
  ∧ todos wm' = [milk; Todo.mk "t3" "2025-02-09" "Eggs" None false "u1"
                   (Some "f1") (Some ["u3"]) (Some ["u3"])]
  ∧ (∃ row, todos w'' = todos w' ++ [row]
       ∧ "u2" ∈ or_empty (Todo.shared_with row)
       ∧ "u2" ∈ or_empty (Todo.can_edit row))
  ∧ (∃ row, todos wm' = todos wm ++ [row]
       ∧ "u3" ∈ or_empty (Todo.shared_with row)
       ∧ "u3" ∈ or_empty (Todo.can_edit row)).
Proof.
  intros w eggs w' w'' wm wm'.
  assert (succeeds (shareFolder groceries "u2" edit)
                   "Folder shared successfully!" w w') as Hs
    by (split; vm_compute; reflexivity).
  assert (succeeds (shareFolder groceries "u3" manage)
                   "Folder shared successfully!" w wm) as Hm
    by (split; vm_compute; reflexivity).
  assert (requests_pass 2 w') as Hp by constructor.
  assert (requests_pass 2 wm) as Hpm by constructor.
  destruct (shared_folder_covers_new_todos groceries "u2" edit "t3"
              "2025-02-09" eggs w w' Hs
              (ex_intro _ groceries eq_refl) eq_refl Hp)
    as (row & Hst & _ & _ & Hin & Hce).
  destruct (shared_folder_covers_new_todos groceries "u3" manage "t3"
              "2025-02-09" eggs w wm Hm
              (ex_intro _ groceries eq_refl) eq_refl Hpm)
    as (rowm & Hstm & _ & _ & Hinm & Hcem).
  split_and!; [exact Hs|exact Hm|exact Hp|exact Hpm|vm_compute; reflexivity..
              | |].
  - exists row. split_and!; [exact Hst|exact Hin|]. apply Hce. by left.
  - exists rowm. split_and!; [exact Hstm|exact Hinm|]. apply Hcem. by right.
Defined.

(** ** The optimistic hooks when the backend accepts the write *)

Lemma bulk_rows_agree (selected : gset string) (values : TodoUpdate.t)
    (f : Todo.t → Todo.t) (l : list Todo.t) :
  (∀ row, TodoUpdate.apply values row = f row) →
  map (λ row, if todo_matches (in_id (elements selected)) row
              then TodoUpdate.apply values row else row) l
  = map (λ todo, if bool_decide (Todo.id todo ∈ selected)
                 then f todo else todo) l.
Proof.
  intros Hf. apply map_ext. intros row. simpl.
  rewrite Hf.
  destruct (decide (Todo.id row ∈ selected)) as [Hin|Hnin].
  - rewrite (bool_decide_eq_true_2 _ Hin).
    by rewrite bool_decide_eq_true_2 by (by apply elem_of_elements).
  - rewrite (bool_decide_eq_false_2 _ Hnin).
    by rewrite bool_decide_eq_false_2 by (by rewrite elem_of_elements).
Qed.

(** X10. An accepted [handleBulkMove] files every selected todo under the
    target, in the store and in the table alike, and touches no other
    todo; the selection is emptied and the success notified. A store that
    held what the table held still does. *)
Theorem handleBulkMove_accepted (folderId : option string) (w : World) :
  next_fails w = false →
  let w' := (handleBulkMove folderId w).2 in
  (∀ t, t ∈ todos w' ∨ t ∈ db_todos w' → Todo.id t ∈ selectedTodos w →
     Todo.folder_id t = folderId)
  ∧ (∀ k t, Todo.id t ∉ selectedTodos w →
       (todos w !! k = Some t → todos w' !! k = Some t)
       ∧ (db_todos w !! k = Some t → db_todos w' !! k = Some t))
  ∧ length (todos w') = length (todos w)
  ∧ selectedTodos w' = ∅
  ∧ toasts w' = toasts w ++ [toast_success_msg "Todos moved successfully!"]
  ∧ (in_sync w → in_sync w').
Proof.
  intros Hf w'.
  assert (todos w' = bulk_move_optimistic (selectedTodos w) folderId (todos w)
          ∧ db_todos w'
            = bulk_move_optimistic (selectedTodos w) folderId (db_todos w)
          ∧ selectedTodos w' = ∅
          ∧ toasts w'
            = toasts w ++ [toast_success_msg "Todos moved successfully!"])
    as (Hst & Hdb & Hsel & Ht).
  { subst w'. unfold handleBulkMove, next_fails in *. run_hook.
    destruct (faults w) as [|[] fs]; simpl in *; try done.
    all: split_and!; try done.
    all: by apply bulk_rows_agree. }
  rewrite Hst, Hdb, Hsel, Ht. unfold bulk_move_optimistic.
  split_and!; try done.
  - intros t [Hin|Hin] Hs; apply list_elem_of_fmap in Hin as (r & -> & _);
      revert Hs; by case_bool_decide.
  - intros k t Hs. split; intros Hk;
      change (map ?f ?l) with (f <$> l);
      rewrite list_lookup_fmap, Hk; simpl;
      by rewrite bool_decide_eq_false_2.
  - apply length_map.
  - unfold in_sync. intros Hs. by rewrite Hst, Hdb, Hs.
Qed.

Lemma handleBulkMove_accepted_witness :
  let w := session [milk; taxes] [] {["t2"]} in
  let w' := (handleBulkMove (Some "f1") w).2 in
  next_fails w = false
  ∧ todos w' = [milk; Todo.with_folder_id (Some "f1") taxes]
  ∧ db_todos w' = todos w'
  ∧ (in_sync w → in_sync w').
Proof.
  intros w w'.
  assert (next_fails w = false) as Hf by reflexivity.
  destruct (handleBulkMove_accepted (Some "f1") w Hf)
    as (_ & _ & _ & _ & _ & Hsync).
  split_and!; [exact Hf|reflexivity|reflexivity|exact Hsync].
Defined.

Lemma found_complete_true (todos : list Todo.t) (i : string) :
  found_complete todos i = true →
  ∃ t, t ∈ todos ∧ Todo.id t = i ∧ Todo.is_complete t = true.
Proof.
  unfold found_complete.
  destruct (find _ todos) as [t|] eqn:Hfind; [|done].
  intros Hc. apply find_some in Hfind as [Hin Hid].
  exists t. split_and!; [by apply list_elem_of_In| |done].
  by apply bool_decide_eq_true_1 in Hid.
Qed.

Lemma found_complete_unique (todos : list Todo.t) (t : Todo.t) :
  NoDup (Todo.id <$> todos) → t ∈ todos →
  found_complete todos (Todo.id t) = Todo.is_complete t.
Proof.
  intros Hnd Ht. unfold found_complete.
  destruct (find _ todos) as [t'|] eqn:Hfind.
  - apply find_some in Hfind as [Hin Hid].
    apply list_elem_of_In in Hin. apply bool_decide_eq_true_1 in Hid.
    by rewrite (NoDup_fmap_eq Todo.id todos t' t Hnd Hin Ht Hid).
  - apply list_elem_of_In in Ht.
    pose proof (find_none _ _ Hfind t Ht) as Hn. simpl in Hn.
    by rewrite bool_decide_eq_true_2 in Hn.
Qed.

(** X11. The bulk completion button. It asks to mark the selected todos
    incomplete exactly when every selected identifier is that of a
    complete todo of the store (so a selected identifier the store does
    not hold makes it ask for complete). When the backend accepts, every
    selected todo of the store and of the table has the flag asked for,
    the other todos keep theirs, and the selection is emptied. *)
Theorem press_bulk_toggle_accepted (w : World) :
  next_fails w = false →
  NoDup (Todo.id <$> todos w) →
  let target := bulk_toggle_target (todos w) (selectedTodos w) in
  let w' := (press_bulk_toggle w).2 in
  (target = false ↔
     ∀ i, i ∈ selectedTodos w →
       ∃ t, t ∈ todos w ∧ Todo.id t = i ∧ Todo.is_complete t = true)
  ∧ (∀ t, t ∈ todos w' ∨ t ∈ db_todos w' → Todo.id t ∈ selectedTodos w →
       Todo.is_complete t = target)
  ∧ (∀ k t, Todo.id t ∉ selectedTodos w →
       todos w !! k = Some t → todos w' !! k = Some t)
  ∧ selectedTodos w' = ∅
  ∧ toasts w' = toasts w ++ [toast_success_msg "Todos updated successfully!"].
Proof.
  intros Hf Hnd target w'.
  assert (todos w'
          = bulk_complete_optimistic (selectedTodos w) target (todos w)
          ∧ db_todos w'
            = bulk_complete_optimistic (selectedTodos w) target (db_todos w)
          ∧ selectedTodos w' = ∅
          ∧ toasts w'
            = toasts w ++ [toast_success_msg "Todos updated successfully!"])
    as (Hst & Hdb & Hsel & Ht).
  { subst w'. unfold press_bulk_toggle. fold target.
    unfold handleBulkToggleComplete, next_fails in *. run_hook.
    destruct (faults w) as [|[] fs]; simpl in *; try done.
    all: split_and!; try done.
    all: by apply bulk_rows_agree. }
  rewrite Hst, Hdb, Hsel, Ht. unfold bulk_complete_optimistic.
  split_and!; try done.
  - unfold target, bulk_toggle_target.
    rewrite negb_false_iff, forallb_forall. split.
    + intros Hall i Hi. apply found_complete_true, Hall.
      apply list_elem_of_In. by apply elem_of_elements.
    + intros Hall i Hi. apply list_elem_of_In, elem_of_elements in Hi.
      destruct (Hall i Hi) as (t & Hin & <- & Hc).
      by rewrite found_complete_unique.
  - intros t [Hin|Hin] Hs; apply list_elem_of_fmap in Hin as (r & -> & _);
      revert Hs; by case_bool_decide.
  - intros k t Hs Hk. change (map ?f ?l) with (f <$> l).
    rewrite list_lookup_fmap, Hk. simpl. by rewrite bool_decide_eq_false_2.
Qed.

Lemma press_bulk_toggle_accepted_witness :
  let w := session [milk; taxes] [] {["t1"; "t2"]} in
  let w' := (press_bulk_toggle w).2 in
  next_fails w = false ∧ NoDup (Todo.id <$> todos w)
  ∧ bulk_toggle_target (todos w) (selectedTodos w) = true
  ∧ Todo.is_complete <$> todos w' = [true; true]
  ∧ selectedTodos w' = ∅.
Proof.
  intros w w'.
  assert (next_fails w = false) as Hf by reflexivity.
  assert (NoDup (Todo.id <$> todos w)) as Hnd.
  { apply (bool_decide_unpack (NoDup _)). vm_compute. exact I. }
  destruct (press_bulk_toggle_accepted w Hf Hnd) as (_ & _ & _ & Hsel & _).
  split_and!; [exact Hf|exact Hnd| | |exact Hsel].
  - vm_compute. reflexivity.
  - vm_compute. reflexivity.
Defined.

Lemma toggleTodo_accepted (todo : Todo.t) (w : World) :
  next_fails w = false →
  todos (toggleTodo todo w).2 = toggle_optimistic todo (todos w)
  ∧ db_todos (toggleTodo todo w).2
    = map (λ row, if bool_decide (Todo.id row = Todo.id todo)
                  then Todo.with_is_complete (negb (Todo.is_complete todo)) row
                  else row) (db_todos w)
  ∧ faults (toggleTodo todo w).2 = tail (faults w)
  ∧ toasts (toggleTodo todo w).2 = toasts w.
Proof.
  intros Hf. unfold toggleTodo, next_fails in *. run_hook.
  destruct (faults w) as [|[] fs]; simpl in *; done.
Qed.

(** X12. Toggling a todo twice, each time with the todo as the store
    shows it, brings the store and the table back to where they were,
    provided the backend accepts both writes and the todo passed first
    carries the flag the store and the table hold for it. An accepted
    toggle shows no notification. *)
Theorem toggleTodo_twice (todo : Todo.t) (w : World) :
  requests_pass 2 w →
  (∀ t, t ∈ todos w ∨ t ∈ db_todos w → Todo.id t = Todo.id todo →
        Todo.is_complete t = Todo.is_complete todo) →
  let w1 := (toggleTodo todo w).2 in
  let toggled := Todo.with_is_complete (negb (Todo.is_complete todo)) todo in
  let w2 := (toggleTodo toggled w1).2 in
  (∀ t, t ∈ todos w1 ∨ t ∈ db_todos w1 → Todo.id t = Todo.id todo →
        Todo.is_complete t = negb (Todo.is_complete todo))
  ∧ todos w2 = todos w ∧ db_todos w2 = db_todos w
  ∧ toasts w2 = toasts w.
Proof.
  intros Hp Hflag w1 toggled w2.
  assert (next_fails w = false ∧ next_fails w1 = false) as [Hf1 Hf2].
  { unfold requests_pass in Hp.
    assert (faults w1 = tail (faults w)) as Hw1.
    { subst w1. unfold toggleTodo. run_hook.
      by destruct (faults w) as [|[] fs]. }
    unfold next_fails. rewrite Hw1.
    destruct (faults w) as [|b1 [|b2 fs]]; simpl in *; [done| |].
    - by apply Forall_cons in Hp as [-> _].
    - apply Forall_cons in Hp as [-> Hp].
      by apply Forall_cons in Hp as [-> _]. }
  destruct (toggleTodo_accepted todo w Hf1) as (Hst1 & Hdb1 & _ & Ht1).
  destruct (toggleTodo_accepted toggled w1 Hf2) as (Hst2 & Hdb2 & _ & Ht2).
  fold w1 in Hst1, Hdb1, Ht1. fold w2 in Hst2, Hdb2, Ht2.
  assert (∀ l, (∀ t, t ∈ l → Todo.id t = Todo.id todo →
                     Todo.is_complete t = Todo.is_complete todo) →
            map (λ row, if bool_decide (Todo.id row = Todo.id toggled)
                        then Todo.with_is_complete
                               (negb (Todo.is_complete toggled)) row
                        else row)
              (map (λ row, if bool_decide (Todo.id row = Todo.id todo)
                           then Todo.with_is_complete
                                  (negb (Todo.is_complete todo)) row
                           else row) l) = l) as Hback.
  { intros l Hl. rewrite map_map. rewrite <- (map_id l) at 2.
    apply map_ext_in. intros t Ht. apply list_elem_of_In in Ht.
    change (Todo.id toggled) with (Todo.id todo).
    destruct (decide (Todo.id t = Todo.id todo)) as [Hid|Hid].
    - rewrite (bool_decide_eq_true_2 _ Hid). simpl.
      rewrite (bool_decide_eq_true_2 _ Hid).
      rewrite negb_involutive, <- (Hl t Ht Hid). by destruct t.
    - by rewrite !(bool_decide_eq_false_2 _ Hid). }
  split_and!.
  - intros t [Hin|Hin] Hid.
    + rewrite Hst1 in Hin. unfold toggle_optimistic in Hin.
      apply list_elem_of_fmap in Hin as (r & -> & Hr).
      revert Hid. case_bool_decide as Hrid; [|done]. intros _. simpl.
      f_equal. apply Hflag; [by left|done].
    + rewrite Hdb1 in Hin.
      apply list_elem_of_fmap in Hin as (r & -> & Hr).
      revert Hid. by case_bool_decide.
  - rewrite Hst2, Hst1. unfold toggle_optimistic.
    rewrite map_map. rewrite <- (map_id (todos w)) at 2.
    apply map_ext_in. intros t Ht. apply list_elem_of_In in Ht.
    change (Todo.id toggled) with (Todo.id todo).
    destruct (decide (Todo.id t = Todo.id todo)) as [Hid|Hid].
    + rewrite (bool_decide_eq_true_2 _ Hid). simpl.
      rewrite (bool_decide_eq_true_2 _ Hid).
      rewrite negb_involutive. by destruct t.
    + by rewrite !(bool_decide_eq_false_2 _ Hid).
  - rewrite Hdb2, Hdb1. apply Hback. intros t Ht. apply Hflag. by right.
  - by rewrite Ht2, Ht1.
Qed.

Lemma toggleTodo_twice_witness :
  let w := session [milk; taxes] [] ∅ in
  let w1 := (toggleTodo milk w).2 in
  let w2 := (toggleTodo (Todo.with_is_complete true milk) w1).2 in
  requests_pass 2 w
  ∧ Todo.is_complete <$> todos w1 = [true; true]
  ∧ todos w2 = todos w ∧ db_todos w2 = db_todos w.
Proof.
  intros w w1 w2.
  assert (requests_pass 2 w) as Hp by constructor.
  assert (∀ t, t ∈ todos w ∨ t ∈ db_todos w → Todo.id t = Todo.id milk →
               Todo.is_complete t = Todo.is_complete milk) as Hflag.
  { intros t [Ht|Ht] Hid;
      apply elem_of_cons in Ht as [->|Ht]; try done;
      apply list_elem_of_singleton in Ht; by subst t. }
  destruct (toggleTodo_twice milk w Hp Hflag) as (_ & Hst & Hdb & _).
  split_and!; [exact Hp|reflexivity|exact Hst|exact Hdb].
Defined.

(** X13. [deleteTodo] keeps the store and the table equal, whatever the
    backend answers. When the delete is accepted the store loses the
    entries with the identifier and keeps the others in their order; for
    an identifier the store does not hold it is left as it was, and the
    success is notified all the same. *)
Theorem deleteTodo_keeps_sync (id : string) (w : World) :
  let w' := (deleteTodo id w).2 in
  (in_sync w → in_sync w')
  ∧ (next_fails w = false →
       todos w' `sublist_of` todos w
       ∧ count_id id (todos w') = 0%nat
       ∧ (∀ i, i ≠ id → count_id i (todos w') = count_id i (todos w))
       ∧ (count_id id (todos w) = 0%nat → todos w' = todos w)
       ∧ toasts w'
         = toasts w ++ [toast_success_msg "Todo deleted successfully!"]).
Proof.
  intros w'.
  assert (∀ l : list Todo.t,
            filter (λ row, bool_decide (Todo.id row = id) = false) l
            = filter (λ todo, Todo.id todo ≠ id) l) as Hsame.
  { intros l. apply list_filter_iff. intros t.
    by rewrite bool_decide_eq_false. }
  split.
  - unfold in_sync. intros Hs. subst w'. unfold deleteTodo. run_hook.
    destruct (faults w) as [|[] fs]; simpl; by rewrite ?Hsame, Hs.
  - intros Hf.
    assert (todos w' = filter (λ todo, Todo.id todo ≠ id) (todos w)
            ∧ toasts w'
              = toasts w ++ [toast_success_msg "Todo deleted successfully!"])
      as [Hst Ht].
    { subst w'. unfold deleteTodo, next_fails in *. run_hook.
      destruct (faults w) as [|[] fs]; simpl in *; done. }
    rewrite Hst, Ht. clear Hst Ht. split_and!; [| | | |done].
    + apply sublist_filter.
    + apply count_id_zero. intros t Hin.
      by apply list_elem_of_filter in Hin as [? _].
    + intros i Hi. unfold count_id. rewrite list_filter_filter. f_equal.
      apply list_filter_iff. intros t. split; [tauto|].
      intros Ht'. split; [done|congruence].
    + unfold count_id. generalize (todos w). intros l Hnone.
      induction l as [|t l IH]; [done|].
      rewrite filter_cons in Hnone. rewrite filter_cons.
      destruct (decide (Todo.id t = id)) as [Hid|Hid]; [done|].
      rewrite decide_True by done. f_equal. by apply IH.
Qed.

Lemma deleteTodo_keeps_sync_witness :
  let w := session [milk; taxes] [] ∅ in
  let w' := (deleteTodo "t1" w).2 in
  in_sync w ∧ next_fails w = false
  ∧ todos w' = [taxes] ∧ in_sync w'
  ∧ count_id "t1" (todos w') = 0%nat.
Proof.
  intros w w'.
  assert (in_sync w) as Hs by reflexivity.
  assert (next_fails w = false) as Hf by reflexivity.
  destruct (deleteTodo_keeps_sync "t1" w) as [Hsync Hok].
  split_and!; [exact Hs|exact Hf|reflexivity|exact (Hsync Hs)|].
  exact (proj1 (proj2 (Hok Hf))).
Defined.

(** ** The edit form and [updateTodo] *)

(** X14. Saving the edit form. The todo the form hands to [updateTodo]
    differs from the one it was opened on in title, description and
    folder only, and with the form left untouched it is that todo exactly
    when its description is not null: a null description is saved as the
    empty string. When the todo is an entry of a store with distinct
    identifiers that holds what the table holds, an accepted [updateTodo]
    of the edited todo puts it at its place in the store and in the table
    alike. *)
Theorem edit_form_save (todo : Todo.t) (title description : string)
    (folderId : option string) (w : World) :
  let edited := edited_todo todo title description folderId in
  let w' := (updateTodo edited w).2 in
  (edited_todo todo (Todo.title todo) (form_description todo)
               (Todo.folder_id todo) = todo
   ↔ is_Some (Todo.description todo))
  ∧ (next_fails w = false → todo ∈ todos w → NoDup (Todo.id <$> todos w) →
     in_sync w →
       in_sync w'
       ∧ (∀ k t, todos w !! k = Some t →
            todos w' !! k = Some (if bool_decide (t = todo) then edited else t))
       ∧ toasts w'
         = toasts w ++ [toast_success_msg "Todo updated successfully!"]).
Proof.
  intros edited w'. split.
  - unfold edited_todo, form_description.
    destruct todo as [? ? ? [d|] ? ? ? ? ?]; simpl.
    + split; [intros _; by eexists|done].
    + split; [discriminate|]. by intros [? ?].
  - intros Hf Hin Hnd Hsync.
    assert (todos w' = update_optimistic edited (todos w)
            ∧ db_todos w'
              = map (λ row, if bool_decide (Todo.id row = Todo.id edited)
                            then TodoUpdate.apply
                                   (TodoUpdate.mk (Some (Todo.title edited))
                                      (Some (Todo.description edited)) None
                                      (Some (Todo.folder_id edited)) None None)
                                   row
                            else row) (db_todos w)
            ∧ toasts w'
              = toasts w
                ++ [toast_success_msg "Todo updated successfully!"])
      as (Hst & Hdb & Ht).
    { subst w'. unfold updateTodo, next_fails in *. run_hook.
      destruct (faults w) as [|[] fs]; simpl in *; done. }
    assert (∀ t, t ∈ todos w →
              (if bool_decide (Todo.id t = Todo.id edited) then edited else t)
              = (if bool_decide (t = todo) then edited else t)) as Hsame.
    { intros t Hmem. change (Todo.id edited) with (Todo.id todo).
      destruct (decide (t = todo)) as [->|Hne].
      - by rewrite !bool_decide_eq_true_2.
      - rewrite (bool_decide_eq_false_2 (t = todo)) by done.
        rewrite bool_decide_eq_false_2; [done|]. intros Hid. apply Hne.
        by apply (NoDup_fmap_eq Todo.id (todos w)). }
    split_and!; [| |done].
    + unfold in_sync in *. rewrite Hst, Hdb, <- Hsync.
      unfold update_optimistic. apply map_ext_in. intros t Hmem.
      apply list_elem_of_In in Hmem.
      change (Todo.id edited) with (Todo.id todo).
      destruct (decide (Todo.id t = Todo.id todo)) as [Hid|Hid].
      * rewrite (bool_decide_eq_true_2 _ Hid).
        by rewrite (NoDup_fmap_eq Todo.id (todos w) t todo Hnd Hmem Hin Hid).
      * by rewrite (bool_decide_eq_false_2 _ Hid).
    + intros k t Hk. rewrite Hst. unfold update_optimistic.
      change (map ?f ?l) with (f <$> l).
      rewrite list_lookup_fmap, Hk. simpl. f_equal. apply Hsame.
      by eapply list_elem_of_lookup_2.
Qed.

Lemma edit_form_save_witness :
  let w := session [milk; taxes] [] ∅ in
  let edited := edited_todo milk "Oat milk" "" None in
  let w' := (updateTodo edited w).2 in
  (next_fails w = false ∧ milk ∈ todos w ∧ NoDup (Todo.id <$> todos w)
   ∧ in_sync w)
  ∧ todos w' = [edited; taxes] ∧ in_sync w'
  ∧ edited_todo milk "Milk" (form_description milk) (Some "f1") ≠ milk.
Proof.
  intros w edited w'.
  assert (next_fails w = false) as Hf by reflexivity.
  assert (milk ∈ todos w) as Hin by left.
  assert (NoDup (Todo.id <$> todos w)) as Hnd.
  { apply (bool_decide_unpack (NoDup _)). vm_compute. exact I. }
  assert (in_sync w) as Hs by reflexivity.
  destruct (edit_form_save milk "Oat milk" "" None w) as [_ Hok].
  destruct (Hok Hf Hin Hnd Hs) as (Hsync & _ & _).
  split_and!; [exact Hf|exact Hin|exact Hnd|exact Hs|reflexivity|exact Hsync|].
  discriminate.
Defined.

(** ** The selection *)

(** X15. Selecting a todo toggles its membership and no other: the
    identifier is in the new selection exactly when it was not in the old
    one, every other identifier stays in or out, the size moves by one,
    and selecting twice gives the selection back. *)
Theorem toggle_selection_flips (id : string) (prev : gset string) :
  (id ∈ toggle_selection id prev ↔ id ∉ prev)
  ∧ (∀ other, other ≠ id →
       (other ∈ toggle_selection id prev ↔ other ∈ prev))
  ∧ (id ∈ prev → S (size (toggle_selection id prev)) = size prev)
  ∧ (id ∉ prev → size (toggle_selection id prev) = S (size prev))
  ∧ toggle_selection id (toggle_selection id prev) = prev.
Proof.
  unfold toggle_selection.
  destruct (decide (id ∈ prev)) as [Hin|Hnin].
  - rewrite (bool_decide_eq_true_2 _ Hin).
    rewrite bool_decide_eq_false_2 by set_solver.
    split_and!; [set_solver|set_solver| |done|].
    + intros _. rewrite size_difference by set_solver.
      rewrite size_singleton.
      assert (size prev ≠ 0%nat) as Hpos.
      { intros Hz. apply size_empty_inv in Hz. set_solver. }
      lia.
    + apply set_eq. intros x. rewrite elem_of_union, elem_of_difference,
        elem_of_singleton.
      destruct (decide (x = id)) as [->|]; tauto.
  - rewrite (bool_decide_eq_false_2 _ Hnin).
    rewrite bool_decide_eq_true_2 by set_solver.
    split_and!; [set_solver|set_solver|done| |].
    + intros _. rewrite size_union by set_solver.
      by rewrite size_singleton.
    + set_solver.
Qed.

Lemma toggle_selection_flips_witness :
  ("t1" ∈ ({["t1"; "t2"]} : gset string)
   ∧ S (size (toggle_selection "t1" {["t1"; "t2"]})) = 2%nat)
  ∧ (("t3" ∉ ({["t1"; "t2"]} : gset string))
     ∧ size (toggle_selection "t3" {["t1"; "t2"]}) = 3%nat).
Proof.
  assert ("t1" ∈ ({["t1"; "t2"]} : gset string)) as Hin by set_solver.
  assert ("t3" ∉ ({["t1"; "t2"]} : gset string)) as Hnin by set_solver.
  destruct (toggle_selection_flips "t1" {["t1"; "t2"]}) as (_ & _ & H1 & _).
  destruct (toggle_selection_flips "t3" {["t1"; "t2"]})
    as (_ & _ & _ & H3 & _).
  split_and!; [exact Hin| |exact Hnin|].
  - rewrite (H1 Hin). reflexivity.
  - rewrite (H3 Hnin). reflexivity.
Defined.

(** ** Drag and drop *)

Lemma findIndex_of_entry (l : list Todo.t) (i : nat) (x : Todo.t) :
  NoDup (Todo.id <$> l) → l !! i = Some x →
  findIndex (λ t, bool_decide (Todo.id t = Todo.id x)) l = Z.of_nat i.
Proof.
  intros Hnd Hi.
  pose proof (take_drop_middle l i x Hi) as Hsplit.
  pose proof (first_index_keep Todo.id (take i l) x (drop (S i) l)) as Hkeep.
  rewrite Hsplit in Hkeep.
  assert (Todo.id x ∉ Todo.id <$> take i l) as Hfresh.
  { rewrite <- Hsplit, fmap_app, fmap_cons in Hnd.
    apply NoDup_app in Hnd as (_ & Hdis & _).
    intros Hin. apply (Hdis _ Hin). left. }
  rewrite (bool_decide_eq_false_2 _ Hfresh) in Hkeep. simpl in Hkeep.
  apply bool_decide_eq_true_1 in Hkeep. rewrite <- Hkeep.
  rewrite length_take. apply lookup_lt_Some in Hi. lia.
Qed.

Lemma findIndex_absent (l : list Todo.t) (x : Todo.t) :
  (∀ t, t ∈ l → Todo.id t ≠ Todo.id x) →
  findIndex (λ t, bool_decide (Todo.id t = Todo.id x)) l = -1.
Proof.
  intros Habs. apply findIndex_from_none; [lia|].
  intros t Ht. apply bool_decide_eq_false_2. by apply Habs.
Qed.

Lemma filter_all_in {A} (P : A → Prop) `{!∀ x, Decision (P x)} (l : list A) :
  (∀ x, x ∈ l → P x) → filter P l = l.
Proof.
  induction l as [|a l IH]; intros Hall; [done|].
  rewrite filter_cons, decide_True by (apply Hall; left).
  f_equal. apply IH. intros x Hx. apply Hall. by right.
Qed.

Lemma filter_out_entry (l : list Todo.t) (i : nat) (x : Todo.t) :
  NoDup (Todo.id <$> l) → l !! i = Some x →
  filter (λ t, Todo.id t ≠ Todo.id x) l = take i l ++ drop (S i) l.
Proof.
  intros Hnd Hi.
  pose proof (take_drop_middle l i x Hi) as Hsplit.
  rewrite <- Hsplit at 1. rewrite <- Hsplit, fmap_app, fmap_cons in Hnd.
  apply NoDup_app in Hnd as (_ & Hdis & Hnd).
  apply NoDup_cons in Hnd as [Hx _].
  rewrite filter_app, filter_cons, decide_False by (intros Hn; by apply Hn).
  f_equal.
  - apply filter_all_in. intros t Ht Heq.
    apply (Hdis (Todo.id x)); [|left].
    rewrite <- Heq. by apply list_elem_of_fmap_2.
  - apply filter_all_in. intros t Ht Heq.
    apply Hx. rewrite <- Heq. by apply list_elem_of_fmap_2.
Qed.

Lemma moved_todos_perm_at (currentTodos : list Todo.t) (di ti : nat)
    (dragged target : Todo.t) :
  NoDup (Todo.id <$> currentTodos) →
  currentTodos !! di = Some dragged →
  currentTodos !! ti = Some target →
  di ≠ ti →
  moved_todos currentTodos dragged (Z.of_nat ti) ≡ₚ currentTodos
  ∧ moved_todos currentTodos dragged (Z.of_nat ti) !! ti = Some dragged.
Proof.
  intros Hnd Hdi Hti Hne.
  unfold moved_todos, splice_in. rewrite Nat2Z.id.
  rewrite (filter_out_entry _ _ _ Hnd Hdi).
  set (rest := take di currentTodos ++ drop (S di) currentTodos).
  pose proof (lookup_lt_Some _ _ _ Hdi) as Hdl.
  pose proof (lookup_lt_Some _ _ _ Hti) as Htl.
  assert (length rest = (length currentTodos - 1)%nat) as Hlen.
  { unfold rest. rewrite length_app, length_take, length_drop. lia. }
  split.
  - rewrite (Permutation_app_comm [dragged]), app_assoc.
    rewrite take_drop. rewrite <- Permutation_cons_append.
    unfold rest. rewrite <- (take_drop_middle _ _ _ Hdi) at 3.
    by rewrite Permutation_middle.
  - rewrite lookup_app_r by (rewrite length_take; lia).
    rewrite length_take.
    replace (ti - ti `min` length rest)%nat with 0%nat by lia. done.
Qed.

(** X16. Where a drop puts the todos. In a list with distinct
    identifiers, dropping the entry at position [di] on the entry at
    another position [ti] gives a permutation of the list in which the
    dragged todo is at position [ti], the target is just before it when
    the drag went down the list and just after it when it went up, and the
    other todos are in the order they had. *)
Theorem moved_todos_places_dragged (currentTodos : list Todo.t)
    (di ti : nat) (dragged target : Todo.t) :
  NoDup (Todo.id <$> currentTodos) →
  currentTodos !! di = Some dragged →
  currentTodos !! ti = Some target →
  di ≠ ti →
  let targetIndex :=
    findIndex (λ t, bool_decide (Todo.id t = Todo.id target)) currentTodos in
  let moved := moved_todos currentTodos dragged targetIndex in
  targetIndex = Z.of_nat ti
  ∧ moved ≡ₚ currentTodos
  ∧ moved !! ti = Some dragged
  ∧ ((di < ti)%nat → moved !! (ti - 1)%nat = Some target)
  ∧ ((ti < di)%nat → moved !! S ti = Some target)
  ∧ filter (λ t, Todo.id t ≠ Todo.id dragged) moved
    = filter (λ t, Todo.id t ≠ Todo.id dragged) currentTodos.
Proof.
  intros Hnd Hdi Hti Hne targetIndex moved.
  assert (targetIndex = Z.of_nat ti) as Hidx
    by (by apply findIndex_of_entry).
  subst moved. rewrite Hidx. clear Hidx targetIndex.
  unfold moved_todos, splice_in. rewrite Nat2Z.id.
  rewrite (filter_out_entry _ _ _ Hnd Hdi).
  set (rest := take di currentTodos ++ drop (S di) currentTodos).
  pose proof (lookup_lt_Some _ _ _ Hdi) as Hdl.
  pose proof (lookup_lt_Some _ _ _ Hti) as Htl.
  assert (length rest = (length currentTodos - 1)%nat) as Hlen.
  { unfold rest. rewrite length_app, length_take, length_drop. lia. }
  assert (∀ k, (k < di)%nat → rest !! k = currentTodos !! k) as Hlow.
  { intros k Hk. unfold rest.
    rewrite lookup_app_l by (rewrite length_take; lia).
    by apply lookup_take_lt. }
  assert (∀ k, (di ≤ k)%nat → rest !! k = currentTodos !! S k) as Hhigh.
  { intros k Hk. unfold rest.
    rewrite lookup_app_r by (rewrite length_take; lia).
    rewrite length_take, lookup_drop. f_equal. lia. }
  split_and!; [done| | | | |].
  - rewrite (Permutation_app_comm [dragged]), app_assoc.
    rewrite take_drop. rewrite <- Permutation_cons_append.
    unfold rest. rewrite <- (take_drop_middle _ _ _ Hdi) at 3.
    by rewrite Permutation_middle.
  - rewrite lookup_app_r by (rewrite length_take; lia).
    rewrite length_take.
    replace (ti - ti `min` length rest)%nat with 0%nat by lia. done.
  - intros Hlt. rewrite lookup_app_l by (rewrite length_take; lia).
    rewrite lookup_take_lt by lia. rewrite Hhigh by lia.
    by replace (S (ti - 1)) with ti by lia.
  - intros Hlt. rewrite lookup_app_r by (rewrite length_take; lia).
    rewrite length_take.
    replace (S ti - ti `min` length rest)%nat with 1%nat by lia.
    simpl. rewrite lookup_drop, Nat.add_0_r. by rewrite Hlow.
  - rewrite !filter_app, filter_cons, decide_False by (intros Hn; by apply Hn).
    simpl. rewrite <- filter_app, take_drop.
    unfold rest. rewrite <- (filter_out_entry _ _ _ Hnd Hdi).
    rewrite list_filter_filter. apply list_filter_iff. tauto.
Qed.

Lemma moved_todos_places_dragged_witness :
  let a := todo_named "a" in
  let b := todo_named "b" in
  let c := todo_named "c" in
  (NoDup (Todo.id <$> [a; b; c]) ∧ [a; b; c] !! 0%nat = Some a
   ∧ [a; b; c] !! 2%nat = Some c ∧ 0%nat ≠ 2%nat)
  ∧ moved_todos [a; b; c] a 2 = [b; c; a]
  ∧ moved_todos [a; b; c] a
      (findIndex (λ t, bool_decide (Todo.id t = Todo.id c)) [a; b; c])
    !! 2%nat = Some a.
Proof.
  intros a b c.
  assert (NoDup (Todo.id <$> [a; b; c])) as Hnd.
  { apply (bool_decide_unpack (NoDup _)). vm_compute. exact I. }
  assert (0%nat ≠ 2%nat) as Hne by lia.
  destruct (moved_todos_places_dragged [a; b; c] 0 2 a c Hnd eq_refl eq_refl
              Hne) as (_ & _ & Hat & _).
  split_and!; [exact Hnd|reflexivity|reflexivity|exact Hne|reflexivity|].
  exact Hat.
Defined.

Lemma distinct_entries (l : list Todo.t) (di ti : nat) (a b : Todo.t) :
  NoDup (Todo.id <$> l) → l !! di = Some a → l !! ti = Some b → di ≠ ti →
  Todo.id a ≠ Todo.id b.
Proof.
  intros Hnd Ha Hb Hne Heq. apply Hne.
  apply (NoDup_lookup (Todo.id <$> l) di ti (Todo.id a) Hnd).
  - by rewrite list_lookup_fmap, Ha.
  - by rewrite list_lookup_fmap, Hb, Heq.
Qed.

(** X17. A drop that is not one. Without a dragged todo, on the dragged
    todo itself, or when the dragged todo or the target is not in the
    rendered list, [handleDrop] does nothing: the order map is the one it
    was, no request is sent and nothing is notified. *)
Theorem handleDrop_ignored (held : list nat) (draggedTodo : option Todo.t)
    (filteredTodos : list Todo.t) (targetTodo : Todo.t)
    (todoOrder : gmap string (list string)) (w : World) :
  (draggedTodo = None
   ∨ (∃ dragged, draggedTodo = Some dragged
        ∧ (Todo.id dragged = Todo.id targetTodo
           ∨ (∀ t, t ∈ filteredTodos → Todo.id t ≠ Todo.id dragged)
           ∨ (∀ t, t ∈ filteredTodos → Todo.id t ≠ Todo.id targetTodo)))) →
  handleDrop held draggedTodo filteredTodos targetTodo todoOrder w
  = (Normal todoOrder, w).
Proof.
  intros [->|(dragged & -> & Hcase)]; [done|].
  unfold handleDrop.
  destruct (decide (Todo.id dragged = Todo.id targetTodo)) as [Hid|Hid].
  { by rewrite (bool_decide_eq_true_2 _ Hid). }
  rewrite (bool_decide_eq_false_2 _ Hid). run_hook.
  destruct Hcase as [?|[Habs|Habs]]; [done| |].
  - by rewrite (findIndex_absent _ _ Habs).
  - rewrite (findIndex_absent _ _ Habs). simpl.
    by rewrite orb_true_r.
Qed.

Lemma handleDrop_ignored_witness :
  let w := session [milk; taxes] [] ∅ in
  handleDrop [0%nat] (Some milk) [milk; taxes] milk
    {[ "root" := ["t2"; "t1"] ]} w
  = (Normal {[ "root" := ["t2"; "t1"] ]}, w).
Proof.
  intros w. apply handleDrop_ignored. right. exists milk.
  split; [reflexivity|]. left. reflexivity.
Defined.

(** X18. A drop within one folder. With distinct identifiers in the
    rendered list and the dragged todo and the target filed alike,
    [handleDrop] sends no request and leaves the table and the store as
    they are; it writes the order of the scope of the target, the
    identifiers of the moved list that are in that scope, and of that
    scope only; the success is notified. When the whole rendered list is
    in the scope, the order written is a permutation of its identifiers
    with the dragged one at the position of the target. *)
Theorem handleDrop_same_folder (held : list nat)
    (filteredTodos : list Todo.t) (di ti : nat)
    (dragged targetTodo : Todo.t) (todoOrder : gmap string (list string))
    (w : World) :
  NoDup (Todo.id <$> filteredTodos) →
  filteredTodos !! di = Some dragged →
  filteredTodos !! ti = Some targetTodo →
  di ≠ ti →
  Todo.folder_id dragged = Todo.folder_id targetTodo →
  let scope := folder_scope targetTodo in
  let newTodos := moved_todos filteredTodos dragged (Z.of_nat ti) in
  let run :=
    handleDrop held (Some dragged) filteredTodos targetTodo todoOrder w in
  run.1 = Normal (<[scope := dropped_order newTodos scope]> todoOrder)
  ∧ (∀ key, key ≠ scope →
       <[scope := dropped_order newTodos scope]> todoOrder !! key
       = todoOrder !! key)
  ∧ requests run.2 = requests w ∧ faults run.2 = faults w
  ∧ db_todos run.2 = db_todos w ∧ todos run.2 = todos w
  ∧ toasts run.2 = toasts w ++ [toast_success_msg "Todo moved successfully!"]
  ∧ ((∀ t, t ∈ filteredTodos → folder_scope t = scope) →
       dropped_order newTodos scope = Todo.id <$> newTodos
       ∧ dropped_order newTodos scope ≡ₚ Todo.id <$> filteredTodos
       ∧ dropped_order newTodos scope !! ti = Some (Todo.id dragged)).
Proof.
  intros Hnd Hdi Hti Hne Hfolder scope newTodos run.
  pose proof (distinct_entries _ _ _ _ _ Hnd Hdi Hti Hne) as Hid.
  assert (run = (Normal (<[scope := dropped_order newTodos scope]> todoOrder),
                 (toast_success "Todo moved successfully!" w).2)) as Hrun.
  { subst run. unfold handleDrop.
    rewrite (bool_decide_eq_false_2 _ Hid). run_hook.
    rewrite (findIndex_of_entry _ _ _ Hnd Hdi),
      (findIndex_of_entry _ _ _ Hnd Hti).
    rewrite !(bool_decide_eq_false_2 (Z.of_nat _ = -1)) by lia. simpl.
    rewrite (bool_decide_eq_false_2 (Todo.folder_id dragged ≠ _))
      by (intros Hn; by apply Hn).
    done. }
  rewrite Hrun. simpl.
  split_and!; try done.
  - intros key Hkey. by apply lookup_insert_ne.
  - intros Hscope.
    destruct (moved_todos_perm_at filteredTodos di ti dragged targetTodo
                Hnd Hdi Hti Hne) as [Hperm Hat].
    fold newTodos in Hperm, Hat.
    assert (dropped_order newTodos scope = Todo.id <$> newTodos) as Hall.
    { unfold dropped_order. f_equal. apply filter_all_in.
      intros t Ht. apply Hscope. by rewrite <- Hperm. }
    rewrite Hall. split_and!; [done|by rewrite Hperm|].
    by rewrite list_lookup_fmap, Hat.
Qed.

Lemma handleDrop_same_folder_witness :
  let a := todo_named "a" in
  let b := todo_named "b" in
  let c := todo_named "c" in
  let w := session [a; b; c] [] ∅ in
  let run := handleDrop [2%nat] (Some c) [a; b; c] a ∅ w in
  (NoDup (Todo.id <$> [a; b; c]) ∧ [a; b; c] !! 2%nat = Some c
   ∧ [a; b; c] !! 0%nat = Some a ∧ 2%nat ≠ 0%nat
   ∧ Todo.folder_id c = Todo.folder_id a)
  ∧ run.1 = Normal {[ "root" := ["c"; "a"; "b"] ]}
  ∧ requests run.2 = requests w.
Proof.
  intros a b c w run.
  assert (NoDup (Todo.id <$> [a; b; c])) as Hnd.
  { apply (bool_decide_unpack (NoDup _)). vm_compute. exact I. }
  assert (2%nat ≠ 0%nat) as Hne by lia.
  destruct (handleDrop_same_folder [2%nat] [a; b; c] 2 0 c a ∅ w Hnd eq_refl
              eq_refl Hne eq_refl) as (_ & _ & Hreq & _).
  split_and!; [exact Hnd|reflexivity|reflexivity|exact Hne|reflexivity| |].
  - vm_compute. reflexivity.
  - exact Hreq.
Defined.

(** X19. A drop onto a todo of another folder. The move of the dragged
    todo is sent to the backend first. When it is rejected, the order map,
    the table and the store are as they were and the failure is notified.
    When it is accepted, the rows of the dragged todo are filed under the
    folder of the target, and so is the object the drag captured: the
    entries of the store at the positions that hold that object are
    refiled, and every other entry of the store is as it was, so a store
    that no longer holds the object keeps the dragged todo under its old
    folder. The order written for the scope of the target lists the
    dragged identifier; the order of every other scope, the one the todo
    left included, is as it was. *)
Theorem handleDrop_other_folder (held : list nat)
    (filteredTodos : list Todo.t) (di ti : nat)
    (dragged targetTodo : Todo.t) (todoOrder : gmap string (list string))
    (w : World) :
  NoDup (Todo.id <$> filteredTodos) →
  filteredTodos !! di = Some dragged →
  filteredTodos !! ti = Some targetTodo →
  di ≠ ti →
  Todo.folder_id dragged ≠ Todo.folder_id targetTodo →
  let scope := folder_scope targetTodo in
  let moved := Todo.with_folder_id (Todo.folder_id targetTodo) dragged in
  let newTodos := moved_todos filteredTodos moved (Z.of_nat ti) in
  let run :=
    handleDrop held (Some dragged) filteredTodos targetTodo todoOrder w in
  (next_fails w = true →
     run.1 = Normal todoOrder
     ∧ db_todos run.2 = db_todos w ∧ todos run.2 = todos w
     ∧ toasts run.2 = toasts w ++ [toast_error_msg "Failed to move todo"])
  ∧ (next_fails w = false →
       run.1 = Normal (<[scope := dropped_order newTodos scope]> todoOrder)
       ∧ Todo.id dragged ∈ dropped_order newTodos scope
       ∧ (∀ key, key ≠ scope →
            <[scope := dropped_order newTodos scope]> todoOrder !! key
            = todoOrder !! key)
       ∧ (∀ row, row ∈ db_todos run.2 → Todo.id row = Todo.id dragged →
            Todo.folder_id row = Todo.folder_id targetTodo)
       ∧ (∀ k row, db_todos w !! k = Some row →
            Todo.id row ≠ Todo.id dragged → db_todos run.2 !! k = Some row)
       ∧ length (todos run.2) = length (todos w)
       ∧ (∀ k t, todos w !! k = Some t → k ∉ held →
            todos run.2 !! k = Some t)
       ∧ (∀ k, k ∈ held → todos w !! k = Some dragged →
            todos run.2 !! k = Some moved)
       ∧ (held = [] → todos run.2 = todos w)
       ∧ toasts run.2
         = toasts w ++ [toast_success_msg "Todo moved successfully!"]).
Proof.
  intros Hnd Hdi Hti Hne Hfolder scope moved newTodos run.
  pose proof (distinct_entries _ _ _ _ _ Hnd Hdi Hti Hne) as Hid.
  subst run. unfold handleDrop.
  rewrite (bool_decide_eq_false_2 _ Hid). run_hook.
  rewrite (findIndex_of_entry _ _ _ Hnd Hdi),
    (findIndex_of_entry _ _ _ Hnd Hti).
  rewrite !(bool_decide_eq_false_2 (Z.of_nat _ = -1)) by lia. simpl.
  rewrite (bool_decide_eq_true_2 (Todo.folder_id dragged ≠ _)) by done.
  unfold next_fails.
  assert (Todo.id dragged ∈ dropped_order newTodos scope) as Hlisted.
  { unfold dropped_order.
    apply (list_elem_of_fmap_2' Todo.id _ moved); [|done].
    apply list_elem_of_filter. split; [done|].
    unfold newTodos, moved_todos, splice_in.
    rewrite !elem_of_app. right. left. left. }
  assert (∀ l row,
    row ∈ map (λ r, if bool_decide (Todo.id r = Todo.id dragged)
                    then TodoUpdate.apply
                           (TodoUpdate.mk None None None
                              (Some (Todo.folder_id targetTodo)) None None) r
                    else r) l →
    Todo.id row = Todo.id dragged →
    Todo.folder_id row = Todo.folder_id targetTodo) as Hrows.
  { intros l row Hin Hrid. apply list_elem_of_fmap in Hin as (r & -> & _).
    revert Hrid. by case_bool_decide. }
  set (refile := λ (k : nat) (t : Todo.t),
         if bool_decide (k ∈ held)
         then Todo.with_folder_id (Todo.folder_id targetTodo) t else t).
  assert (∀ k t, todos w !! k = Some t → k ∉ held →
            imap refile (todos w) !! k = Some t) as Hothers.
  { intros k t Hk Hout. rewrite list_lookup_imap, Hk. simpl.
    unfold refile. by rewrite (bool_decide_eq_false_2 _ Hout). }
  assert (∀ k, k ∈ held → todos w !! k = Some dragged →
            imap refile (todos w) !! k = Some moved) as Hheld.
  { intros k Hin Hk. rewrite list_lookup_imap, Hk. simpl.
    unfold refile. by rewrite (bool_decide_eq_true_2 _ Hin). }
  assert (held = [] → imap refile (todos w) = todos w) as Hnone.
  { intros ->. apply list_eq. intros k. rewrite list_lookup_imap.
    destruct (todos w !! k) as [t|]; [|done]. simpl. unfold refile.
    by rewrite bool_decide_eq_false_2 by apply not_elem_of_nil. }
  split; intros Hf.
  - destruct (faults w) as [|[] fs]; simpl in *; done.
  - destruct (faults w) as [|[] fs]; simpl in *; try done.
    all: split_and!; try done.
    all: try (intros key Hkey; by apply lookup_insert_ne).
    all: try apply Hrows.
    all: try apply length_imap.
    all: intros k row Hk Hrid; change (map ?f ?l) with (f <$> l);
      rewrite list_lookup_fmap, Hk; simpl;
      by rewrite bool_decide_eq_false_2.
Qed.

Lemma handleDrop_other_folder_witness :
  let w := session [milk; taxes] [] ∅ in
  let order : gmap string (list string) := {[ "f1" := ["t1"] ]} in
  let run := handleDrop [0%nat] (Some milk) [milk; taxes] taxes order w in
  let stale := handleDrop [] (Some milk) [milk; taxes] taxes order w in
  (NoDup (Todo.id <$> [milk; taxes]) ∧ [milk; taxes] !! 0%nat = Some milk
   ∧ [milk; taxes] !! 1%nat = Some taxes ∧ 0%nat ≠ 1%nat
   ∧ Todo.folder_id milk ≠ Todo.folder_id taxes ∧ next_fails w = false)
  ∧ run.1 = Normal {[ "f1" := ["t1"]; "root" := ["t2"; "t1"] ]}
  ∧ todos run.2 = [Todo.with_folder_id None milk; taxes]
  ∧ db_todos run.2 = [Todo.with_folder_id None milk; taxes]
  ∧ (∀ row, row ∈ db_todos run.2 → Todo.id row = "t1" →
       Todo.folder_id row = None)
  ∧ todos stale.2 = [milk; taxes]
  ∧ db_todos stale.2 = [Todo.with_folder_id None milk; taxes].
Proof.
  intros w order run stale.
  assert (NoDup (Todo.id <$> [milk; taxes])) as Hnd.
  { apply (bool_decide_unpack (NoDup _)). vm_compute. exact I. }
  assert (0%nat ≠ 1%nat) as Hne by lia.
  assert (Todo.folder_id milk ≠ Todo.folder_id taxes) as Hf by discriminate.
  assert (next_fails w = false) as Hp by reflexivity.
  destruct (handleDrop_other_folder [0%nat] [milk; taxes] 0 1 milk taxes order
              w Hnd eq_refl eq_refl Hne Hf) as [_ Hok].
  destruct (Hok Hp) as (_ & _ & _ & Hrows & _).
  destruct (handleDrop_other_folder [] [milk; taxes] 0 1 milk taxes order
              w Hnd eq_refl eq_refl Hne Hf) as [_ Hstale].
  destruct (Hstale Hp) as (_ & _ & _ & _ & _ & _ & _ & _ & Hnone & _).
  split_and!; [exact Hnd|reflexivity|reflexivity|exact Hne|exact Hf|exact Hp
              | | | |exact Hrows|exact (Hnone eq_refl)|].
  all: vm_compute; reflexivity.
Defined.

Lemma handleDrop_same_folder_run (held : list nat)
    (filteredTodos : list Todo.t) (di ti : nat)
    (dragged targetTodo : Todo.t) (todoOrder : gmap string (list string))
    (w : World) :
  NoDup (Todo.id <$> filteredTodos) →
  filteredTodos !! di = Some dragged →
  filteredTodos !! ti = Some targetTodo →
  di ≠ ti →
  Todo.folder_id dragged = Todo.folder_id targetTodo →
  handleDrop held (Some dragged) filteredTodos targetTodo todoOrder w
  = (Normal (<[folder_scope targetTodo :=
                 dropped_order
                   (moved_todos filteredTodos dragged (Z.of_nat ti))
                   (folder_scope targetTodo)]> todoOrder),
     (toast_success "Todo moved successfully!" w).2).
Proof.
  intros Hnd Hdi Hti Hne Hfolder.
  pose proof (distinct_entries _ _ _ _ _ Hnd Hdi Hti Hne) as Hid.
  unfold handleDrop.
  rewrite (bool_decide_eq_false_2 _ Hid). run_hook.
  rewrite (findIndex_of_entry _ _ _ Hnd Hdi),
    (findIndex_of_entry _ _ _ Hnd Hti).
  rewrite !(bool_decide_eq_false_2 (Z.of_nat _ = -1)) by lia. simpl.
  rewrite (bool_decide_eq_false_2 (Todo.folder_id dragged ≠ _))
    by (intros Hn; by apply Hn).
  done.
Qed.

Lemma indexOf_from_entry (i : Z) (l : list string) (k : nat) (x : string) :
  NoDup l → l !! k = Some x → indexOf_from i l x = i + Z.of_nat k.
Proof.
  revert i k. induction l as [|y l IH]; intros i k Hnd Hk; [done|].
  apply NoDup_cons in Hnd as [Hy Hnd]. simpl.
  destruct k as [|k]; simpl in Hk.
  - injection Hk as ->. rewrite bool_decide_eq_true_2 by done. lia.
  - rewrite bool_decide_eq_false_2.
    + rewrite (IH (i + 1) k Hnd Hk). lia.
    + intros ->. apply Hy. by eapply list_elem_of_lookup_2.
Qed.

Lemma StronglySorted_of_lookup {A} (R : A → A → Prop) (l : list A) :
  (∀ i j a b, (i < j)%nat → l !! i = Some a → l !! j = Some b → R a b) →
  StronglySorted R l.
Proof.
  induction l as [|x l IH]; intros Hl; constructor.
  - apply IH. intros i j a b Hij Ha Hb. apply (Hl (S i) (S j)); [lia|done..].
  - apply Forall_forall. intros y Hy.
    apply list_elem_of_lookup in Hy as [j Hj].
    apply (Hl 0%nat (S j)); [lia|done..].
Qed.

Lemma filter_one_key {A} (key : A → Z) (k : Z) (l1 l2 : list A) :
  l1 ≡ₚ l2 → NoDup (key <$> l1) →
  filter (λ a, key a = k) l1 = filter (λ a, key a = k) l2.
Proof.
  intros Hperm Hnd.
  assert (filter (λ a, key a = k) l1 ≡ₚ filter (λ a, key a = k) l2) as Hf
    by (by rewrite Hperm).
  assert (NoDup (key <$> filter (λ a, key a = k) l1)) as Hnd1.
  { eapply sublist_NoDup; [exact Hnd|]. apply fmap_sublist, sublist_filter. }
  destruct (filter (λ a, key a = k) l1) as [|a [|b r]] eqn:Hl1.
  - symmetry. by apply Permutation_nil.
  - by apply Permutation_singleton_l in Hf.
  - exfalso.
    assert (a ∈ filter (λ a, key a = k) l1) as Ha by (rewrite Hl1; left).
    assert (b ∈ filter (λ a, key a = k) l1) as Hb
      by (rewrite Hl1; right; left).
    apply list_elem_of_filter in Ha as [Ha _].
    apply list_elem_of_filter in Hb as [Hb _].
    rewrite !fmap_cons in Hnd1. apply NoDup_cons in Hnd1 as [Hn _].
    apply Hn. rewrite Ha, <- Hb. left.
Qed.

(** X20. A drop shows. With a folder selected and distinct identifiers in
    the store, the drop of one rendered todo on another writes an order
    map under which the same store, filter and folder render the moved
    list: the dragged todo at the position of the target, the others in
    the order they were rendered in. *)
Theorem drop_then_render (held : list nat) (todos : list Todo.t)
    (folder : string)
    (filter_ : Filter) (todoOrder : gmap string (list string))
    (di ti : nat) (dragged targetTodo : Todo.t) (w : World) :
  folder ≠ "" →
  NoDup (Todo.id <$> todos) →
  let rendered := filteredTodos todos (Some folder) filter_ todoOrder in
  rendered !! di = Some dragged →
  rendered !! ti = Some targetTodo →
  di ≠ ti →
  ∃ newOrder,
    (handleDrop held (Some dragged) rendered targetTodo todoOrder w).1
    = Normal newOrder
    ∧ filteredTodos todos (Some folder) filter_ newOrder
      = moved_todos rendered dragged (Z.of_nat ti)
    ∧ filteredTodos todos (Some folder) filter_ newOrder !! ti = Some dragged.
Proof.
  intros Hfolder Hnd rendered Hdi Hti Hne.
  set (shown := shown_todos todos (Some folder) filter_).
  assert (rendered ≡ₚ shown) as Hperm by apply Array_sort_perm.
  assert (NoDup (Todo.id <$> shown)) as Hnds.
  { eapply sublist_NoDup; [exact Hnd|]. apply fmap_sublist.
    unfold shown, shown_todos.
    etrans; apply sublist_filter. }
  assert (NoDup (Todo.id <$> rendered)) as Hndr by (by rewrite Hperm).
  assert (∀ t, t ∈ rendered → Todo.folder_id t = Some folder) as Hin.
  { intros t Ht. rewrite Hperm in Ht. unfold shown, shown_todos in Ht.
    apply list_elem_of_filter in Ht as [_ Ht].
    apply list_elem_of_filter in Ht as [[?|?] _]; done. }
  assert (scope_key (Some folder) = folder) as Hkey.
  { simpl. by rewrite bool_decide_eq_false_2. }
  assert (∀ t, t ∈ rendered → folder_scope t = folder) as Hscope.
  { intros t Ht. unfold folder_scope. by rewrite (Hin t Ht). }
  assert (Todo.folder_id dragged = Todo.folder_id targetTodo) as Hsame.
  { rewrite (Hin dragged), (Hin targetTodo); [done|..];
      by eapply list_elem_of_lookup_2. }
  rewrite (handleDrop_same_folder_run held rendered di ti dragged targetTodo
             todoOrder w Hndr Hdi Hti Hne Hsame).
  rewrite (Hscope targetTodo) by (by eapply list_elem_of_lookup_2).
  set (moved := moved_todos rendered dragged (Z.of_nat ti)).
  destruct (moved_todos_perm_at rendered di ti dragged targetTodo
              Hndr Hdi Hti Hne) as [Hmperm Hat].
  fold moved in Hmperm, Hat.
  assert (dropped_order moved folder = Todo.id <$> moved) as Hall.
  { unfold dropped_order. f_equal. apply filter_all_in.
    intros t Ht. apply Hscope. by rewrite <- Hmperm. }
  rewrite Hall.
  set (newOrder := <[folder := Todo.id <$> moved]> todoOrder).
  assert (NoDup (Todo.id <$> moved)) as Hndm by (by rewrite Hmperm).
  assert (scope_order newOrder (Some folder) = Todo.id <$> moved) as Hso.
  { unfold scope_order. rewrite Hkey. unfold newOrder.
    by rewrite lookup_insert_eq. }
  assert (∀ k t, moved !! k = Some t →
            order_index newOrder (Some folder) t = Z.of_nat k) as Hidx.
  { intros k t Hk. unfold order_index, indexOf. rewrite Hso.
    rewrite (indexOf_from_entry 0 _ k (Todo.id t) Hndm); [lia|].
    by rewrite list_lookup_fmap, Hk. }
  set (key := λ t : Todo.t,
         if bool_decide (order_index newOrder (Some folder) t = -1)
         then Z.of_nat (length (scope_order newOrder (Some folder)))
         else order_index newOrder (Some folder) t).
  assert (∀ k t, moved !! k = Some t → key t = Z.of_nat k) as Hkeyk.
  { intros k t Hk. unfold key. rewrite (Hidx k t Hk).
    by rewrite bool_decide_eq_false_2 by lia. }
  assert (filteredTodos todos (Some folder) filter_ newOrder = moved) as Hre.
  { symmetry. unfold filteredTodos. fold shown.
    apply (Array_sort_unique _ key).
    - apply compare_todos_key.
    - apply StronglySorted_of_lookup. intros i j a b Hij Ha Hb.
      rewrite (Hkeyk i a Ha), (Hkeyk j b Hb). lia.
    - intros k. apply filter_one_key.
      + by rewrite Hmperm, Hperm.
      + apply NoDup_alt. intros i j x Hi Hj.
        rewrite list_lookup_fmap in Hi, Hj.
        destruct (moved !! i) as [a|] eqn:Ha; [|done].
        destruct (moved !! j) as [b|] eqn:Hb; [|done].
        simpl in Hi, Hj. rewrite (Hkeyk i a Ha) in Hi.
        rewrite (Hkeyk j b Hb) in Hj.
        injection Hi as <-. injection Hj as Hj. lia. }
  exists newOrder. split_and!; [done|exact Hre|by rewrite Hre].
Qed.

Lemma drop_then_render_witness :
  let a := Todo.with_folder_id (Some "f1") (todo_named "a") in
  let b := Todo.with_folder_id (Some "f1") (todo_named "b") in
  let c := Todo.with_folder_id (Some "f1") (todo_named "c") in
  let w := session [a; b; c] [] ∅ in
  let rendered := filteredTodos [a; b; c] (Some "f1") all ∅ in
  ("f1" ≠ "" ∧ NoDup (Todo.id <$> [a; b; c])
   ∧ rendered !! 2%nat = Some c ∧ rendered !! 0%nat = Some a ∧ 2%nat ≠ 0%nat)
  ∧ filteredTodos [a; b; c] (Some "f1") all {[ "f1" := ["c"; "a"; "b"] ]}
    = [c; a; b]
  ∧ ∃ newOrder,
      (handleDrop [2%nat] (Some c) rendered a ∅ w).1 = Normal newOrder
      ∧ filteredTodos [a; b; c] (Some "f1") all newOrder !! 0%nat = Some c.
Proof.
  intros a b c w rendered.
  assert ("f1" ≠ "") as Hf by discriminate.
  assert (NoDup (Todo.id <$> [a; b; c])) as Hnd.
  { apply (bool_decide_unpack (NoDup _)). vm_compute. exact I. }
  assert (2%nat ≠ 0%nat) as Hne by lia.
  assert (rendered !! 2%nat = Some c) as Hc by (vm_compute; reflexivity).
  assert (rendered !! 0%nat = Some a) as Ha by (vm_compute; reflexivity).
  destruct (drop_then_render [2%nat] [a; b; c] "f1" all ∅ 2 0 c a w Hf Hnd
              Hc Ha Hne) as (newOrder & Hrun & _ & Hat).
  split_and!; [exact Hf|exact Hnd|exact Hc|exact Ha|exact Hne| |].
  - vm_compute. reflexivity.
  - exists newOrder. by split.
Defined.

Lemma Array_sort_ext {A} (c1 c2 : A → A → Z) (l : list A) :
  (∀ a b, c1 a b = c2 a b) → Array_sort c1 l = Array_sort c2 l.
Proof.
  intros Hc. induction l as [|x l IH]; [done|]. simpl. rewrite IH.
  generalize (Array_sort c2 l). intros s.
  induction s as [|y s IHs]; [done|]. simpl. by rewrite Hc, IHs.
Qed.

Lemma handleDrop_writes_one_scope (held : list nat)
    (draggedTodo : option Todo.t)
    (filteredTodos : list Todo.t) (targetTodo : Todo.t)
    (todoOrder : gmap string (list string)) (w : World) :
  ∃ newOrder,
    (handleDrop held draggedTodo filteredTodos targetTodo todoOrder w).1
    = Normal newOrder
    ∧ ∀ key, key ≠ folder_scope targetTodo →
        newOrder !! key = todoOrder !! key.
Proof.
  assert (∀ l key, key ≠ folder_scope targetTodo →
            <[folder_scope targetTodo := l]> todoOrder !! key
            = todoOrder !! key) as Hins
    by (intros l key Hk; by apply lookup_insert_ne).
  unfold handleDrop. destruct draggedTodo as [dragged|]; [|by eexists].
  case_bool_decide; [by eexists|]. run_hook.
  destruct (bool_decide (findIndex _ filteredTodos = -1)
            || bool_decide (findIndex _ filteredTodos = -1));
    [by eexists|].
  case_bool_decide; simpl.
  - destruct (faults w) as [|[] fs]; simpl; eexists; split; try done;
      apply Hins.
  - eexists; split; [done|apply Hins].
Qed.

(** A drop between two todos filed alike leaves the store alone. *)
Lemma handleDrop_keeps_store (held : list nat) (draggedTodo : option Todo.t)
    (filteredTodos : list Todo.t) (targetTodo : Todo.t)
    (todoOrder : gmap string (list string)) (w : World) :
  (∀ dragged, draggedTodo = Some dragged →
     Todo.folder_id dragged = Todo.folder_id targetTodo) →
  todos (handleDrop held draggedTodo filteredTodos targetTodo todoOrder w).2
  = todos w.
Proof.
  intros Hsame.
  unfold handleDrop. destruct draggedTodo as [dragged|]; [|done].
  specialize (Hsame dragged eq_refl).
  case_bool_decide; [done|]. run_hook.
  destruct (bool_decide (findIndex _ filteredTodos = -1)
            || bool_decide (findIndex _ filteredTodos = -1)); [done|].
  by rewrite (bool_decide_eq_false_2 (Todo.folder_id dragged ≠ _))
    by (intros Hn; by apply Hn).
Qed.

(** X21. A drop writes one scope. Whatever the drop, [handleDrop] returns
    an order map that differs from the one it was given at most in the
    scope of the target: for a view whose scope is another one, the map
    written sorts the store as the map given does. When moreover the
    dragged todo and the target are filed alike, the drop leaves the store
    alone, and such a view renders after the drop the list it rendered
    before: so it is in the view of all folders, whose scope is "root",
    for a drop between two todos of one folder. *)
Theorem handleDrop_other_views_unchanged (held : list nat)
    (draggedTodo : option Todo.t)
    (rendered : list Todo.t) (targetTodo : Todo.t)
    (todoOrder : gmap string (list string)) (w : World)
    (selectedFolderId : option string) (filter_ : Filter) :
  folder_scope targetTodo ≠ scope_key selectedFolderId →
  let run := handleDrop held draggedTodo rendered targetTodo todoOrder w in
  ∃ newOrder,
    run.1 = Normal newOrder
    ∧ (∀ key, key ≠ folder_scope targetTodo →
         newOrder !! key = todoOrder !! key)
    ∧ filteredTodos (todos run.2) selectedFolderId filter_ newOrder
      = filteredTodos (todos run.2) selectedFolderId filter_ todoOrder
    ∧ ((∀ dragged, draggedTodo = Some dragged →
          Todo.folder_id dragged = Todo.folder_id targetTodo) →
       todos run.2 = todos w
       ∧ filteredTodos (todos run.2) selectedFolderId filter_ newOrder
         = filteredTodos (todos w) selectedFolderId filter_ todoOrder).
Proof.
  intros Hscope run. subst run.
  destruct (handleDrop_writes_one_scope held draggedTodo rendered targetTodo
              todoOrder w) as (newOrder & Hrun & Hkeys).
  assert (∀ l, filteredTodos l selectedFolderId filter_ newOrder
               = filteredTodos l selectedFolderId filter_ todoOrder) as Hview.
  { intros l. unfold filteredTodos. apply Array_sort_ext. intros a b.
    unfold compare_todos. by rewrite Hkeys. }
  exists newOrder. split_and!; [done|done|apply Hview|].
  intros Hsame.
  rewrite (handleDrop_keeps_store held draggedTodo rendered targetTodo
             todoOrder w Hsame).
  split; [done|apply Hview].
Qed.

Lemma handleDrop_other_views_unchanged_witness :
  let a := todo_filed "f1" "a" in
  let b := todo_filed "f1" "b" in
  let w := session [a; b] [] ∅ in
  let rendered := filteredTodos (todos w) None all ∅ in
  let run := handleDrop [1%nat] (Some b) rendered a ∅ w in
  (folder_scope a ≠ scope_key None
   ∧ ∀ dragged, Some b = Some dragged →
       Todo.folder_id dragged = Todo.folder_id a)
  ∧ rendered = [a; b]
  ∧ run.1 = Normal {[ "f1" := ["b"; "a"] ]}
  ∧ filteredTodos (todos run.2) None all {[ "f1" := ["b"; "a"] ]} = [a; b]
  ∧ ∃ newOrder,
      run.1 = Normal newOrder
      ∧ filteredTodos (todos run.2) None all newOrder = rendered.
Proof.
  intros a b w rendered run.
  assert (folder_scope a ≠ scope_key None) as Hs by discriminate.
  assert (∀ dragged, Some b = Some dragged →
            Todo.folder_id dragged = Todo.folder_id a) as Hsame
    by (by intros dragged [= <-]).
  destruct (handleDrop_other_views_unchanged [1%nat] (Some b) rendered a ∅ w
              None all Hs) as (newOrder & Hrun & _ & _ & Hview).
  split_and!; [exact Hs|exact Hsame|vm_compute; reflexivity
              |vm_compute; reflexivity|vm_compute; reflexivity|].
  exists newOrder. split; [exact Hrun|]. exact (proj2 (Hview Hsame)).
Defined.

(** ** The preferences *)

#[local] Instance JString_inj : Inj (=) (=) JString.
Proof. by intros ? ? [= ->]. Qed.

#[local] Instance json_of_ids_inj :
  Inj (=) (=) (λ ids : list string, JArray (JString <$> ids)).
Proof. intros l1 l2 [= Heq]. by apply (inj (fmap JString)). Qed.

Lemma json_of_order_inj (o1 o2 : gmap string (list string)) :
  json_of_order o1 = json_of_order o2 → o1 = o2.
Proof.
  unfold json_of_order. intros [= Heq].
  by apply (inj (fmap (λ ids : list string, JArray (JString <$> ids)))).
Qed.

(** X22. The order that is saved is the order that is loaded. After an
    accepted [saveTodoOrder] of an order map, an answered
    [loadPreferences] of the same user hands to [setTodoOrder] the JSON
    value of that map, from which the map can be read off: different maps
    have different values. *)
Theorem saved_order_loads_back (newOrder : gmap string (list string))
    (uid : string) (w : World) :
  user w = Some uid →
  requests_pass 2 w →
  (loadPreferences (saveTodoOrder newOrder w).2).1
  = Normal (Some (json_of_order newOrder))
  ∧ ∀ other, json_of_order other = json_of_order newOrder → other = newOrder.
Proof.
  intros Hu Hp. split; [|intros other; apply json_of_order_inj].
  unfold loadPreferences, saveTodoOrder, supabase_select, next_fails, answered.
  run_hook. rewrite Hu. unfold requests_pass in Hp.
  destruct (faults w) as [|b1 [|b2 fs]]; simpl in *.
  - rewrite Hu. simpl. by rewrite lookup_insert_eq, lookup_singleton_eq.
  - apply Forall_cons in Hp as [-> _]. simpl. rewrite Hu. simpl.
    by rewrite lookup_insert_eq, lookup_singleton_eq.
  - apply Forall_cons in Hp as [-> Hp]. apply Forall_cons in Hp as [-> _].
    simpl. rewrite Hu. simpl.
    by rewrite lookup_insert_eq, lookup_singleton_eq.
Qed.

Lemma saved_order_loads_back_witness :
  let w := session_with_theme in
  user w = Some "u1" ∧ requests_pass 2 w
  ∧ (loadPreferences (saveTodoOrder {[ "root" := ["b"; "a"] ]} w).2).1
    = Normal (Some (json_of_order {[ "root" := ["b"; "a"] ]})).
Proof.
  intros w.
  assert (user w = Some "u1") as Hu by reflexivity.
  assert (requests_pass 2 w) as Hp by constructor.
  split_and!; [exact Hu|exact Hp|].
  exact (proj1 (saved_order_loads_back _ "u1" w Hu Hp)).
Defined.

(** X23. What [loadPreferences] leaves alone. It hands nothing to
    [setTodoOrder], so the order map of the session stays, when no user is
    signed in, when the read fails, when the user has no row, and when the
    document has no [todoOrder] key or a falsy value under it; it never
    writes to the backend and notifies nothing. *)
Theorem loadPreferences_keeps_order (w : World) :
  (user w = None
   ∨ next_fails w = true
   ∨ (∃ uid, user w = Some uid ∧ db_preferences w !! uid = None)
   ∨ (∃ uid preferences, user w = Some uid
        ∧ db_preferences w !! uid = Some preferences
        ∧ (preferences !! "todoOrder" = None
           ∨ ∃ order, preferences !! "todoOrder" = Some order
                      ∧ truthy order = false)) →
   (loadPreferences w).1 = Normal None)
  ∧ db_preferences (loadPreferences w).2 = db_preferences w
  ∧ requests (loadPreferences w).2 = requests w
  ∧ toasts (loadPreferences w).2 = toasts w.
Proof.
  unfold loadPreferences, supabase_select, answered. run_hook.
  split.
  - intros [Hu|[Hf|[(uid & Hu & Hrow)|(uid & prefs & Hu & Hrow & Hkey)]]].
    + by rewrite Hu.
    + destruct (user w); [|done]. by rewrite Hf.
    + rewrite Hu. destruct (next_fails w); [done|]. by rewrite Hrow.
    + rewrite Hu. destruct (next_fails w); [done|]. rewrite Hrow.
      destruct Hkey as [->|(order & -> & ->)]; done.
  - destruct (user w) as [uid|]; [|done].
    destruct (next_fails w); [done|].
    destruct (db_preferences w !! uid) as [prefs|]; [|done].
    destruct (prefs !! "todoOrder") as [order|]; [|done].
    by destruct (truthy order).
Qed.

Lemma loadPreferences_keeps_order_witness :
  let w := session [milk] [] ∅ in
  (∃ uid, user w = Some uid ∧ db_preferences w !! uid = None)
  ∧ (loadPreferences w).1 = Normal None.
Proof.
  intros w.
  assert (∃ uid, user w = Some uid ∧ db_preferences w !! uid = None) as Hrow
    by (by exists "u1").
  split; [exact Hrow|].
  apply (proj1 (loadPreferences_keeps_order w)). right. right. by left.
Defined.
